(** * Busmate dataset tools: route/stop table parser and normalizer

    A shallow embedding of the parsing core of the repository
    (into-csv/parse_bus_routes.py, process_routes.py, data-cleaning.py,
    Step_1/extract_bus_routes.py, Step_2/extract_bus_routes.py) together with
    the properties its specification states about it.

    Python values are modelled as the interpreter has them:
    - [str] is a sequence of Unicode code points ([pystr], a list of [N]);
    - [float] is an IEEE 754 binary64 number ([spec_float] with precision 53
      and maximal exponent 1024, rounding to nearest even);
    - [int] is an unbounded integer ([Z]);
    - a dict used as a record with a fixed set of keys is a record, a dict
      that is copied and extended is a [gmap] from keys to values, and
      objects that are shared and mutated live in an explicit store;
    - the [re] module is a backtracking matcher over a regular-expression
      syntax tree, in which every pattern of the sources is written out. *)

From Stdlib Require Import ZArith NArith QArith Lqa Lia Bool.
From Stdlib Require Import Floats.SpecFloat.
From Stdlib Require DecimalPos DecimalFacts Qpower.
From stdpp Require Import gmap strings list fin_maps.

Close Scope Q_scope.

(* ===================================================================== *)
(** * Python strings                                                      *)
(* ===================================================================== *)

Module PyStr.

(** A character is a Unicode code point. *)
Definition char := N.
Definition pystr := list char.

(** ASCII text of a Rocq string literal, for patterns and keys that are
    plain ASCII in the sources. *)
Fixpoint asc (s : string) : pystr :=
  match s with
  | EmptyString => []
  | String a t => Ascii.N_of_ascii a :: asc t
  end.

(** UTF-8 decoding of a Rocq string literal (one to four byte sequences),
    used to write Sinhala sample inputs readably. *)
Fixpoint utf8_go (fuel : nat) (bs : list N) : pystr :=
  match fuel with
  | O => []
  | S fuel' =>
    match bs with
    | [] => []
    | b0 :: r0 =>
      if (b0 <? 0x80)%N then b0 :: utf8_go fuel' r0
      else if (b0 <? 0xE0)%N then
        match r0 with
        | b1 :: r1 =>
            ((b0 - 0xC0) * 64 + (b1 - 0x80))%N :: utf8_go fuel' r1
        | _ => []
        end
      else if (b0 <? 0xF0)%N then
        match r0 with
        | b1 :: b2 :: r2 =>
            ((b0 - 0xE0) * 4096 + (b1 - 0x80) * 64 + (b2 - 0x80))%N
              :: utf8_go fuel' r2
        | _ => []
        end
      else
        match r0 with
        | b1 :: b2 :: b3 :: r3 =>
            ((b0 - 0xF0) * 262144 + (b1 - 0x80) * 4096
             + (b2 - 0x80) * 64 + (b3 - 0x80))%N :: utf8_go fuel' r3
        | _ => []
        end
    end
  end.

Definition u8 (s : string) : pystr :=
  let bs := asc s in utf8_go (length bs) bs.

Definition NL : char := 0x0A%N.
Definition SPACE : char := 0x20%N.

(** [str.isspace] on one character, which is also what [str.strip] removes
    and what [\s] matches in a [str] pattern (Py_UNICODE_ISSPACE). *)
Definition is_space (c : char) : bool :=
  ((0x09 <=? c) && (c <=? 0x0D) || (0x1C <=? c) && (c <=? 0x20)
   || (c =? 0x85) || (c =? 0xA0) || (c =? 0x1680)
   || (0x2000 <=? c) && (c <=? 0x200A)
   || (c =? 0x2028) || (c =? 0x2029) || (c =? 0x202F) || (c =? 0x205F)
   || (c =? 0x3000))%N.

(** First code point of every run of ten decimal digits (general category
    Nd) of the Unicode character database, version 14.0; the digit at offset
    [i] of a run has the value [i]. This is what [\d] matches in a [str]
    pattern and what [int] and [float] accept as digits. *)
Definition decimal_runs : list N :=
  [ 0x30; 0x660; 0x6f0; 0x7c0; 0x966; 0x9e6; 0xa66; 0xae6; 0xb66; 0xbe6;
    0xc66; 0xce6; 0xd66; 0xde6; 0xe50; 0xed0; 0xf20; 0x1040; 0x1090; 0x17e0;
    0x1810; 0x1946; 0x19d0; 0x1a80; 0x1a90; 0x1b50; 0x1bb0; 0x1c40; 0x1c50;
    0xa620; 0xa8d0; 0xa900; 0xa9d0; 0xa9f0; 0xaa50; 0xabf0; 0xff10; 0x104a0;
    0x10d30; 0x11066; 0x110f0; 0x11136; 0x111d0; 0x112f0; 0x11450; 0x114d0;
    0x11650; 0x116c0; 0x11730; 0x118e0; 0x11950; 0x11c50; 0x11d50; 0x11da0;
    0x16a60; 0x16ac0; 0x16b50; 0x1d7ce; 0x1d7d8; 0x1d7e2; 0x1d7ec; 0x1d7f6;
    0x1e140; 0x1e2f0; 0x1e950; 0x1fbf0 ]%N.

Fixpoint digit_in (runs : list N) (c : char) : option Z :=
  match runs with
  | [] => None
  | s :: rest =>
      if ((s <=? c) && (c <? s + 10))%N then Some (Z.of_N (c - s))
      else digit_in rest c
  end.

(** The decimal value of a digit character, [None] for any other one. *)
Definition digit_value (c : char) : option Z := digit_in decimal_runs c.

Definition is_decimal (c : char) : bool :=
  match digit_value c with Some _ => true | None => false end.

(** [s.lstrip()], [s.rstrip()] and [s.strip()]. *)
Fixpoint lstrip (s : pystr) : pystr :=
  match s with
  | c :: t => if is_space c then lstrip t else s
  | [] => []
  end.

Definition rstrip (s : pystr) : pystr := rev (lstrip (rev s)).

Definition strip (s : pystr) : pystr := rstrip (lstrip s).

(** [s.startswith(p)]. *)
Fixpoint startswith (s p : pystr) {struct p} : bool :=
  match p, s with
  | [], _ => true
  | a :: p', b :: s' => (a =? b)%N && startswith s' p'
  | _ :: _, [] => false
  end.

(** [s.endswith(p)]. *)
Definition endswith (s p : pystr) : bool := startswith (rev s) (rev p).

(** [sub in s]. *)
Fixpoint contains (sub s : pystr) : bool :=
  startswith s sub ||
  match s with
  | [] => false
  | _ :: t => contains sub t
  end.

(** [s.replace(old, new)]: the occurrences of [old] are found from left to
    right and do not overlap. [skip] counts the characters of the occurrence
    just replaced that are still to be passed over. With an empty [old],
    Python puts [new] before every character and at the end. *)
Fixpoint replace_from (old new s : pystr) (skip : nat) : pystr :=
  match s with
  | [] => []
  | c :: t =>
      match skip with
      | S k => replace_from old new t k
      | O =>
          if startswith s old
          then new ++ replace_from old new t (length old - 1)
          else c :: replace_from old new t 0
      end
  end.

Definition replace (s old new : pystr) : pystr :=
  match old with
  | [] => new ++ flat_map (fun c => c :: new) s
  | _ => replace_from old new s 0
  end.

(** [s.split(sep, 1)] for a one-character separator: cut at its first
    occurrence, the whole string when there is none. *)
Fixpoint split_once (sep : char) (s : pystr) : list pystr :=
  match s with
  | [] => [[]]
  | c :: t =>
      if (c =? sep)%N then [[]; t]
      else match split_once sep t with
           | h :: r => (c :: h) :: r
           | [] => [[c]]
           end
  end.

(** [s.split(sep)] for a one-character separator. *)
Fixpoint split_all (sep : char) (s : pystr) : list pystr :=
  match s with
  | [] => [[]]
  | c :: t =>
      if (c =? sep)%N then [] :: split_all sep t
      else match split_all sep t with
           | h :: r => (c :: h) :: r
           | [] => [[c]]
           end
  end.

End PyStr.

(* ===================================================================== *)
(** * Python numbers, values and exceptions                               *)
(* ===================================================================== *)

Module Py.
Import PyStr.

(** The exceptions the modelled code can meet. *)
Inductive exn := KeyError | TypeError | ValueError | OverflowError.

(** The outcome of a statement or expression that may raise. *)
Inductive result (A : Type) :=
| Ok (a : A)
| Raise (e : exn).
Arguments Ok {A} a.
Arguments Raise {A} e.

Definition bind {A B : Type} (r : result A) (k : A -> result B) : result B :=
  match r with
  | Ok a => k a
  | Raise e => Raise e
  end.

Notation "x <- r ;; k" := (bind r (fun x => k))
  (at level 100, r at next level, right associativity).

Definition of_option {A : Type} (e : exn) (o : option A) : result A :=
  match o with
  | Some a => Ok a
  | None => Raise e
  end.

(** [float] is IEEE 754 binary64. *)
Definition prec : Z := 53.
Definition emax : Z := 1024.
Definition float := spec_float.

Definition fsub : float -> float -> float := SFsub prec emax.
Definition fadd : float -> float -> float := SFadd prec emax.
Definition fzero : float := S754_zero false.

(** Digits of a string read as a decimal number, most significant first:
    [None] as soon as one character is not a decimal digit. *)
Fixpoint digits_value (acc : Z) (s : pystr) : option Z :=
  match s with
  | [] => Some acc
  | c :: t =>
      match digit_value c with
      | Some d => digits_value (10 * acc + d) t
      | None => None
      end
  end.

(** The number of digits beyond which [int] refuses a string: the default
    of [sys.get_int_max_str_digits()], which nothing in the sources
    changes. *)
Definition int_max_str_digits : Z := 4300.

(** A string short enough for [int]. *)
Definition int_accepts (s : pystr) : bool :=
  (Z.of_nat (length s) <=? int_max_str_digits)%Z.

(** [int(s)] on a string made of decimal digits, which is all the sources
    pass to it (the text of a [(\d+)] group). An empty string and any other
    character is a ValueError, and so is a string of more than 4300 digits,
    leading zeros included. The [int] returned is unbounded. *)
Definition py_int (s : pystr) : result Z :=
  match s with
  | [] => Raise ValueError
  | _ =>
      if int_accepts s then of_option ValueError (digits_value 0 s)
      else Raise ValueError
  end.

(** The part of [s] before its first dot, and the part after it when there
    is a dot. *)
Fixpoint cut_at_dot (s : pystr) : pystr * option pystr :=
  match s with
  | [] => ([], None)
  | c :: t =>
      if (c =? 0x2E)%N then ([], Some t)
      else let '(a, b) := cut_at_dot t in (c :: a, b)
  end.

(** The binary64 number nearest to [n / 10^k] (ties to even). The division
    of [spec_float] rounds the exact quotient once, whatever the size of the
    two integer mantissas. *)
Definition decimal_to_float (n : Z) (k : nat) : float :=
  match n with
  | Zpos p =>
      SFdiv prec emax (S754_finite false p 0)
                      (S754_finite false (Z.to_pos (10 ^ Z.of_nat k)) 0)
  | _ => fzero
  end.

(** [float(s)] on a string made of decimal digits and dots, which is all the
    sources pass to it (the text of a group of digits and dots): a
    run of digits, optionally a dot and a run of digits, with a digit
    somewhere. Anything else among such strings (no digit, a second dot) is
    a ValueError. *)
Definition py_float (s : pystr) : result float :=
  let '(ip, fp) := cut_at_dot s in
  let fp := default [] fp in
  match ip ++ fp with
  | [] => Raise ValueError
  | ds =>
      match digits_value 0 ds with
      | Some n => Ok (decimal_to_float n (length fp))
      | None => Raise ValueError
      end
  end.

(** [float(n)] for an [int]: the nearest binary64 number, OverflowError
    when [n] is beyond the finite range. *)
Definition float_of_int (n : Z) : result float :=
  match binary_normalize prec emax n 0 false with
  | S754_infinity _ => Raise OverflowError
  | x => Ok x
  end.

(** The values held by the dictionaries of the sources. *)
Inductive value :=
| VInt (n : Z)
| VFloat (x : float)
| VStr (s : pystr).

(** [a - b]. *)
Definition py_sub (a b : value) : result value :=
  match a, b with
  | VInt x, VInt y => Ok (VInt (x - y))
  | VFloat x, VFloat y => Ok (VFloat (fsub x y))
  | VInt x, VFloat y => x' <- float_of_int x ;; Ok (VFloat (fsub x' y))
  | VFloat x, VInt y => y' <- float_of_int y ;; Ok (VFloat (fsub x y'))
  | _, _ => Raise TypeError
  end.

(** A dict with string keys. *)
Abbreviation dict := (gmap string value).

(** [d[k]]. *)
Definition getitem (d : dict) (k : string) : result value :=
  of_option KeyError (d !! k).

(** The exact value of a finite float, as a rational. *)
Definition float_val (x : float) : option Q :=
  match x with
  | S754_zero _ => Some 0%Q
  | S754_finite s m e =>
      Some (inject_Z (if s then Z.neg m else Z.pos m) * Qpower 2 e)%Q
  | _ => None
  end.

End Py.

(* ===================================================================== *)
(** * The [re] module                                                     *)
(* ===================================================================== *)

Module Re.
Import PyStr.

(** The syntax of the patterns of the sources. Repetition ([+], [*], lazy
    or greedy) is only ever applied to a single character or class there,
    and [?] to a character or a group. *)
Inductive regex :=
| Eps
| Chr (p : char -> bool)                     (* one character of a class *)
| Lit (l : pystr)                            (* literal text *)
| Seq (a b : regex)
| Alt (a b : regex)                          (* a|b *)
| Rep (greedy : bool) (min : nat) (p : char -> bool)  (* at least [min] *)
| Opt (a : regex)                            (* a?, greedy *)
| Group (n : nat) (a : regex)                (* capturing group number n *)
| Look (a : regex)                           (* (?=a) *)
| Bol                                        (* ^ *)
| Eol.                                       (* $ without MULTILINE *)

(** Matching state: the position reached, the text that is left from there,
    and the groups captured so far (the latest capture of a group first). *)
Record mstate := MState {
  mpos : nat;
  mrest : pystr;
  mgroups : list (nat * pystr)
}.

Fixpoint group_get (n : nat) (gs : list (nat * pystr)) : option pystr :=
  match gs with
  | [] => None
  | (i, v) :: r => if Nat.eqb i n then Some v else group_get n r
  end.

(** Greedy repetition of a class: take as many characters as there are,
    and give them back one at a time while the continuation fails. *)
Fixpoint rep_greedy {R : Type} (p : char -> bool) (min pos : nat)
    (rest : pystr) (k : nat -> pystr -> option R) : option R :=
  let stop := match min with O => k pos rest | S _ => None end in
  match rest with
  | c :: t =>
      if p c then
        match rep_greedy p (Nat.pred min) (S pos) t k with
        | Some x => Some x
        | None => stop
        end
      else stop
  | [] => stop
  end.

(** Lazy repetition of a class: try the continuation first, and take one
    more character each time it fails. *)
Fixpoint rep_lazy {R : Type} (p : char -> bool) (min pos : nat)
    (rest : pystr) (k : nat -> pystr -> option R) : option R :=
  match min with
  | S m =>
      match rest with
      | c :: t => if p c then rep_lazy p m (S pos) t k else None
      | [] => None
      end
  | O =>
      match k pos rest with
      | Some x => Some x
      | None =>
          match rest with
          | c :: t => if p c then rep_lazy p 0 (S pos) t k else None
          | [] => None
          end
      end
  end.

(** The backtracking matcher, in continuation-passing style: [k] is what
    remains to be matched after [r]; the first success is the result. *)
Fixpoint rmatch (r : regex) (s : mstate) (k : mstate -> option mstate)
    {struct r} : option mstate :=
  match r with
  | Eps => k s
  | Chr p =>
      match mrest s with
      | c :: t => if p c then k (MState (S (mpos s)) t (mgroups s)) else None
      | [] => None
      end
  | Lit l =>
      if startswith (mrest s) l
      then k (MState (mpos s + length l) (drop (length l) (mrest s))
                     (mgroups s))
      else None
  | Seq a b => rmatch a s (fun s' => rmatch b s' k)
  | Alt a b =>
      match rmatch a s k with
      | Some x => Some x
      | None => rmatch b s k
      end
  | Rep true n p =>
      rep_greedy p n (mpos s) (mrest s)
                 (fun pos rest => k (MState pos rest (mgroups s)))
  | Rep false n p =>
      rep_lazy p n (mpos s) (mrest s)
               (fun pos rest => k (MState pos rest (mgroups s)))
  | Opt a =>
      match rmatch a s k with
      | Some x => Some x
      | None => k s
      end
  | Group n a =>
      rmatch a s (fun s' =>
        k (MState (mpos s') (mrest s')
                  ((n, take (mpos s' - mpos s) (mrest s)) :: mgroups s')))
  | Look a =>
      match rmatch a s Some with
      | Some s' => k (MState (mpos s) (mrest s) (mgroups s'))
      | None => None
      end
  | Bol => if Nat.eqb (mpos s) 0 then k s else None
  | Eol =>
      match mrest s with
      | [] => k s
      | [c] => if (c =? NL)%N then k s else None
      | _ => None
      end
  end.

(** One attempt at position [pos], where [rest] is the text from there on.
    With [must_advance], an empty match is refused (the matcher goes on
    backtracking for a longer one). *)
Definition match_at (r : regex) (pos : nat) (rest : pystr)
    (must_advance : bool) : option mstate :=
  rmatch r (MState pos rest [])
    (fun s' => if must_advance && Nat.eqb (mpos s') pos then None
               else Some s').

(** [re.match(r, s)]. *)
Definition re_match (r : regex) (s : pystr) : option mstate :=
  match_at r 0 s false.

(** [re.search(r, s)]: the first position where a match starts. *)
Fixpoint search_from (r : regex) (pos : nat) (rest : pystr)
    : option mstate :=
  match match_at r pos rest false with
  | Some m => Some m
  | None =>
      match rest with
      | [] => None
      | _ :: t => search_from r (S pos) t
      end
  end.

Definition re_search (r : regex) (s : pystr) : option mstate :=
  search_from r 0 s.

(** [m.group(n)] of a match object, [None] when the group took no part. *)
Definition group (m : mstate) (n : nat) : option pystr :=
  group_get n (mgroups m).

(** What a left-to-right scan of the text for successive matches sees: a
    character outside every match, or a match (with the position where it
    starts). *)
Inductive token :=
| TChar (c : char)
| TMatch (start : nat) (m : mstate).

(** The scan shared by [finditer], [findall], [sub] and [split]. After a
    match the search resumes where it ended; after an empty match it resumes
    at the same place with empty matches refused, and moves one character on
    when nothing longer is found. [skip] counts the characters of the last
    match that are still to be passed over. *)
Fixpoint scan (r : regex) (pos : nat) (rest : pystr) (skip : nat)
    : list token :=
  match skip with
  | S k =>
      match rest with
      | [] => []
      | _ :: t => scan r (S pos) t k
      end
  | O =>
      match match_at r pos rest false with
      | None =>
          match rest with
          | [] => []
          | c :: t => TChar c :: scan r (S pos) t 0
          end
      | Some m =>
          if Nat.eqb (mpos m) pos then
            TMatch pos m ::
            match match_at r pos rest true with
            | Some m' =>
                TMatch pos m' ::
                match rest with
                | [] => []
                | _ :: t => scan r (S pos) t (mpos m' - pos - 1)
                end
            | None =>
                match rest with
                | [] => []
                | c :: t => TChar c :: scan r (S pos) t 0
                end
            end
          else
            TMatch pos m ::
            match rest with
            | [] => []
            | _ :: t => scan r (S pos) t (mpos m - pos - 1)
            end
      end
  end.

Definition tokens (r : regex) (s : pystr) : list token := scan r 0 s 0.

(** [re.finditer(r, s)], as the list of its match objects. *)
Definition finditer (r : regex) (s : pystr) : list mstate :=
  omap (fun t => match t with TMatch _ m => Some m | TChar _ => None end)
       (tokens r s).

(** [re.sub(r, repl, s)] for a replacement text without group references. *)
Definition re_sub (r : regex) (repl s : pystr) : pystr :=
  flat_map (fun t => match t with TChar c => [c] | TMatch _ _ => repl end)
           (tokens r s).

(** [re.split(r, s)] for a pattern without capturing group: the pieces of
    text between the matches. [cur] is the piece being read, reversed. *)
Fixpoint split_tokens (cur : pystr) (ts : list token) : list pystr :=
  match ts with
  | [] => [rev cur]
  | TChar c :: r => split_tokens (c :: cur) r
  | TMatch _ _ :: r => rev cur :: split_tokens [] r
  end.

Definition re_split (r : regex) (s : pystr) : list pystr :=
  split_tokens [] (tokens r s).

(** Classes and shorthands of the patterns. *)
Definition dot (c : char) : bool := negb (c =? NL)%N.          (* . and [^\n] *)
Definition one (a : string) (c : char) : bool :=               (* [...] *)
  existsb (N.eqb c) (asc a).
Definition plus (p : char -> bool) : regex := Rep true 1 p.
Definition star (p : char -> bool) : regex := Rep true 0 p.
Definition plus_lazy (p : char -> bool) : regex := Rep false 1 p.
Fixpoint cat (rs : list regex) : regex :=
  match rs with
  | [] => Eps
  | [r] => r
  | r :: t => Seq r (cat t)
  end.

End Re.

(* ===================================================================== *)
(** * into-csv/parse_bus_routes.py                                        *)
(* ===================================================================== *)

Module ParseBusRoutes.
Import PyStr Py Re.

(** 'හරහා', the token that ends a through-marker line. *)
Definition THROUGH : pystr := [0xdc4; 0xdbb; 0xdc4; 0xdcf]%N.

(** 'මාර්ග අංක :', the token that opens a route-header line. *)
Definition ROUTE_NO : pystr :=
  [0xdb8; 0xdcf; 0xdbb; 0xdca; 0xd9c; 0x20; 0xd85; 0xd82; 0xd9a; 0x20; 0x3a]%N.

(** The stop-row pattern: sequence number, fare, stop name, each separated
    by white space; anchored at both ends of the line.
    Group 1 is a run of digits, group 2 digits with an optional dot and
    more digits, group 3 the rest of the line. *)
Definition stop_re : regex :=
  cat [ Bol; Group 1 (plus is_decimal); plus is_space;
        Group 2 (cat [plus is_decimal; Opt (Chr (one ".")); star is_decimal]);
        plus is_space; Group 3 (plus dot); Eol ].

(** The dict built for one stop row. *)
Definition stop_dict (stop_sequence : Z) (stop_name : pystr) (fare : float)
    : dict :=
  <["stop_sequence" := VInt stop_sequence]>
  (<["stop_name" := VStr stop_name]>
  (<["fare_from_start" := VFloat fare]> ∅)).

(** The dict built for one route; its keys are fixed, so it is a record. *)
Record Route := mkRoute {
  route_number : pystr;
  route_name : pystr;
  route_through : pystr;
  stops : list dict
}.

(** The state of the scan. Route objects live in [heap] and are named by
    their index there: [routes] and [current_route] hold references, as the
    Python variables do, so that appending a stop to the current route is
    seen through every reference to it. *)
Record pstate := mkState {
  heap : list Route;
  routes : list nat;
  current_route : option nat;
  current_route_through : option pystr
}.

Definition initial : pstate := mkState [] [] None None.

(** [current_route and current_route['stops']] as a condition. *)
Definition has_stops (st : pstate) : bool :=
  match current_route st with
  | Some l =>
      match heap st !! l with
      | Some r => negb (bool_decide (stops r = []))
      | None => false
      end
  | None => false
  end.

(** [routes.append(current_route)] under that condition. *)
Definition flush (st : pstate) : list nat :=
  if has_stops st
  then routes st ++ from_option (fun l => [l]) [] (current_route st)
  else routes st.

(** [current_route['stops'].append(d)]. *)
Definition append_stop (h : list Route) (l : nat) (d : dict) : list Route :=
  alter (fun r => mkRoute (route_number r) (route_name r) (route_through r)
                          (stops r ++ [d])) l h.

(** The three kinds of line that the loop tells apart before it looks for a
    stop row. *)
Definition is_blank (line : pystr) : bool := bool_decide (line = []).
Definition is_through (line : pystr) : bool := endswith line THROUGH.
Definition is_header (line : pystr) : bool := startswith line ROUTE_NO.

(** The body of the [while] loop for the line [raw] (one element of
    [file.readlines()]). *)
Definition process_line (st : pstate) (raw : pystr) : result pstate :=
  let line := strip raw in
  if is_blank line then Ok st
  else if is_through line then
    Ok (mkState (heap st) (flush st)
                (if has_stops st then None else current_route st)
                (Some (strip (replace line THROUGH []))))
  else if is_header line then
    let route_info := strip (replace line ROUTE_NO []) in
    let route_parts := split_once SPACE route_info in
    let '(number, name) :=
      match route_parts with
      | a :: b :: _ => (a, b)
      | _ => (route_info, [])
      end in
    (* current_route_through or "" *)
    let through := default [] (current_route_through st) in
    Ok (mkState (heap st ++ [mkRoute number name through []])
                (flush st)
                (Some (length (heap st)))
                (current_route_through st))
  else
    match current_route st with
    | Some l =>
        match re_match stop_re line with
        | Some m =>
            g1 <- of_option TypeError (group m 1) ;;
            stop_sequence <- py_int g1 ;;
            g2 <- of_option TypeError (group m 2) ;;
            fare <- py_float g2 ;;
            let stop_name := strip (default [] (group m 3)) in
            Ok (mkState (append_stop (heap st) l
                           (stop_dict stop_sequence stop_name fare))
                        (routes st) (current_route st)
                        (current_route_through st))
        | None => Ok st
        end
    | None => Ok st
    end.

(** The whole [while] loop. *)
Fixpoint parse_loop (st : pstate) (lines : list pystr) : result pstate :=
  match lines with
  | [] => Ok st
  | raw :: rest => st' <- process_line st raw ;; parse_loop st' rest
  end.

(** The references returned: the loop, then the flush of the last route. *)
Definition parse_refs (lines : list pystr) : result (list Route * list nat) :=
  st <- parse_loop initial lines ;; Ok (heap st, flush st).

(** [parse_route_data], from the lines read: the routes as they are when the
    function returns, and the empty list when anything was raised. *)
Definition parse_route_data (lines : list pystr) : list Route :=
  match parse_refs lines with
  | Ok (h, rs) => omap (fun l => h !! l) rs
  | Raise _ => []
  end.

(** The store of stop dicts, named by their index. *)
Abbreviation store := (list dict).

(** The [for] loop of [calculate_fare_differences]: [i] is the index of the
    stop being read, [todo] the stops from there on, [enhanced] the list
    built so far. A reference outside the store cannot arise in Python; the
    model answers KeyError to it. *)
Fixpoint enhance_loop (stops : list nat) (i : nat) (todo enhanced : list nat)
    (s : store) : result (list nat * store) :=
  match todo with
  | [] => Ok (enhanced, s)
  | stop :: rest =>
      d <- of_option KeyError (s !! stop) ;;
      let enhanced_stop := length s in              (* stop.copy() *)
      let s1 := s ++ [d] in
      v <- (match i with
            | O =>
                cur <- of_option KeyError (s1 !! stop) ;;
                getitem cur "fare_from_start"
            | S j =>
                prev <- of_option KeyError
                          (stops !! j ≫= fun l => s1 !! l) ;;
                prev_fare <- getitem prev "fare_from_start" ;;
                cur <- of_option KeyError (s1 !! stop) ;;
                cur_fare <- getitem cur "fare_from_start" ;;
                py_sub cur_fare prev_fare
            end) ;;
      let s2 := alter (insert "fare_from_previous" v) enhanced_stop s1 in
      enhance_loop stops (S i) rest (enhanced ++ [enhanced_stop]) s2
  end.

Definition calculate_fare_differences (stops : list nat) (s : store)
    : result (list nat * store) :=
  enhance_loop stops 0 stops [] s.

End ParseBusRoutes.

(* ===================================================================== *)
(** * process_routes.py                                                   *)
(* ===================================================================== *)

Module ProcessRoutes.
Import PyStr Py Re.

(** The correction table of [clean_stop_name], in the order of the dict
    literal (which is the order [items()] goes through it). *)
Definition corrections : list (pystr * pystr) :=
  [ (* 'චිශ්ච චිදා9ාලය' : 'විද්‍යාලය' *)
    ([0xda0; 0xdd2; 0xdc1; 0xdca; 0xda0; 0x20; 0xda0; 0xdd2; 0xdaf; 0xdcf;
      0x39; 0xdcf; 0xdbd; 0xdba],
     [0xdc0; 0xdd2; 0xdaf; 0xdca; 0x200d; 0xdba; 0xdcf; 0xdbd; 0xdba]);
    (* 'චිදා9ාලය' : 'විද්‍යාලය' *)
    ([0xda0; 0xdd2; 0xdaf; 0xdcf; 0x39; 0xdcf; 0xdbd; 0xdba],
     [0xdc0; 0xdd2; 0xdaf; 0xdca; 0x200d; 0xdba; 0xdcf; 0xdbd; 0xdba]);
    (* 'හංදිය' : 'හන්දිය' *)
    ([0xdc4; 0xd82; 0xdaf; 0xdd2; 0xdba],
     [0xdc4; 0xdb1; 0xdca; 0xdaf; 0xdd2; 0xdba]);
    (* 'හංදියට' : 'හන්දියට' *)
    ([0xdc4; 0xd82; 0xdaf; 0xdd2; 0xdba; 0xda7],
     [0xdc4; 0xdb1; 0xdca; 0xdaf; 0xdd2; 0xdba; 0xda7]);
    (* 'Bae' : 'බදුල්ල' *)
    (asc "Bae", [0xdb6; 0xdaf; 0xdd4; 0xdbd; 0xdca; 0xdbd]);
    (* 'ට්‍රැක්මෙ?' : 'ට්‍රැක්මෙන්' *)
    ([0xda7; 0xdca; 0x200d; 0xdbb; 0xdd0; 0xd9a; 0xdca; 0xdb8; 0xdd9; 0x3f],
     [0xda7; 0xdca; 0x200d; 0xdbb; 0xdd0; 0xd9a; 0xdca; 0xdb8; 0xdd9; 0xdb1;
      0xdca]);
    (* 'දෝොණිය' : 'දෝණිය' *)
    ([0xdaf; 0xddd; 0xddc; 0xdab; 0xdd2; 0xdba],
     [0xdaf; 0xddd; 0xdab; 0xdd2; 0xdba]);
    (* 'චරකාපොල' : 'දරකාපොල' *)
    ([0xda0; 0xdbb; 0xd9a; 0xdcf; 0xdb4; 0xddc; 0xdbd],
     [0xdaf; 0xdbb; 0xd9a; 0xdcf; 0xdb4; 0xddc; 0xdbd]);
    (* 'චේචැල්දෝොණිය' : 'දෙහිවලගොඩ' *)
    ([0xda0; 0xdda; 0xda0; 0xdd0; 0xdbd; 0xdca; 0xdaf; 0xddd; 0xddc; 0xdab;
      0xdd2; 0xdba],
     [0xdaf; 0xdd9; 0xdc4; 0xdd2; 0xdc0; 0xdbd; 0xd9c; 0xddc; 0xda9]);
    (asc "BO", []);
    (asc "Ned", []);
    (asc "dz", []);
    (asc "ame", []);
    (asc "arg", []);
    (asc "os!", []) ]%N.

(** The [for] loop over the table: one [replace] per entry, in order. *)
Definition apply_corrections (table : list (pystr * pystr)) (name : pystr)
    : pystr :=
  fold_left (fun name kv => replace name (fst kv) (snd kv)) table name.

(** [\s+] *)
Definition spaces_re : regex := plus is_space.

(** [re.sub(r'\s+', ' ', name).strip()] *)
Definition squeeze (name : pystr) : pystr :=
  strip (re_sub spaces_re [SPACE] name).

Definition clean_stop_name (name : pystr) : pystr :=
  squeeze (apply_corrections corrections name).

Definition digit_or_dot (c : char) : bool := is_decimal c || (c =? 0x2E)%N.

(** 'මා(ර්ග|ථ්ග)\s*අංක\s*:\s*([^\n]+)' *)
Definition route_re : regex :=
  cat [ Lit [0xdb8; 0xdcf]%N;
        Group 1 (Alt (Lit [0xdbb; 0xdca; 0xd9c]%N)
                     (Lit [0xdae; 0xdca; 0xd9c]%N));
        star is_space; Lit [0xd85; 0xd82; 0xd9a]%N; star is_space;
        Chr (one ":"); star is_space; Group 2 (plus dot) ].

(** 'අංක\s*:\s*([^\n]+)' *)
Definition route_alt_re : regex :=
  cat [ Lit [0xd85; 0xd82; 0xd9a]%N; star is_space; Chr (one ":");
        star is_space; Group 1 (plus dot) ].

(** 'අංක[^\n]+\n([^\n]+)' *)
Definition route_desc_re : regex :=
  cat [ Lit [0xd85; 0xd82; 0xd9a]%N; plus dot; Lit [NL]; Group 1 (plus dot) ].

(** Pattern 1, '(\d+)\s+([\d.]+)\s*\]\s*([^\n]+?)(?=\n\d+\s+[\d.]|$)':
    number, fare, a closing bracket, then the stop name up to the next row
    or the end. *)
Definition stop_pattern1 : regex :=
  cat [ Group 1 (plus is_decimal); plus is_space;
        Group 2 (plus digit_or_dot); star is_space; Chr (one "]");
        star is_space; Group 3 (plus_lazy dot);
        Look (Alt (cat [Lit [NL]; plus is_decimal; plus is_space;
                        Chr digit_or_dot])
                  Eol) ].

(** Pattern 2, '(\d+)\s+([^\n]+?)(?=\n\d+\s+[^\n]|$)': number and stop
    name, the fare being absent. *)
Definition stop_pattern2 : regex :=
  cat [ Group 1 (plus is_decimal); plus is_space; Group 2 (plus_lazy dot);
        Look (Alt (cat [Lit [NL]; plus is_decimal; plus is_space; Chr dot])
                  Eol) ].

(** '=== Page \d+ ===' *)
Definition page_re : regex :=
  cat [ Lit (asc "=== Page "); plus is_decimal; Lit (asc " ===") ].

(** The dict returned for a page. *)
Record RouteData := mkRouteData {
  route_number : pystr;
  route_name : pystr;
  stops : list dict
}.

Definition stop_dict (stop_sequence : Z) (stop_name : pystr) (fare : float)
    : dict :=
  <["stop_sequence" := VInt stop_sequence]>
  (<["stop_name" := VStr stop_name]>
  (<["fare_from_start" := VFloat fare]> ∅)).

(** The body of the first [for] loop: a stop from a match of pattern 1. *)
Definition stop_of_match1 (m : mstate) : result dict :=
  g1 <- of_option TypeError (group m 1) ;;
  stop_num <- py_int g1 ;;
  g2 <- of_option TypeError (group m 2) ;;
  fare <- py_float g2 ;;
  g3 <- of_option TypeError (group m 3) ;;
  Ok (stop_dict stop_num (clean_stop_name (strip g3)) fare).

(** The body of the second [for] loop: a stop from a match of pattern 2,
    with the default fare 0.00. *)
Definition stop_of_match2 (m : mstate) : result dict :=
  g1 <- of_option TypeError (group m 1) ;;
  stop_num <- py_int g1 ;;
  g2 <- of_option TypeError (group m 2) ;;
  Ok (stop_dict stop_num (clean_stop_name (strip g2)) fzero).

(** A [for] loop that appends one stop per match and stops at the first
    exception. *)
Fixpoint collect (f : mstate -> result dict) (ms : list mstate)
    : result (list dict) :=
  match ms with
  | [] => Ok []
  | m :: r => d <- f m ;; ds <- collect f r ;; Ok (d :: ds)
  end.

(** The route number: what follows the header token, looked for with
    [route_re] first and [route_alt_re] next; "Unknown" when neither is
    found. *)
Definition find_route_number (page_text : pystr) : result pystr :=
  match re_search route_re page_text with
  | Some m => g <- of_option TypeError (group m 2) ;; Ok (strip g)
  | None =>
      match re_search route_alt_re page_text with
      | Some m => g <- of_option TypeError (group m 1) ;; Ok (strip g)
      | None => Ok (asc "Unknown")
      end
  end.

(** The route description: the line after the header, cleaned. *)
Definition find_route_desc (page_text : pystr) : result pystr :=
  match re_search route_desc_re page_text with
  | Some m =>
      g <- of_option TypeError (group m 1) ;; Ok (clean_stop_name (strip g))
  | None => Ok (clean_stop_name [])
  end.

(** The stops: those of pattern 1, and those of pattern 2 when pattern 1
    gave none ([if not stops]). *)
Definition find_stops (page_text : pystr) : result (list dict) :=
  stops1 <- collect stop_of_match1 (finditer stop_pattern1 page_text) ;;
  match stops1 with
  | [] => collect stop_of_match2 (finditer stop_pattern2 page_text)
  | _ => Ok stops1
  end.

(** The [try] block of [extract_route_data]. *)
Definition extract_route_data_try (page_text : pystr) : result RouteData :=
  number <- find_route_number page_text ;;
  desc <- find_route_desc page_text ;;
  stops <- find_stops page_text ;;
  Ok (mkRouteData number desc stops).

(** [extract_route_data]: [None] when the [try] block raised. *)
Definition extract_route_data (page_text : pystr) : option RouteData :=
  match extract_route_data_try page_text with
  | Ok rd => Some rd
  | Raise _ => None
  end.

(** The [for] loop of [process_text_file] over the pages. *)
Fixpoint process_pages (pages : list pystr) : list RouteData :=
  match pages with
  | [] => []
  | page_text :: rest =>
      match strip page_text with
      | [] => process_pages rest                        (* empty page *)
      | _ =>
          match extract_route_data page_text with
          | Some rd =>
              match stops rd with
              | [] => process_pages rest
              | _ => rd :: process_pages rest
              end
          | None => process_pages rest
          end
      end
  end.

(** [process_text_file], from the content read. *)
Definition process_text_file (content : pystr) : list RouteData :=
  process_pages (re_split page_re content).

End ProcessRoutes.

(* ===================================================================== *)
(** * data-cleaning.py                                                    *)
(* ===================================================================== *)

Module DataCleaning.
Import PyStr Py Re.

(** The correction table of this file's [clean_stop_name], in the order of
    the dict literal; its seven entries are the first seven of the table of
    process_routes.py. *)
Definition corrections : list (pystr * pystr) :=
  [ (* 'චිශ්ච චිදා9ාලය' : 'විද්‍යාලය' *)
    ([0xda0; 0xdd2; 0xdc1; 0xdca; 0xda0; 0x20; 0xda0; 0xdd2; 0xdaf; 0xdcf;
      0x39; 0xdcf; 0xdbd; 0xdba],
     [0xdc0; 0xdd2; 0xdaf; 0xdca; 0x200d; 0xdba; 0xdcf; 0xdbd; 0xdba]);
    (* 'චිදා9ාලය' : 'විද්‍යාලය' *)
    ([0xda0; 0xdd2; 0xdaf; 0xdcf; 0x39; 0xdcf; 0xdbd; 0xdba],
     [0xdc0; 0xdd2; 0xdaf; 0xdca; 0x200d; 0xdba; 0xdcf; 0xdbd; 0xdba]);
    (* 'හංදිය' : 'හන්දිය' *)
    ([0xdc4; 0xd82; 0xdaf; 0xdd2; 0xdba],
     [0xdc4; 0xdb1; 0xdca; 0xdaf; 0xdd2; 0xdba]);
    (* 'හංදියට' : 'හන්දියට' *)
    ([0xdc4; 0xd82; 0xdaf; 0xdd2; 0xdba; 0xda7],
     [0xdc4; 0xdb1; 0xdca; 0xdaf; 0xdd2; 0xdba; 0xda7]);
    (* 'Bae' : 'බදුල්ල' *)
    (asc "Bae", [0xdb6; 0xdaf; 0xdd4; 0xdbd; 0xdca; 0xdbd]);
    (* 'ට්‍රැක්මෙ?' : 'ට්‍රැක්මෙන්' *)
    ([0xda7; 0xdca; 0x200d; 0xdbb; 0xdd0; 0xd9a; 0xdca; 0xdb8; 0xdd9; 0x3f],
     [0xda7; 0xdca; 0x200d; 0xdbb; 0xdd0; 0xd9a; 0xdca; 0xdb8; 0xdd9; 0xdb1;
      0xdca]);
    (* 'දෝොණිය' : 'දෝණිය' *)
    ([0xdaf; 0xddd; 0xddc; 0xdab; 0xdd2; 0xdba],
     [0xdaf; 0xddd; 0xdab; 0xdd2; 0xdba]) ]%N.

(** The [for] loop over the table, with no cleanup of white space after
    it. *)
Definition clean_stop_name (name : pystr) : pystr :=
  ProcessRoutes.apply_corrections corrections name.

End DataCleaning.

(* ===================================================================== *)
(** * Step_1/extract_bus_routes.py and Step_2/extract_bus_routes.py       *)
(* ===================================================================== *)

Module ExtractBusRoutes.
Import PyStr Py Re.

(** The separators that stand for a cell border: '|', ']' and '}'. *)
Definition is_sep (c : char) : bool := one "|]}" c.

(** [\d+\.?\d*] *)
Definition number_re : regex :=
  cat [plus is_decimal; Opt (Chr (one ".")); star is_decimal].

(** The row pattern of Step_2 (NUM stands for [\d+\.?\d*], SEP for the
    class of the three separators):
    '(\d+)\s+(?:(NUM)\s*SEP)?\s*(.+?)(?=\s+\d+\s+(?:NUM\s*SEP|$)|$)'. *)
Definition row_re_step2 : regex :=
  cat [ Group 1 (plus is_decimal); plus is_space;
        Opt (cat [Group 2 number_re; star is_space; Chr is_sep]);
        star is_space; Group 3 (plus_lazy dot);
        Look (Alt (cat [plus is_space; plus is_decimal; plus is_space;
                        Alt (cat [number_re; star is_space; Chr is_sep]) Eol])
                  Eol) ].

(** The row pattern of Step_1:
    '(\d+)\s+(?:(NUM)\s*SEP)?\s*(.+?)(?=\s+\d+\s+NUM SEP|$)', without the
    blank between NUM and SEP. *)
Definition row_re_step1 : regex :=
  cat [ Group 1 (plus is_decimal); plus is_space;
        Opt (cat [Group 2 number_re; star is_space; Chr is_sep]);
        star is_space; Group 3 (plus_lazy dot);
        Look (Alt (cat [plus is_space; plus is_decimal; plus is_space;
                        number_re; Chr is_sep])
                  Eol) ].

(** '^\d+\s+' *)
Definition leading_number_re : regex :=
  cat [Bol; plus is_decimal; plus is_space].

(** The class [\d\s|\]\}]: a digit, white space or a separator. *)
Definition noise_char (c : char) : bool :=
  is_decimal c || is_space c || is_sep c.

(** '^[\d\s|\]\}]+$' *)
Definition noise_re : regex := cat [Bol; plus noise_char; Eol].

(** The words that mark a table header line, 'ගාස්තු' and 'අවස්ථා'. *)
Definition header_words : list pystr :=
  [ [0xd9c; 0xdcf; 0xdc3; 0xdca; 0xdad; 0xdd4];
    [0xd85; 0xdc0; 0xdc3; 0xdca; 0xdae; 0xdcf] ]%N.

(** The words that mark a page header or footer (Step_2 only):
    'ජාතික ගමනාගමන', 'කොමිෂන්', 'සභාව', 'උද්‍යාන පාර', 'ක්ෂණික ඇමතුම්'. *)
Definition footer_words : list pystr :=
  [ [0xda2; 0xdcf; 0xdad; 0xdd2; 0xd9a; 0x20; 0xd9c; 0xdb8; 0xdb1; 0xdcf;
     0xd9c; 0xdb8; 0xdb1];
    [0xd9a; 0xddc; 0xdb8; 0xdd2; 0xdc2; 0xdb1; 0xdca];
    [0xdc3; 0xdb7; 0xdcf; 0xdc0];
    [0xd8b; 0xdaf; 0xdca; 0x200d; 0xdba; 0xdcf; 0xdb1; 0x20; 0xdb4; 0xdcf;
     0xdbb];
    [0xd9a; 0xdca; 0xdc2; 0xdab; 0xdd2; 0xd9a; 0x20; 0xd87; 0xdb8; 0xdad;
     0xdd4; 0xdb8; 0xdca] ]%N.

(** One element of [re.findall]: the three groups, '' for a group that took
    no part in the match. *)
Definition groups3 (m : mstate) : pystr * pystr * pystr :=
  (default [] (group m 1), default [] (group m 2), default [] (group m 3)).

Definition findall3 (r : regex) (s : pystr) : list (pystr * pystr * pystr) :=
  map groups3 (finditer r s).

(** The location after the cleanup of [parse_table_data]:
    [re.sub(r'^\d+\s+', '', match[2].strip()).strip()]. *)
Definition clean_location (raw : pystr) : pystr :=
  strip (re_sub leading_number_re [] (strip raw)).

(** The two nested conditions under which a row is appended. *)
Definition keeps (location : pystr) : bool :=
  negb (bool_decide (location = [])) && (1 <? length location)%nat
  && negb (bool_decide (is_Some (re_match noise_re location))).

Definition row_dict (stop_num distance location : pystr) : dict :=
  <["stop_number" := VStr stop_num]>
  (<["distance_km" := VStr distance]>
  (<["location" := VStr location]> ∅)).

(** The body of [for match in matches]: the row appended, if any. *)
Definition row_of_match (match_ : pystr * pystr * pystr) : option dict :=
  let '(stop_num, distance, raw) := match_ in
  let location := clean_location raw in
  if keeps location then Some (row_dict stop_num distance location) else None.

(** The lines that the loop skips before it looks for rows. *)
Definition skipped (words : list pystr) (line : pystr) : bool :=
  bool_decide (strip line = []) || existsb (fun w => contains w line) words.

Definition parse_table_with (row_re : regex) (words : list pystr)
    (text : pystr) : list dict :=
  flat_map (fun line =>
              if skipped words line then []
              else omap row_of_match (findall3 row_re line))
           (split_all NL text).

(** [parse_table_data] of Step_1. *)
Definition parse_table_data_step1 (text : pystr) : list dict :=
  parse_table_with row_re_step1 header_words text.

(** [parse_table_data] of Step_2. *)
Definition parse_table_data (text : pystr) : list dict :=
  parse_table_with row_re_step2 (header_words ++ footer_words) text.

(** 'මාර්ග අංක' *)
Definition ROUTE_WORD : pystr :=
  [0xdb8; 0xdcf; 0xdbb; 0xdca; 0xd9c; 0x20; 0xd85; 0xd82; 0xd9a]%N.

Definition digit_or_dash (c : char) : bool := is_decimal c || (c =? 0x2D)%N.

(** 'මාර්ග අංක\s*:\s*([\d-]+)' *)
Definition route_number_re : regex :=
  cat [ Lit ROUTE_WORD; star is_space; Chr (one ":"); star is_space;
        Group 1 (plus digit_or_dash) ].

(** 'මාර්ග අංක\s*:\s*[\d-]+\s+(.+?)(?:\n|චරකාපොල)' *)
Definition route_name_re : regex :=
  cat [ Lit ROUTE_WORD; star is_space; Chr (one ":"); star is_space;
        plus digit_or_dash; plus is_space; Group 1 (plus_lazy dot);
        Alt (Lit [NL])
            (Lit [0xda0; 0xdbb; 0xd9a; 0xdcf; 0xdb4; 0xddc; 0xdbd]%N) ].

Definition extract_route_number (text : pystr) : pystr :=
  match re_search route_number_re text with
  | Some m => default [] (group m 1)
  | None => asc "Unknown"
  end.

Definition extract_route_name (text : pystr) : pystr :=
  match re_search route_name_re text with
  | Some m => strip (default [] (group m 1))
  | None => asc "Unknown"
  end.

(** '===\s*Page\s+\d+\s*===' *)
Definition page_re : regex :=
  cat [ Lit (asc "==="); star is_space; Lit (asc "Page"); plus is_space;
        plus is_decimal; star is_space; Lit (asc "===") ].

(** The pages of a text: the split on the page marker, and the whole
    content when the split gives no more than one piece. *)
Definition pages_of (content : pystr) : list pystr :=
  let pages := re_split page_re content in
  if (length pages <=? 1)%nat then [content] else pages.

(** The [for] loop over [enumerate(pages)], from index [page_num] on. *)
Fixpoint extract_pages (page_num : nat) (pages : list pystr) : list dict :=
  match pages with
  | [] => []
  | page_text :: rest =>
      match strip page_text with
      | [] => extract_pages (S page_num) rest
      | _ =>
          let route_number := extract_route_number page_text in
          let route_name := extract_route_name page_text in
          map (fun stop =>
                 <["page_number" := VInt (Z.of_nat page_num + 1)]>
                 (<["route_name" := VStr route_name]>
                 (<["route_number" := VStr route_number]> stop)))
              (parse_table_data page_text)
          ++ extract_pages (S page_num) rest
      end
  end.

(** [extract_routes_from_txt], from the content read. *)
Definition extract_routes_from_txt (content : pystr) : list dict :=
  extract_pages 0 (pages_of content).

End ExtractBusRoutes.

(* ===================================================================== *)
(** * Specification of the matcher                                        *)
(* ===================================================================== *)

Module ReSpec.
Import PyStr Re.

(** [matches r s s']: the pattern [r] can take the state [s] to the state
    [s'], in any of the ways backtracking may explore. *)
Inductive matches : regex -> mstate -> mstate -> Prop :=
| M_Eps s : matches Eps s s
| M_Chr p pos c t gs :
    p c = true ->
    matches (Chr p) (MState pos (c :: t) gs) (MState (S pos) t gs)
| M_Lit l pos rest gs :
    matches (Lit l) (MState pos (l ++ rest) gs)
                    (MState (pos + length l) rest gs)
| M_Seq a b s1 s2 s3 :
    matches a s1 s2 -> matches b s2 s3 -> matches (Seq a b) s1 s3
| M_AltL a b s s' : matches a s s' -> matches (Alt a b) s s'
| M_AltR a b s s' : matches b s s' -> matches (Alt a b) s s'
| M_Rep g min p pos w rest gs :
    forallb p w = true -> min <= length w ->
    matches (Rep g min p) (MState pos (w ++ rest) gs)
                          (MState (pos + length w) rest gs)
| M_OptYes a s s' : matches a s s' -> matches (Opt a) s s'
| M_OptNo a s : matches (Opt a) s s
| M_Group n a s s' :
    matches a s s' ->
    matches (Group n a) s
      (MState (mpos s') (mrest s')
              ((n, take (mpos s' - mpos s) (mrest s)) :: mgroups s'))
| M_Look a s s' :
    matches a s s' ->
    matches (Look a) s (MState (mpos s) (mrest s) (mgroups s'))
| M_Bol rest gs : matches Bol (MState 0 rest gs) (MState 0 rest gs)
| M_Eol s : mrest s = [] \/ mrest s = [NL] -> matches Eol s s.

End ReSpec.

(* ===================================================================== *)
(** * Specification of the line loop                                      *)
(* ===================================================================== *)

Module ParseSpec.
Import PyStr Py Re ParseBusRoutes.

(** The states the loop can reach: the current route, if any, is an object
    of the heap that is not yet in [routes]; no reference is in [routes]
    twice; and every route in [routes] has a stop. *)
Definition wf (st : pstate) : Prop :=
  (forall l, current_route st = Some l ->
             l < length (heap st) /\ l ∉ routes st) /\
  NoDup (routes st) /\
  (forall l, l ∈ routes st ->
             exists r, heap st !! l = Some r /\ stops r <> []).

(** How the loop classifies a line before it looks for a stop row. *)
Inductive kind := Blank | Through | Header | Other.

Definition kind_of (raw : pystr) : kind :=
  let line := strip raw in
  if is_blank line then Blank
  else if is_through line then Through
  else if is_header line then Header
  else Other.

(** A line that the loop reads as a stop row when a route is open. *)
Definition is_stop_row (raw : pystr) : bool :=
  match kind_of raw with
  | Other => bool_decide (is_Some (re_match stop_re (strip raw)))
  | _ => false
  end.

(** The digits a text starts with. *)
Fixpoint leading_digits (s : pystr) : pystr :=
  match s with
  | c :: t => if is_decimal c then c :: leading_digits t else []
  | [] => []
  end.

(** A line whose sequence number, the digits it starts with once trimmed,
    is short enough for [int]. *)
Definition int_accepts_row (raw : pystr) : bool :=
  int_accepts (leading_digits (strip raw)).

(** A stop row whose sequence number [int] accepts. *)
Definition is_valid_row (raw : pystr) : bool :=
  is_stop_row raw && int_accepts_row raw.

(** The annotation a through-marker line leaves: its text without the
    marker token. *)
Definition through_text (raw : pystr) : pystr :=
  strip (replace (strip raw) THROUGH []).

(** The annotation in force after some lines: that of the last
    through-marker line among them, [init] when there is none. *)
Definition pending_through (init : option pystr) (lines : list pystr)
    : option pystr :=
  fold_left (fun acc raw =>
               match kind_of raw with
               | Through => Some (through_text raw)
               | _ => acc
               end) lines init.

(** The number of route-header lines among some lines. *)
Definition is_header_line (raw : pystr) : bool :=
  match kind_of raw with Header => true | _ => false end.

Definition count_headers (lines : list pystr) : nat :=
  length (filter (fun raw => is_header_line raw = true) lines).

End ParseSpec.

(* ===================================================================== *)
(** * Specification of the fare differences                               *)
(* ===================================================================== *)

Module FareSpec.
Import PyStr Py ParseBusRoutes.

(** The fare differences as the specification words them: the first is the
    fare itself, each later one the fare minus the fare just before it.
    [prev] is the fare of the stop before, if there is one. *)
Fixpoint deltas_at (prev : option float) (fares : list float) : list float :=
  match fares with
  | [] => []
  | f :: rest =>
      match prev with
      | None => f
      | Some p => fsub f p
      end :: deltas_at (Some f) rest
  end.

Definition deltas (fares : list float) : list float := deltas_at None fares.

(** The stop dict [d] has the float [f] as its fare from the start. *)
Definition has_fare (d : dict) (f : float) : Prop :=
  d !! "fare_from_start" = Some (VFloat f).

(** A stop dict with its fare difference added. *)
Definition with_previous (d : dict) (delta : float) : dict :=
  <["fare_from_previous" := VFloat delta]> d.

(** The call of [write_to_csv]: the stops of a route are the objects of the
    store, in order, and the dicts returned are read back from it. *)
Definition enhanced_stops (stops : list dict) : result (list dict) :=
  r <- calculate_fare_differences (seq 0 (length stops)) stops ;;
  Ok (omap (fun l => r.2 !! l) r.1).

(** The float stored under a key, when there is one. *)
Definition float_at (k : string) (d : dict) : option float :=
  match d !! k with
  | Some (VFloat x) => Some x
  | _ => None
  end.

(** The string stored under a key, when there is one. *)
Definition str_at (k : string) (d : dict) : option pystr :=
  match d !! k with
  | Some (VStr x) => Some x
  | _ => None
  end.

(** The fare differences that [write_to_csv] gets for the stops of a
    route. *)
Definition previous_fares (stops : list dict)
    : result (list (option float)) :=
  es <- enhanced_stops stops ;; Ok (map (float_at "fare_from_previous") es).

(** [sum(xs)] on floats: the additions are made from left to right,
    starting from 0. *)
Definition float_sum (xs : list float) : float := fold_left fadd xs fzero.

(** A float that is a number (neither an infinity nor a NaN), and its exact
    value. *)
Definition is_finite (x : float) : bool :=
  match x with
  | S754_zero _ | S754_finite _ _ _ => true
  | _ => false
  end.

Definition exact (x : float) : Q := default 0%Q (float_val x).

Definition exact_sum (xs : list float) : Q :=
  fold_right (fun x acc => (exact x + acc)%Q) 0%Q xs.

(** The subtraction [g - f] gives a number and is made without rounding. *)
Definition exact_sub (g f : float) : Prop :=
  is_finite (fsub g f) = true /\ (exact (fsub g f) == exact g - exact f)%Q.

(** Every fare difference of the list is a number and is made without
    rounding. *)
Fixpoint exact_deltas (prev : option float) (fares : list float) : Prop :=
  match fares with
  | [] => True
  | f :: rest =>
      match prev with
      | None => is_finite f = true
      | Some p => exact_sub f p
      end /\ exact_deltas (Some f) rest
  end.

(** The fare of the last stop (0.0 for an empty list). *)
Definition last_fare (fares : list float) : float :=
  default fzero (last fares).

End FareSpec.

(* ===================================================================== *)
(** * Specification of the name cleanup                                   *)
(* ===================================================================== *)

Module CleanSpec.
Import PyStr.

(** The length of the longest prefix of a text made of a class. *)
Fixpoint prefix_len (p : char -> bool) (s : pystr) : nat :=
  match s with
  | c :: t => if p c then S (prefix_len p t) else 0
  | [] => 0
  end.

(** Every run of white space replaced by one space. [in_run] tells that the
    character before was white space. *)
Fixpoint collapse (in_run : bool) (s : pystr) : pystr :=
  match s with
  | [] => []
  | c :: t =>
      if is_space c
      then (if in_run then collapse true t else SPACE :: collapse true t)
      else c :: collapse false t
  end.

(** A text whose white space is single spaces only. [after_space] tells
    that the character before was a space. *)
Fixpoint tidy (after_space : bool) (s : pystr) : bool :=
  match s with
  | [] => true
  | c :: t =>
      if is_space c
      then (c =? SPACE)%N && negb after_space && tidy true t
      else tidy false t
  end.

(** The text [p] occurs in the text [s]. *)
Definition occurs (p s : pystr) : Prop := exists l r, s = l ++ p ++ r.

(** Some non-empty end of [a] is a beginning of [b]. *)
Fixpoint has_border (a b : pystr) : bool :=
  match a with
  | [] => false
  | _ :: t => startswith b a || has_border t b
  end.

(** A key [p] and a replacement value [v] that cannot meet: neither occurs
    in the other, and no end of one is a beginning of the other. Putting
    [v] into a text then creates no occurrence of [p]. *)
Definition overlap_free (p v : pystr) : bool :=
  negb (contains p v) && negb (contains v p)
  && negb (has_border v p) && negb (has_border p v).

(** Pieces of text joined by a separator. *)
Fixpoint join (sep : pystr) (gs : list pystr) : pystr :=
  match gs with
  | [] => []
  | [g] => g
  | g :: r => g ++ sep ++ join sep r
  end.

(** No key of a correction table occurs in a text. *)
Definition settled (table : list (pystr * pystr)) (s : pystr) : Prop :=
  Forall (fun kv => contains (fst kv) s = false) table.

End CleanSpec.

(* ===================================================================== *)
(** * Sample inputs                                                       *)
(* ===================================================================== *)

Module Samples.
Import PyStr.

(** One route header followed by two stop rows. *)
Definition one_route : list pystr :=
  [ u8 "මාර්ග අංක : 001 කොළඹ - මහනුවර"; asc "0 0.00 Fort";
    asc "1 27.50 Kandy" ].

(** Two stop rows that come before any route header. *)
Definition early_rows : list pystr :=
  [ asc "1 10.00 Pettah"; asc "2 12.50 Maradana" ].

(** A banner, and two routes under it. *)
Definition banner : pystr := u8 "මහනුවර හරහා".
Definition header_a : pystr := u8 "මාර්ග අංක : 001 කොළඹ - මහනුවර".
Definition rows_a : list pystr := [asc "0 0.00 Fort"; asc "1 27.50 Kandy"].
Definition header_b : pystr := u8 "මාර්ග අංක : 002 කොළඹ - මාතලේ".
Definition rows_b : list pystr := [asc "0 0.00 Fort"; asc "1 35.00 Matale"].

(** A route whose two fares are 0.20 and 0.90. *)
Definition dime_route : list pystr :=
  [ u8 "මාර්ග අංක : 138 කොළඹ - හෝමාගම"; asc "1 0.20 Pettah";
    asc "2 0.90 Maradana" ].

(** The binary64 numbers nearest to 0.2, 0.7 and 0.9, and the one just
    below 0.9. *)
Definition f0_2 : spec_float := S754_finite false 7205759403792794 (-55).
Definition f0_7 : spec_float := S754_finite false 6305039478318694 (-53).
Definition f0_9 : spec_float := S754_finite false 8106479329266893 (-53).
Definition f0_9_below : spec_float :=
  S754_finite false 8106479329266892 (-53).

(** A route whose fares are 27.00, 35.00 and 42.50, all of them and their
    differences exact in binary64. *)
Definition exact_fares : list spec_float :=
  [ S754_finite false 7599824371187712 (-48);
    S754_finite false 4925812092436480 (-47);
    S754_finite false 5981343255101440 (-47) ].

(** A page whose rows carry bracketed fares, a page whose rows carry no
    fare, and a document made of both with an empty page in between. *)
Definition page_a : pystr :=
  u8 "මාර්ග අංක : 001" ++ [NL] ++ u8 "කොළඹ - මහනුවර" ++ [NL]
  ++ asc "0 0.00] Fort" ++ [NL] ++ asc "1 27.50] Kandy".
Definition page_b : pystr :=
  u8 "මාර්ග අංක : 002" ++ [NL] ++ u8 "කොළඹ - ගාල්ල" ++ [NL]
  ++ asc "0 Fort" ++ [NL] ++ asc "1 Galle".
Definition document : pystr :=
  asc "=== Page 1 ===" ++ [NL] ++ page_a ++ [NL]
  ++ asc "=== Page 2 ===" ++ [NL; SPACE; NL]
  ++ asc "=== Page 3 ===" ++ [NL] ++ page_b.

(** A name with two known misreadings and doubled blanks. *)
Definition noisy_name : pystr := u8 "හංදිය   Bae ".

(** One header followed by three stop rows, and a header with no stop row
    followed by one with a stop row. *)
Definition three_stops : list pystr :=
  [ u8 "මාර්ග අංක : 001 කොළඹ - මහනුවර"; asc "0 0.00 Fort";
    asc "1 27.00 Kadawatha"; asc "2 35.50 Kegalle" ].
Definition empty_then_full : list pystr :=
  [ u8 "මාර්ග අංක : 001 කොළඹ - මහනුවර"; u8 "මාර්ග අංක : 002 කොළඹ - ගාල්ල";
    asc "0 0.00 Fort" ].

(** A stop row whose sequence number has 4301 digits, and a route that has
    it as its second row. *)
Definition long_row : pystr := replicate 4301 0x31%N ++ asc " 1.00 Kandy".
Definition long_sequence : list pystr :=
  [ u8 "මාර්ග අංක : 001 කොළඹ - මහනුවර"; asc "0 0.00 Fort"; long_row ].

End Samples.

(* ===================================================================== *)
(** * More of Python's built-ins                                          *)
(* ===================================================================== *)

Module PyLib.
Import PyStr Py.

(** The decimal digits of a natural number, most significant first. *)
Fixpoint uint_digits (u : Decimal.uint) : pystr :=
  match u with
  | Decimal.Nil => []
  | Decimal.D0 r => 0x30%N :: uint_digits r
  | Decimal.D1 r => 0x31%N :: uint_digits r
  | Decimal.D2 r => 0x32%N :: uint_digits r
  | Decimal.D3 r => 0x33%N :: uint_digits r
  | Decimal.D4 r => 0x34%N :: uint_digits r
  | Decimal.D5 r => 0x35%N :: uint_digits r
  | Decimal.D6 r => 0x36%N :: uint_digits r
  | Decimal.D7 r => 0x37%N :: uint_digits r
  | Decimal.D8 r => 0x38%N :: uint_digits r
  | Decimal.D9 r => 0x39%N :: uint_digits r
  end.

(** The decimal text of an integer: a minus sign for a negative number,
    then the decimal digits without leading zero. *)
Definition str_of_int (n : Z) : pystr :=
  match n with
  | Z0 => [0x30%N]
  | Zpos p => uint_digits (Pos.to_uint p)
  | Zneg p => 0x2D%N :: uint_digits (Pos.to_uint p)
  end.

(** Zeros put in front of a run of digits to reach a width. *)
Definition zfill (width : nat) (ds : pystr) : pystr :=
  replicate (width - length ds) 0x30%N ++ ds.

(** [format(n, '03d')] for an [int]: the sign comes first and counts in the
    width. *)
Definition format_03d_int (n : Z) : pystr :=
  match n with
  | Zneg p => 0x2D%N :: zfill 2 (uint_digits (Pos.to_uint p))
  | _ => zfill 3 (str_of_int n)
  end.

(** [f"{v:03d}"]: an [int] of more than 4300 digits is refused as it is
    by [str], and the format code 'd' is unknown to [float] and [str]. *)
Definition format_03d (v : value) : result pystr :=
  match v with
  | VInt n =>
      if int_accepts (str_of_int (Z.abs n)) then Ok (format_03d_int n)
      else Raise ValueError
  | _ => Raise ValueError
  end.

(** The integer nearest to [num / den], the even one of the two when they
    are as near ([0 <= num] and [0 < den]). *)
Definition round_half_even (num den : Z) : Z :=
  let q := (num / den)%Z in
  let r := (num mod den)%Z in
  if (2 * r <? den)%Z then q
  else if (den <? 2 * r)%Z then (q + 1)%Z
  else if Z.even q then q else (q + 1)%Z.

(** The number of hundredths nearest to [m * 2^e]. *)
Definition hundredths (m : positive) (e : Z) : Z :=
  if (0 <=? e)%Z then (100 * Z.pos m * 2 ^ e)%Z
  else round_half_even (100 * Z.pos m) (2 ^ (- e)).

(** A number of hundredths in fixed notation with two decimals. *)
Definition fixed2 (negative : bool) (n : Z) : pystr :=
  (if negative then [0x2D%N] else [])
  ++ str_of_int (n / 100) ++ [0x2E%N] ++ zfill 2 (str_of_int (n mod 100)).

(** [format(x, '.2f')] for a [float]: the decimal number with two decimals
    nearest to the exact value of [x] (ties to even), with the sign of [x]
    even when all its digits are zero. *)
Definition format_2f_float (x : float) : pystr :=
  match x with
  | S754_nan => asc "nan"
  | S754_infinity s => if s then asc "-inf" else asc "inf"
  | S754_zero s => fixed2 s 0
  | S754_finite s m e => fixed2 s (hundredths m e)
  end.

(** [f"{v:.2f}"]: an [int] is converted to [float] first, and the format
    code 'f' is unknown to [str]. *)
Definition format_2f (v : value) : result pystr :=
  match v with
  | VFloat x => Ok (format_2f_float x)
  | VInt n => x <- float_of_int n ;; Ok (format_2f_float x)
  | VStr _ => Raise ValueError
  end.

(** [s.split(sep)] for a separator of any length: the pieces between the
    occurrences of [sep], which are found from left to right and do not
    overlap. [skip] counts the characters of the occurrence just found that
    are still to be passed over, [cur] is the piece being read, reversed. *)
Fixpoint split_from (sep s : pystr) (skip : nat) (cur : pystr)
    : list pystr :=
  match s with
  | [] => [rev cur]
  | c :: t =>
      match skip with
      | S k => split_from sep t k cur
      | O =>
          if startswith s sep
          then rev cur :: split_from sep t (length sep - 1) []
          else split_from sep t 0 (c :: cur)
      end
  end.

(** An empty separator is a ValueError. *)
Definition split_str (s sep : pystr) : result (list pystr) :=
  match sep with
  | [] => Raise ValueError
  | _ => Ok (split_from sep s 0 [])
  end.

(** [sum] of a sequence of [int]s. *)
Definition sum_nat (xs : list nat) : nat := fold_left Nat.add xs 0%nat.

(** A loop that builds a list, one element per turn, and that the first
    exception ends. *)
Fixpoint traverse {A B : Type} (f : A -> result B) (l : list A)
    : result (list B) :=
  match l with
  | [] => Ok []
  | a :: r => b <- f a ;; bs <- traverse f r ;; Ok (b :: bs)
  end.

End PyLib.

(* ===================================================================== *)
(** * into-csv/parse_bus_routes.py: the CSV file                          *)
(* ===================================================================== *)

Module BusRouteParser.
Import PyStr Py PyLib ParseBusRoutes FareSpec.

(** The columns of the CSV file, which [writeheader] writes first. *)
Definition fieldnames : list string :=
  [ "route_number"; "route_name"; "route_through"; "stop_sequence";
    "stop_name"; "fare_from_start"; "fare_from_previous" ].

(** The dict [row] that [write_to_csv] hands to the CSV writer for one
    stop; its keys are the columns. *)
Record Row := mkRow {
  row_route_number : pystr;
  row_route_name : pystr;
  row_route_through : pystr;
  row_stop_sequence : value;
  row_stop_name : value;
  row_fare_from_start : pystr;
  row_fare_from_previous : pystr
}.

(** The row of a stop, the two fares written with two decimals. *)
Definition row_of (route : Route) (stop : dict) : result Row :=
  stop_sequence <- getitem stop "stop_sequence" ;;
  stop_name <- getitem stop "stop_name" ;;
  fare <- getitem stop "fare_from_start" ;;
  fare_text <- format_2f fare ;;
  previous <- getitem stop "fare_from_previous" ;;
  previous_text <- format_2f previous ;;
  Ok (mkRow (route_number route) (route_name route) (route_through route)
            stop_sequence stop_name fare_text previous_text).

(** [writer.writerow(row)] turns a field that is no [str] into text as
    [str] does, which for an [int] of more than 4300 digits is a
    ValueError; the two fields that are no text of the loop's own making
    are the sequence number and the name of the stop. *)
Definition field_text (v : value) : result unit :=
  match v with
  | VInt n =>
      if int_accepts (str_of_int (Z.abs n)) then Ok tt else Raise ValueError
  | _ => Ok tt
  end.

Definition writerow (row : Row) : result unit :=
  _ <- field_text (row_stop_sequence row) ;;
  field_text (row_stop_name row).

(** The inner [for] loop: the rows written, and the exception that ended
    the loop if there was one. *)
Fixpoint write_stops (route : Route) (enhanced : list dict)
    : list Row * result unit :=
  match enhanced with
  | [] => ([], Ok tt)
  | stop :: rest =>
      match (row <- row_of route stop ;; _ <- writerow row ;; Ok row) with
      | Raise e => ([], Raise e)
      | Ok row =>
          let '(rows, r) := write_stops route rest in (row :: rows, r)
      end
  end.

(** The outer [for] loop. *)
Fixpoint write_routes (routes : list Route) : list Row * result unit :=
  match routes with
  | [] => ([], Ok tt)
  | route :: rest =>
      match enhanced_stops (stops route) with
      | Raise e => ([], Raise e)
      | Ok enhanced =>
          match write_stops route enhanced with
          | (rows, Raise e) => (rows, Raise e)
          | (rows, Ok _) =>
              let '(rows', r) := write_routes rest in (rows ++ rows', r)
          end
      end
  end.

(** [write_to_csv], once the file is open: the rows written after the
    header, and the value returned, False when anything was raised. *)
Definition write_to_csv (routes : list Route) : list Row * bool :=
  let '(rows, r) := write_routes routes in
  (rows, match r with Ok _ => true | Raise _ => false end).

End BusRouteParser.

(* ===================================================================== *)
(** * process_routes.py: the CSV files                                    *)
(* ===================================================================== *)

Module ProcessRoutesCsv.
Import PyStr Py Re PyLib ProcessRoutes.

(** The code points for which [str.isalnum] holds, as the ranges of the
    Unicode character database, version 14.0. *)
Definition alnum_ranges : list (N * N) :=
  [ (0x30, 0x39); (0x41, 0x5a); (0x61, 0x7a); (0xaa, 0xaa); (0xb2, 0xb3);
    (0xb5, 0xb5); (0xb9, 0xba); (0xbc, 0xbe); (0xc0, 0xd6); (0xd8, 0xf6);
    (0xf8, 0x2c1); (0x2c6, 0x2d1); (0x2e0, 0x2e4); (0x2ec, 0x2ec);
    (0x2ee, 0x2ee); (0x370, 0x374); (0x376, 0x377); (0x37a, 0x37d);
    (0x37f, 0x37f); (0x386, 0x386); (0x388, 0x38a); (0x38c, 0x38c);
    (0x38e, 0x3a1); (0x3a3, 0x3f5); (0x3f7, 0x481); (0x48a, 0x52f);
    (0x531, 0x556); (0x559, 0x559); (0x560, 0x588); (0x5d0, 0x5ea);
    (0x5ef, 0x5f2); (0x620, 0x64a); (0x660, 0x669); (0x66e, 0x66f);
    (0x671, 0x6d3); (0x6d5, 0x6d5); (0x6e5, 0x6e6); (0x6ee, 0x6fc);
    (0x6ff, 0x6ff); (0x710, 0x710); (0x712, 0x72f); (0x74d, 0x7a5);
    (0x7b1, 0x7b1); (0x7c0, 0x7ea); (0x7f4, 0x7f5); (0x7fa, 0x7fa);
    (0x800, 0x815); (0x81a, 0x81a); (0x824, 0x824); (0x828, 0x828);
    (0x840, 0x858); (0x860, 0x86a); (0x870, 0x887); (0x889, 0x88e);
    (0x8a0, 0x8c9); (0x904, 0x939); (0x93d, 0x93d); (0x950, 0x950);
    (0x958, 0x961); (0x966, 0x96f); (0x971, 0x980); (0x985, 0x98c);
    (0x98f, 0x990); (0x993, 0x9a8); (0x9aa, 0x9b0); (0x9b2, 0x9b2);
    (0x9b6, 0x9b9); (0x9bd, 0x9bd); (0x9ce, 0x9ce); (0x9dc, 0x9dd);
    (0x9df, 0x9e1); (0x9e6, 0x9f1); (0x9f4, 0x9f9); (0x9fc, 0x9fc);
    (0xa05, 0xa0a); (0xa0f, 0xa10); (0xa13, 0xa28); (0xa2a, 0xa30);
    (0xa32, 0xa33); (0xa35, 0xa36); (0xa38, 0xa39); (0xa59, 0xa5c);
    (0xa5e, 0xa5e); (0xa66, 0xa6f); (0xa72, 0xa74); (0xa85, 0xa8d);
    (0xa8f, 0xa91); (0xa93, 0xaa8); (0xaaa, 0xab0); (0xab2, 0xab3);
    (0xab5, 0xab9); (0xabd, 0xabd); (0xad0, 0xad0); (0xae0, 0xae1);
    (0xae6, 0xaef); (0xaf9, 0xaf9); (0xb05, 0xb0c); (0xb0f, 0xb10);
    (0xb13, 0xb28); (0xb2a, 0xb30); (0xb32, 0xb33); (0xb35, 0xb39);
    (0xb3d, 0xb3d); (0xb5c, 0xb5d); (0xb5f, 0xb61); (0xb66, 0xb6f);
    (0xb71, 0xb77); (0xb83, 0xb83); (0xb85, 0xb8a); (0xb8e, 0xb90);
    (0xb92, 0xb95); (0xb99, 0xb9a); (0xb9c, 0xb9c); (0xb9e, 0xb9f);
    (0xba3, 0xba4); (0xba8, 0xbaa); (0xbae, 0xbb9); (0xbd0, 0xbd0);
    (0xbe6, 0xbf2); (0xc05, 0xc0c); (0xc0e, 0xc10); (0xc12, 0xc28);
    (0xc2a, 0xc39); (0xc3d, 0xc3d); (0xc58, 0xc5a); (0xc5d, 0xc5d);
    (0xc60, 0xc61); (0xc66, 0xc6f); (0xc78, 0xc7e); (0xc80, 0xc80);
    (0xc85, 0xc8c); (0xc8e, 0xc90); (0xc92, 0xca8); (0xcaa, 0xcb3);
    (0xcb5, 0xcb9); (0xcbd, 0xcbd); (0xcdd, 0xcde); (0xce0, 0xce1);
    (0xce6, 0xcef); (0xcf1, 0xcf2); (0xd04, 0xd0c); (0xd0e, 0xd10);
    (0xd12, 0xd3a); (0xd3d, 0xd3d); (0xd4e, 0xd4e); (0xd54, 0xd56);
    (0xd58, 0xd61); (0xd66, 0xd78); (0xd7a, 0xd7f); (0xd85, 0xd96);
    (0xd9a, 0xdb1); (0xdb3, 0xdbb); (0xdbd, 0xdbd); (0xdc0, 0xdc6);
    (0xde6, 0xdef); (0xe01, 0xe30); (0xe32, 0xe33); (0xe40, 0xe46);
    (0xe50, 0xe59); (0xe81, 0xe82); (0xe84, 0xe84); (0xe86, 0xe8a);
    (0xe8c, 0xea3); (0xea5, 0xea5); (0xea7, 0xeb0); (0xeb2, 0xeb3);
    (0xebd, 0xebd); (0xec0, 0xec4); (0xec6, 0xec6); (0xed0, 0xed9);
    (0xedc, 0xedf); (0xf00, 0xf00); (0xf20, 0xf33); (0xf40, 0xf47);
    (0xf49, 0xf6c); (0xf88, 0xf8c); (0x1000, 0x102a); (0x103f, 0x1049);
    (0x1050, 0x1055); (0x105a, 0x105d); (0x1061, 0x1061); (0x1065, 0x1066);
    (0x106e, 0x1070); (0x1075, 0x1081); (0x108e, 0x108e); (0x1090, 0x1099);
    (0x10a0, 0x10c5); (0x10c7, 0x10c7); (0x10cd, 0x10cd); (0x10d0, 0x10fa);
    (0x10fc, 0x1248); (0x124a, 0x124d); (0x1250, 0x1256); (0x1258, 0x1258);
    (0x125a, 0x125d); (0x1260, 0x1288); (0x128a, 0x128d); (0x1290, 0x12b0);
    (0x12b2, 0x12b5); (0x12b8, 0x12be); (0x12c0, 0x12c0); (0x12c2, 0x12c5);
    (0x12c8, 0x12d6); (0x12d8, 0x1310); (0x1312, 0x1315); (0x1318, 0x135a);
    (0x1369, 0x137c); (0x1380, 0x138f); (0x13a0, 0x13f5); (0x13f8, 0x13fd);
    (0x1401, 0x166c); (0x166f, 0x167f); (0x1681, 0x169a); (0x16a0, 0x16ea);
    (0x16ee, 0x16f8); (0x1700, 0x1711); (0x171f, 0x1731); (0x1740, 0x1751);
    (0x1760, 0x176c); (0x176e, 0x1770); (0x1780, 0x17b3); (0x17d7, 0x17d7);
    (0x17dc, 0x17dc); (0x17e0, 0x17e9); (0x17f0, 0x17f9); (0x1810, 0x1819);
    (0x1820, 0x1878); (0x1880, 0x1884); (0x1887, 0x18a8); (0x18aa, 0x18aa);
    (0x18b0, 0x18f5); (0x1900, 0x191e); (0x1946, 0x196d); (0x1970, 0x1974);
    (0x1980, 0x19ab); (0x19b0, 0x19c9); (0x19d0, 0x19da); (0x1a00, 0x1a16);
    (0x1a20, 0x1a54); (0x1a80, 0x1a89); (0x1a90, 0x1a99); (0x1aa7, 0x1aa7);
    (0x1b05, 0x1b33); (0x1b45, 0x1b4c); (0x1b50, 0x1b59); (0x1b83, 0x1ba0);
    (0x1bae, 0x1be5); (0x1c00, 0x1c23); (0x1c40, 0x1c49); (0x1c4d, 0x1c7d);
    (0x1c80, 0x1c88); (0x1c90, 0x1cba); (0x1cbd, 0x1cbf); (0x1ce9, 0x1cec);
    (0x1cee, 0x1cf3); (0x1cf5, 0x1cf6); (0x1cfa, 0x1cfa); (0x1d00, 0x1dbf);
    (0x1e00, 0x1f15); (0x1f18, 0x1f1d); (0x1f20, 0x1f45); (0x1f48, 0x1f4d);
    (0x1f50, 0x1f57); (0x1f59, 0x1f59); (0x1f5b, 0x1f5b); (0x1f5d, 0x1f5d);
    (0x1f5f, 0x1f7d); (0x1f80, 0x1fb4); (0x1fb6, 0x1fbc); (0x1fbe, 0x1fbe);
    (0x1fc2, 0x1fc4); (0x1fc6, 0x1fcc); (0x1fd0, 0x1fd3); (0x1fd6, 0x1fdb);
    (0x1fe0, 0x1fec); (0x1ff2, 0x1ff4); (0x1ff6, 0x1ffc); (0x2070, 0x2071);
    (0x2074, 0x2079); (0x207f, 0x2089); (0x2090, 0x209c); (0x2102, 0x2102);
    (0x2107, 0x2107); (0x210a, 0x2113); (0x2115, 0x2115); (0x2119, 0x211d);
    (0x2124, 0x2124); (0x2126, 0x2126); (0x2128, 0x2128); (0x212a, 0x212d);
    (0x212f, 0x2139); (0x213c, 0x213f); (0x2145, 0x2149); (0x214e, 0x214e);
    (0x2150, 0x2189); (0x2460, 0x249b); (0x24ea, 0x24ff); (0x2776, 0x2793);
    (0x2c00, 0x2ce4); (0x2ceb, 0x2cee); (0x2cf2, 0x2cf3); (0x2cfd, 0x2cfd);
    (0x2d00, 0x2d25); (0x2d27, 0x2d27); (0x2d2d, 0x2d2d); (0x2d30, 0x2d67);
    (0x2d6f, 0x2d6f); (0x2d80, 0x2d96); (0x2da0, 0x2da6); (0x2da8, 0x2dae);
    (0x2db0, 0x2db6); (0x2db8, 0x2dbe); (0x2dc0, 0x2dc6); (0x2dc8, 0x2dce);
    (0x2dd0, 0x2dd6); (0x2dd8, 0x2dde); (0x2e2f, 0x2e2f); (0x3005, 0x3007);
    (0x3021, 0x3029); (0x3031, 0x3035); (0x3038, 0x303c); (0x3041, 0x3096);
    (0x309d, 0x309f); (0x30a1, 0x30fa); (0x30fc, 0x30ff); (0x3105, 0x312f);
    (0x3131, 0x318e); (0x3192, 0x3195); (0x31a0, 0x31bf); (0x31f0, 0x31ff);
    (0x3220, 0x3229); (0x3248, 0x324f); (0x3251, 0x325f); (0x3280, 0x3289);
    (0x32b1, 0x32bf); (0x3400, 0x4dbf); (0x4e00, 0xa48c); (0xa4d0, 0xa4fd);
    (0xa500, 0xa60c); (0xa610, 0xa62b); (0xa640, 0xa66e); (0xa67f, 0xa69d);
    (0xa6a0, 0xa6ef); (0xa717, 0xa71f); (0xa722, 0xa788); (0xa78b, 0xa7ca);
    (0xa7d0, 0xa7d1); (0xa7d3, 0xa7d3); (0xa7d5, 0xa7d9); (0xa7f2, 0xa801);
    (0xa803, 0xa805); (0xa807, 0xa80a); (0xa80c, 0xa822); (0xa830, 0xa835);
    (0xa840, 0xa873); (0xa882, 0xa8b3); (0xa8d0, 0xa8d9); (0xa8f2, 0xa8f7);
    (0xa8fb, 0xa8fb); (0xa8fd, 0xa8fe); (0xa900, 0xa925); (0xa930, 0xa946);
    (0xa960, 0xa97c); (0xa984, 0xa9b2); (0xa9cf, 0xa9d9); (0xa9e0, 0xa9e4);
    (0xa9e6, 0xa9fe); (0xaa00, 0xaa28); (0xaa40, 0xaa42); (0xaa44, 0xaa4b);
    (0xaa50, 0xaa59); (0xaa60, 0xaa76); (0xaa7a, 0xaa7a); (0xaa7e, 0xaaaf);
    (0xaab1, 0xaab1); (0xaab5, 0xaab6); (0xaab9, 0xaabd); (0xaac0, 0xaac0);
    (0xaac2, 0xaac2); (0xaadb, 0xaadd); (0xaae0, 0xaaea); (0xaaf2, 0xaaf4);
    (0xab01, 0xab06); (0xab09, 0xab0e); (0xab11, 0xab16); (0xab20, 0xab26);
    (0xab28, 0xab2e); (0xab30, 0xab5a); (0xab5c, 0xab69); (0xab70, 0xabe2);
    (0xabf0, 0xabf9); (0xac00, 0xd7a3); (0xd7b0, 0xd7c6); (0xd7cb, 0xd7fb);
    (0xf900, 0xfa6d); (0xfa70, 0xfad9); (0xfb00, 0xfb06); (0xfb13, 0xfb17);
    (0xfb1d, 0xfb1d); (0xfb1f, 0xfb28); (0xfb2a, 0xfb36); (0xfb38, 0xfb3c);
    (0xfb3e, 0xfb3e); (0xfb40, 0xfb41); (0xfb43, 0xfb44); (0xfb46, 0xfbb1);
    (0xfbd3, 0xfd3d); (0xfd50, 0xfd8f); (0xfd92, 0xfdc7); (0xfdf0, 0xfdfb);
    (0xfe70, 0xfe74); (0xfe76, 0xfefc); (0xff10, 0xff19); (0xff21, 0xff3a);
    (0xff41, 0xff5a); (0xff66, 0xffbe); (0xffc2, 0xffc7); (0xffca, 0xffcf);
    (0xffd2, 0xffd7); (0xffda, 0xffdc); (0x10000, 0x1000b);
    (0x1000d, 0x10026); (0x10028, 0x1003a); (0x1003c, 0x1003d);
    (0x1003f, 0x1004d); (0x10050, 0x1005d); (0x10080, 0x100fa);
    (0x10107, 0x10133); (0x10140, 0x10178); (0x1018a, 0x1018b);
    (0x10280, 0x1029c); (0x102a0, 0x102d0); (0x102e1, 0x102fb);
    (0x10300, 0x10323); (0x1032d, 0x1034a); (0x10350, 0x10375);
    (0x10380, 0x1039d); (0x103a0, 0x103c3); (0x103c8, 0x103cf);
    (0x103d1, 0x103d5); (0x10400, 0x1049d); (0x104a0, 0x104a9);
    (0x104b0, 0x104d3); (0x104d8, 0x104fb); (0x10500, 0x10527);
    (0x10530, 0x10563); (0x10570, 0x1057a); (0x1057c, 0x1058a);
    (0x1058c, 0x10592); (0x10594, 0x10595); (0x10597, 0x105a1);
    (0x105a3, 0x105b1); (0x105b3, 0x105b9); (0x105bb, 0x105bc);
    (0x10600, 0x10736); (0x10740, 0x10755); (0x10760, 0x10767);
    (0x10780, 0x10785); (0x10787, 0x107b0); (0x107b2, 0x107ba);
    (0x10800, 0x10805); (0x10808, 0x10808); (0x1080a, 0x10835);
    (0x10837, 0x10838); (0x1083c, 0x1083c); (0x1083f, 0x10855);
    (0x10858, 0x10876); (0x10879, 0x1089e); (0x108a7, 0x108af);
    (0x108e0, 0x108f2); (0x108f4, 0x108f5); (0x108fb, 0x1091b);
    (0x10920, 0x10939); (0x10980, 0x109b7); (0x109bc, 0x109cf);
    (0x109d2, 0x10a00); (0x10a10, 0x10a13); (0x10a15, 0x10a17);
    (0x10a19, 0x10a35); (0x10a40, 0x10a48); (0x10a60, 0x10a7e);
    (0x10a80, 0x10a9f); (0x10ac0, 0x10ac7); (0x10ac9, 0x10ae4);
    (0x10aeb, 0x10aef); (0x10b00, 0x10b35); (0x10b40, 0x10b55);
    (0x10b58, 0x10b72); (0x10b78, 0x10b91); (0x10ba9, 0x10baf);
    (0x10c00, 0x10c48); (0x10c80, 0x10cb2); (0x10cc0, 0x10cf2);
    (0x10cfa, 0x10d23); (0x10d30, 0x10d39); (0x10e60, 0x10e7e);
    (0x10e80, 0x10ea9); (0x10eb0, 0x10eb1); (0x10f00, 0x10f27);
    (0x10f30, 0x10f45); (0x10f51, 0x10f54); (0x10f70, 0x10f81);
    (0x10fb0, 0x10fcb); (0x10fe0, 0x10ff6); (0x11003, 0x11037);
    (0x11052, 0x1106f); (0x11071, 0x11072); (0x11075, 0x11075);
    (0x11083, 0x110af); (0x110d0, 0x110e8); (0x110f0, 0x110f9);
    (0x11103, 0x11126); (0x11136, 0x1113f); (0x11144, 0x11144);
    (0x11147, 0x11147); (0x11150, 0x11172); (0x11176, 0x11176);
    (0x11183, 0x111b2); (0x111c1, 0x111c4); (0x111d0, 0x111da);
    (0x111dc, 0x111dc); (0x111e1, 0x111f4); (0x11200, 0x11211);
    (0x11213, 0x1122b); (0x11280, 0x11286); (0x11288, 0x11288);
    (0x1128a, 0x1128d); (0x1128f, 0x1129d); (0x1129f, 0x112a8);
    (0x112b0, 0x112de); (0x112f0, 0x112f9); (0x11305, 0x1130c);
    (0x1130f, 0x11310); (0x11313, 0x11328); (0x1132a, 0x11330);
    (0x11332, 0x11333); (0x11335, 0x11339); (0x1133d, 0x1133d);
    (0x11350, 0x11350); (0x1135d, 0x11361); (0x11400, 0x11434);
    (0x11447, 0x1144a); (0x11450, 0x11459); (0x1145f, 0x11461);
    (0x11480, 0x114af); (0x114c4, 0x114c5); (0x114c7, 0x114c7);
    (0x114d0, 0x114d9); (0x11580, 0x115ae); (0x115d8, 0x115db);
    (0x11600, 0x1162f); (0x11644, 0x11644); (0x11650, 0x11659);
    (0x11680, 0x116aa); (0x116b8, 0x116b8); (0x116c0, 0x116c9);
    (0x11700, 0x1171a); (0x11730, 0x1173b); (0x11740, 0x11746);
    (0x11800, 0x1182b); (0x118a0, 0x118f2); (0x118ff, 0x11906);
    (0x11909, 0x11909); (0x1190c, 0x11913); (0x11915, 0x11916);
    (0x11918, 0x1192f); (0x1193f, 0x1193f); (0x11941, 0x11941);
    (0x11950, 0x11959); (0x119a0, 0x119a7); (0x119aa, 0x119d0);
    (0x119e1, 0x119e1); (0x119e3, 0x119e3); (0x11a00, 0x11a00);
    (0x11a0b, 0x11a32); (0x11a3a, 0x11a3a); (0x11a50, 0x11a50);
    (0x11a5c, 0x11a89); (0x11a9d, 0x11a9d); (0x11ab0, 0x11af8);
    (0x11c00, 0x11c08); (0x11c0a, 0x11c2e); (0x11c40, 0x11c40);
    (0x11c50, 0x11c6c); (0x11c72, 0x11c8f); (0x11d00, 0x11d06);
    (0x11d08, 0x11d09); (0x11d0b, 0x11d30); (0x11d46, 0x11d46);
    (0x11d50, 0x11d59); (0x11d60, 0x11d65); (0x11d67, 0x11d68);
    (0x11d6a, 0x11d89); (0x11d98, 0x11d98); (0x11da0, 0x11da9);
    (0x11ee0, 0x11ef2); (0x11fb0, 0x11fb0); (0x11fc0, 0x11fd4);
    (0x12000, 0x12399); (0x12400, 0x1246e); (0x12480, 0x12543);
    (0x12f90, 0x12ff0); (0x13000, 0x1342e); (0x14400, 0x14646);
    (0x16800, 0x16a38); (0x16a40, 0x16a5e); (0x16a60, 0x16a69);
    (0x16a70, 0x16abe); (0x16ac0, 0x16ac9); (0x16ad0, 0x16aed);
    (0x16b00, 0x16b2f); (0x16b40, 0x16b43); (0x16b50, 0x16b59);
    (0x16b5b, 0x16b61); (0x16b63, 0x16b77); (0x16b7d, 0x16b8f);
    (0x16e40, 0x16e96); (0x16f00, 0x16f4a); (0x16f50, 0x16f50);
    (0x16f93, 0x16f9f); (0x16fe0, 0x16fe1); (0x16fe3, 0x16fe3);
    (0x17000, 0x187f7); (0x18800, 0x18cd5); (0x18d00, 0x18d08);
    (0x1aff0, 0x1aff3); (0x1aff5, 0x1affb); (0x1affd, 0x1affe);
    (0x1b000, 0x1b122); (0x1b150, 0x1b152); (0x1b164, 0x1b167);
    (0x1b170, 0x1b2fb); (0x1bc00, 0x1bc6a); (0x1bc70, 0x1bc7c);
    (0x1bc80, 0x1bc88); (0x1bc90, 0x1bc99); (0x1d2e0, 0x1d2f3);
    (0x1d360, 0x1d378); (0x1d400, 0x1d454); (0x1d456, 0x1d49c);
    (0x1d49e, 0x1d49f); (0x1d4a2, 0x1d4a2); (0x1d4a5, 0x1d4a6);
    (0x1d4a9, 0x1d4ac); (0x1d4ae, 0x1d4b9); (0x1d4bb, 0x1d4bb);
    (0x1d4bd, 0x1d4c3); (0x1d4c5, 0x1d505); (0x1d507, 0x1d50a);
    (0x1d50d, 0x1d514); (0x1d516, 0x1d51c); (0x1d51e, 0x1d539);
    (0x1d53b, 0x1d53e); (0x1d540, 0x1d544); (0x1d546, 0x1d546);
    (0x1d54a, 0x1d550); (0x1d552, 0x1d6a5); (0x1d6a8, 0x1d6c0);
    (0x1d6c2, 0x1d6da); (0x1d6dc, 0x1d6fa); (0x1d6fc, 0x1d714);
    (0x1d716, 0x1d734); (0x1d736, 0x1d74e); (0x1d750, 0x1d76e);
    (0x1d770, 0x1d788); (0x1d78a, 0x1d7a8); (0x1d7aa, 0x1d7c2);
    (0x1d7c4, 0x1d7cb); (0x1d7ce, 0x1d7ff); (0x1df00, 0x1df1e);
    (0x1e100, 0x1e12c); (0x1e137, 0x1e13d); (0x1e140, 0x1e149);
    (0x1e14e, 0x1e14e); (0x1e290, 0x1e2ad); (0x1e2c0, 0x1e2eb);
    (0x1e2f0, 0x1e2f9); (0x1e7e0, 0x1e7e6); (0x1e7e8, 0x1e7eb);
    (0x1e7ed, 0x1e7ee); (0x1e7f0, 0x1e7fe); (0x1e800, 0x1e8c4);
    (0x1e8c7, 0x1e8cf); (0x1e900, 0x1e943); (0x1e94b, 0x1e94b);
    (0x1e950, 0x1e959); (0x1ec71, 0x1ecab); (0x1ecad, 0x1ecaf);
    (0x1ecb1, 0x1ecb4); (0x1ed01, 0x1ed2d); (0x1ed2f, 0x1ed3d);
    (0x1ee00, 0x1ee03); (0x1ee05, 0x1ee1f); (0x1ee21, 0x1ee22);
    (0x1ee24, 0x1ee24); (0x1ee27, 0x1ee27); (0x1ee29, 0x1ee32);
    (0x1ee34, 0x1ee37); (0x1ee39, 0x1ee39); (0x1ee3b, 0x1ee3b);
    (0x1ee42, 0x1ee42); (0x1ee47, 0x1ee47); (0x1ee49, 0x1ee49);
    (0x1ee4b, 0x1ee4b); (0x1ee4d, 0x1ee4f); (0x1ee51, 0x1ee52);
    (0x1ee54, 0x1ee54); (0x1ee57, 0x1ee57); (0x1ee59, 0x1ee59);
    (0x1ee5b, 0x1ee5b); (0x1ee5d, 0x1ee5d); (0x1ee5f, 0x1ee5f);
    (0x1ee61, 0x1ee62); (0x1ee64, 0x1ee64); (0x1ee67, 0x1ee6a);
    (0x1ee6c, 0x1ee72); (0x1ee74, 0x1ee77); (0x1ee79, 0x1ee7c);
    (0x1ee7e, 0x1ee7e); (0x1ee80, 0x1ee89); (0x1ee8b, 0x1ee9b);
    (0x1eea1, 0x1eea3); (0x1eea5, 0x1eea9); (0x1eeab, 0x1eebb);
    (0x1f100, 0x1f10c); (0x1fbf0, 0x1fbf9); (0x20000, 0x2a6df);
    (0x2a700, 0x2b738); (0x2b740, 0x2b81d); (0x2b820, 0x2cea1);
    (0x2ceb0, 0x2ebe0); (0x2f800, 0x2fa1d); (0x30000, 0x3134a) ]%N.

Definition is_alnum (c : char) : bool :=
  existsb (fun r => (fst r <=? c)%N && (c <=? snd r)%N) alnum_ranges.

(** What [\w] matches in a [str] pattern: an alphanumeric character or the
    underscore. *)
Definition is_word (c : char) : bool := is_alnum c || (c =? 0x5F)%N.

(** The class of the characters that are neither a word character nor a
    hyphen, which the file name of a route may not hold. *)
Definition unsafe_char (c : char) : bool :=
  negb (is_word c || (c =? 0x2D)%N).

Definition unsafe_re : regex := Chr unsafe_char.

(** One element of the lists given to [pd.DataFrame]; its keys are the
    columns of the CSV file. *)
Record CsvRow := mkCsvRow {
  csv_route_number : pystr;
  csv_route_name : pystr;
  csv_stop_sequence : value;
  csv_stop_id : pystr;
  csv_stop_name : value;
  csv_fare_from_start : value
}.

(** The identifier of a stop: the route number, an underscore and the
    sequence number on three digits at least. *)
Definition stop_id (route_number : pystr) (stop_sequence : value)
    : result pystr :=
  padded <- format_03d stop_sequence ;;
  Ok (route_number ++ asc "_" ++ padded).

Definition csv_row (route : RouteData) (stop : dict) : result CsvRow :=
  stop_sequence <- getitem stop "stop_sequence" ;;
  id <- stop_id (route_number route) stop_sequence ;;
  stop_name <- getitem stop "stop_name" ;;
  fare <- getitem stop "fare_from_start" ;;
  Ok (mkCsvRow (route_number route) (route_name route) stop_sequence id
               stop_name fare).

(** The rows of the stops of one route. *)
Definition rows_of_route (route : RouteData) : result (list CsvRow) :=
  traverse (csv_row route) (stops route).

(** The name of the file of a route: every character of the route number
    that is not a word character or a hyphen becomes an underscore. *)
Definition clean_route_num (route_number : pystr) : pystr :=
  re_sub unsafe_re (asc "_") route_number.

Definition route_file_name (route : RouteData) : pystr :=
  asc "route_" ++ clean_route_num (route_number route) ++ asc ".csv".

(** The list [main_csv_data] that the first loop of [create_csv_output]
    builds, one dict per stop of every route; an exception raised by a
    missing key or by the format ends the loop. [None] when there is no
    route: the function then returns before the loop. The dicts of the
    file of a route are built by the same expressions. *)
Definition main_csv_data (routes_data : list RouteData)
    : result (option (list CsvRow)) :=
  match routes_data with
  | [] => Ok None
  | _ => rows <- traverse rows_of_route routes_data ;; Ok (Some (concat rows))
  end.

End ProcessRoutesCsv.

(* ===================================================================== *)
(** * data-cleaning.py: the routes of a text                              *)
(* ===================================================================== *)

Module DataCleaningRoutes.
Import PyStr Py Re PyLib.

(** 'මාර්ග අංක\s*:\s*([^\n]+)' *)
Definition route_re : regex :=
  cat [ Lit ExtractBusRoutes.ROUTE_WORD; star is_space; Chr (one ":");
        star is_space; Group 1 (plus dot) ].

(** 'මාර්ග අංක[^\n]+\n([^\n]+)' *)
Definition route_desc_re : regex :=
  cat [ Lit ExtractBusRoutes.ROUTE_WORD; plus dot; Lit [NL];
        Group 1 (plus dot) ].

(** '(\d+)\s+([\d.]+)\]\s*([^\n]+?)(?=\n\d|\n\n|$)': number, fare, a
    closing bracket, then the stop name up to a line that starts with a
    digit, an empty line or the end. *)
Definition stop_pattern : regex :=
  cat [ Group 1 (plus is_decimal); plus is_space;
        Group 2 (plus ProcessRoutes.digit_or_dot); Chr (one "]");
        star is_space; Group 3 (plus_lazy dot);
        Look (Alt (cat [Lit [NL]; Chr is_decimal])
                  (Alt (Lit [NL; NL]) Eol)) ].

(** The dict built for one stop and the dict returned for a text; their
    keys are fixed and their values are built here, so they are records. *)
Record Stop := mkStop {
  stop_sequence : Z;
  stop_name : pystr;
  fare : float
}.

Record RouteData := mkRouteData {
  route_number : pystr;
  route_description : pystr;
  stops : list Stop
}.

(** The body of the [for] loop over the matches. *)
Definition stop_of_match (m : mstate) : result Stop :=
  g1 <- of_option TypeError (group m 1) ;;
  stop_num <- py_int g1 ;;
  g2 <- of_option TypeError (group m 2) ;;
  fare <- py_float g2 ;;
  g3 <- of_option TypeError (group m 3) ;;
  Ok (mkStop stop_num (DataCleaning.clean_stop_name (strip g3)) fare).

(** [extract_route_data]; nothing catches what [int] and [float] raise. *)
Definition extract_route_data (text : pystr) : result RouteData :=
  route_info <- match re_search route_re text with
                | Some m =>
                    g <- of_option TypeError (group m 1) ;; Ok (strip g)
                | None => Ok (asc "Unknown")
                end ;;
  route_desc <- match re_search route_desc_re text with
                | Some m =>
                    g <- of_option TypeError (group m 1) ;; Ok (strip g)
                | None => Ok []
                end ;;
  stops <- traverse stop_of_match (finditer stop_pattern text) ;;
  Ok (mkRouteData route_info route_desc stops).

(** '=== Page' *)
Definition PAGE_MARK : pystr := asc "=== Page".

(** [process_pdf_text]: one route per piece of the text that follows a
    page mark. *)
Definition process_pdf_text (pages_text : pystr) : result (list RouteData) :=
  pages <- split_str pages_text PAGE_MARK ;;
  traverse extract_route_data (drop 1 pages).

End DataCleaningRoutes.

(* ===================================================================== *)
(** * Step_2: the columns of the CSV file                                 *)
(* ===================================================================== *)

Module ExtractBusRoutesCsv.
Import PyStr Py Re PyLib ExtractBusRoutes.

(** The columns of the CSV file of [save_to_csv]. *)
Definition fieldnames : list string :=
  [ "route_number"; "route_name"; "stop_number"; "distance_km"; "location";
    "page_number" ].

End ExtractBusRoutesCsv.

(* ===================================================================== *)
(** * Specification of the texts written and read                         *)
(* ===================================================================== *)

Module TextSpec.
Import PyStr Py PyLib.

(** An ASCII digit. *)
Definition ascii_digit (c : char) : Prop := (0x30 <= c <= 0x39)%N.

(** A text of digits and dots that [float] accepts: it has a digit and at
    most one dot. *)
Definition is_dot (c : char) : bool := (c =? 0x2E)%N.

Definition dots (s : list char) : list char :=
  filter (fun c => is_dot c = true) s.

Definition valid_fare (s : pystr) : bool :=
  (length (dots s) <=? 1)%nat && existsb is_decimal s.

(** A match of a fare-bearing pattern (process_routes.py,
    data-cleaning.py) that the conversions accept: a sequence number of no
    more than 4300 digits and a valid fare; and a match of the fare-omitted
    pattern that [int] accepts. *)
Definition valid_row1 (m : Re.mstate) : bool :=
  int_accepts (default [] (Re.group m 1))
  && valid_fare (default [] (Re.group m 2)).

Definition valid_row2 (m : Re.mstate) : bool :=
  int_accepts (default [] (Re.group m 1)).

(** A pattern without capturing group. *)
Fixpoint groupless (r : Re.regex) : bool :=
  match r with
  | Re.Seq a b | Re.Alt a b => groupless a && groupless b
  | Re.Opt a | Re.Look a => groupless a
  | Re.Group _ _ => false
  | _ => true
  end.

(** The number of occurrences of [sep] in a text, found from left to right
    without overlap, as [str.count] counts them. [skip] counts the
    characters of the occurrence just found that are still to be passed
    over. *)
Fixpoint count_from (sep s : pystr) (skip : nat) : nat :=
  match s with
  | [] => 0
  | _ :: t =>
      match skip with
      | S k => count_from sep t k
      | O =>
          if startswith s sep
          then S (count_from sep t (length sep - 1))
          else count_from sep t 0
      end
  end.

Definition count_str (s sep : pystr) : nat := count_from sep s 0.

(** A stop as [extract_route_data] of process_routes.py builds it, with a
    sequence number that [str] and the format 'd' accept. *)
Definition is_built_stop (d : dict) : Prop :=
  exists n name f,
    d = ProcessRoutes.stop_dict n name f /\
    int_accepts (str_of_int (Z.abs n)) = true.

End TextSpec.

(* ===================================================================== *)
(** * Specification of the rows of Step_1 and Step_2                      *)
(* ===================================================================== *)

Module TableSpec.
Import PyStr Py ExtractBusRoutes ExtractBusRoutesCsv.

(** A row as a user of the table expects it: the stop number is a run of
    digits that is not empty, the distance is empty or a text that [float]
    reads, and the location is trimmed, has two characters or more and is
    not made of digits, white space and separators only. *)
Definition well_formed_row (d : dict) : Prop :=
  exists stop_num distance location,
    d = row_dict stop_num distance location /\
    (stop_num <> [] /\ forallb is_decimal stop_num = true) /\
    (distance = [] \/ exists f, py_float distance = Ok f) /\
    strip location = location /\ (2 <= length location)%nat /\
    forallb noise_char location = false.

(** A row that has the six columns that [save_to_csv] declares and no
    other key. *)
Definition has_columns (d : dict) : Prop :=
  forall key, is_Some (d !! key) <-> key ∈ fieldnames.

(** A row of Step_2 found in the piece of text that follows the i-th page
    mark, with the page number i + 1 and the route number and name found
    in that piece. *)
Definition found_after_mark (content : pystr) (d : dict) : Prop :=
  exists i page stop,
    (1 <= i)%nat /\
    Re.re_split page_re content !! i = Some page /\
    stop ∈ parse_table_data page /\
    d = <["page_number" := VInt (Z.of_nat i + 1)]>
        (<["route_name" := VStr (extract_route_name page)]>
        (<["route_number" := VStr (extract_route_number page)]> stop)).

End TableSpec.

(* ===================================================================== *)
(** * Specification of the rows of into-csv/parse_bus_routes.py           *)
(* ===================================================================== *)

Module RouteSpec.
Import PyStr Py PyLib ParseBusRoutes FareSpec BusRouteParser.

(** A stop dict as the line loop builds it: a sequence number, a name and
    a fare under the three keys, the sequence number being one that [int]
    returned: not negative and of no more than 4300 digits. *)
Definition is_stop (d : dict) : Prop :=
  exists stop_sequence stop_name fare,
    d = stop_dict stop_sequence stop_name fare /\
    (0 <= stop_sequence)%Z /\
    int_accepts (str_of_int (Z.abs stop_sequence)) = true.

(** The fares of a list of stops. *)
Definition fares (ds : list dict) : list float :=
  omap (float_at "fare_from_start") ds.

(** The row expected for a stop of a route and its fare difference. *)
Definition expected_row (route : Route) (d : dict) (delta : float) : Row :=
  mkRow (route_number route) (route_name route) (route_through route)
        (default (VInt 0) (d !! "stop_sequence"))
        (default (VStr []) (d !! "stop_name"))
        (format_2f_float (default fzero (float_at "fare_from_start" d)))
        (format_2f_float delta).

(** The rows expected for a route: one per stop, in order, with the fare
    differences of the specification. *)
Definition expected_rows (route : Route) : list Row :=
  zip_with (expected_row route) (stops route) (deltas (fares (stops route))).

End RouteSpec.

(* ===================================================================== *)
(** * More sample inputs                                                  *)
(* ===================================================================== *)

Module MoreSamples.
Import PyStr Py.


(** A text without page mark. *)
Definition unmarked : pystr := asc "0 0.00] Fort".

End MoreSamples.

(* ===================================================================== *)
(** * Properties                                                          *)
(* ===================================================================== *)

Import PyStr Py Re ReSpec ParseSpec FareSpec CleanSpec.

(** ** The embedding at work *)

(** The tokens as code points. *)
Example through_token : u8 "හරහා" = ParseBusRoutes.THROUGH.
Proof. reflexivity. Qed.

Example route_token : u8 "මාර්ග අංක :" = ParseBusRoutes.ROUTE_NO.
Proof. reflexivity. Qed.

(** [float("0.1")] is 0x1.999999999999ap-4, and a second dot is refused. *)
Example float_of_tenth :
  py_float (asc "0.1") = Ok (S754_finite false 0x1999999999999a (-56)).
Proof. vm_compute. reflexivity. Qed.

Example float_of_two_dots : py_float (asc "1.2.3") = Raise ValueError.
Proof. vm_compute. reflexivity. Qed.

(** [int] reads the digits of any script: these are the Sinhala digits one
    and two. *)
Example int_of_sinhala_digits : py_int (u8 "෧෨") = Ok 12%Z.
Proof. vm_compute. reflexivity. Qed.

Example strip_sample : strip (asc "  a b  ") = asc "a b".
Proof. vm_compute. reflexivity. Qed.

Example replace_sample : replace (asc "aaa") (asc "aa") (asc "b") = asc "ba".
Proof. vm_compute. reflexivity. Qed.

(** The groups of a stop row. *)
Example stop_row_groups :
  (fun m => (group m 1, group m 2, group m 3))
    <$> re_match ParseBusRoutes.stop_re (asc "12 27.50 Kandy road")
  = Some (Some (asc "12"), Some (asc "27.50"), Some (asc "Kandy road")).
Proof. vm_compute. reflexivity. Qed.

(** Two rows on one line, as the comment of [parse_table_data] has them. *)
Example two_rows_on_a_line :
  map (fun d => (str_at "stop_number" d, str_at "distance_km" d,
                 str_at "location" d))
      (ExtractBusRoutes.parse_table_data
         (u8 "0 0.00] කොළඹ 1 27.00| මාලිගාවත්ත"))
  = [ (Some (asc "0"), Some (asc "0.00"), Some (u8 "කොළඹ"));
      (Some (asc "1"), Some (asc "27.00"), Some (u8 "මාලිගාවත්ත")) ].
Proof. vm_compute. reflexivity. Qed.

(** One header and three plain stop rows give one route with three stops,
    whose fare differences are 0.0, 27.0 and 8.5. *)
Example one_route_three_stops :
  map (fun r => (ParseBusRoutes.route_number r,
                 ParseBusRoutes.route_through r,
                 map (str_at "stop_name") (ParseBusRoutes.stops r),
                 previous_fares (ParseBusRoutes.stops r)))
      (ParseBusRoutes.parse_route_data Samples.three_stops)
  = [ (asc "001", [],
       [Some (asc "Fort"); Some (asc "Kadawatha"); Some (asc "Kegalle")],
       Ok [ Some fzero; Some (S754_finite false 7599824371187712 (-48));
            Some (S754_finite false 4785074604081152 (-49)) ]) ].
Proof. vm_compute. reflexivity. Qed.

(** A header with no stop row is dropped; the next one is emitted. *)
Example header_without_stops_is_dropped :
  map ParseBusRoutes.route_number
      (ParseBusRoutes.parse_route_data Samples.empty_then_full)
  = [asc "002"].
Proof. vm_compute. reflexivity. Qed.

(** ** Strings *)

Lemma startswith_app (s p : pystr) :
  startswith s p = true -> s = p ++ drop (length p) s.
Proof.
  revert s. induction p as [|a p IH]; intros s H; simpl in *.
  - by rewrite drop_0.
  - destruct s as [|b s]; [done|].
    apply andb_prop in H as [Hab Hs]. apply N.eqb_eq in Hab. subst b.
    simpl. f_equal. by apply IH.
Qed.

Lemma startswith_prefix (p rest : pystr) : startswith (p ++ rest) p = true.
Proof.
  induction p as [|a p IH]; simpl; [done|].
  by rewrite N.eqb_refl.
Qed.

(** ** The matcher explores only what [matches] allows *)

Lemma rep_greedy_sound {R} p min pos rest (k : nat -> pystr -> option R) x :
  rep_greedy p min pos rest k = Some x ->
  exists w rest', rest = w ++ rest' /\ forallb p w = true /\
    min <= length w /\ k (pos + length w) rest' = Some x.
Proof.
  revert min pos. induction rest as [|c t IH]; intros min pos H; simpl in H.
  - destruct min; [|done]. exists [], []. simpl.
    rewrite Nat.add_0_r. auto with lia.
  - assert (Hstop : match min with 0 => k pos (c :: t) | S _ => None end
                    = Some x ->
            exists w rest', c :: t = w ++ rest' /\ forallb p w = true /\
              min <= length w /\ k (pos + length w) rest' = Some x).
    { intros Hs. destruct min; [|done]. exists [], (c :: t). simpl.
      rewrite Nat.add_0_r. auto with lia. }
    destruct (p c) eqn:Hpc; [|by apply Hstop].
    destruct (rep_greedy p (Nat.pred min) (S pos) t k) eqn:Hrec;
      [|by apply Hstop].
    injection H as ->. apply IH in Hrec as (w & rest' & -> & Hw & Hmin & Hk).
    exists (c :: w), rest'. simpl. rewrite Hpc, Hw.
    replace (pos + S (length w)) with (S pos + length w) by lia.
    repeat split; [lia | done].
Qed.

Lemma rep_lazy_sound {R} p min pos rest (k : nat -> pystr -> option R) x :
  rep_lazy p min pos rest k = Some x ->
  exists w rest', rest = w ++ rest' /\ forallb p w = true /\
    min <= length w /\ k (pos + length w) rest' = Some x.
Proof.
  revert min pos. induction rest as [|c t IH]; intros min pos H.
  - destruct min; simpl in H; [|done].
    destruct (k pos []) eqn:Hk; [|done]. injection H as ->.
    exists [], []. simpl. rewrite Nat.add_0_r. auto with lia.
  - assert (Hmore : forall m,
              (if p c then rep_lazy p m (S pos) t k else None) = Some x ->
              exists w rest', c :: t = w ++ rest' /\ forallb p w = true /\
                S m <= length w /\ k (pos + length w) rest' = Some x).
    { intros m Hm. destruct (p c) eqn:Hpc; [|done].
      apply IH in Hm as (w & rest' & -> & Hw & Hmin & Hk).
      exists (c :: w), rest'. simpl. rewrite Hpc, Hw.
      replace (pos + S (length w)) with (S pos + length w) by lia.
      repeat split; [lia | done]. }
    destruct min as [|m]; simpl in H.
    + destruct (k pos (c :: t)) eqn:Hk.
      * injection H as ->. exists [], (c :: t). simpl.
        rewrite Nat.add_0_r. auto with lia.
      * apply Hmore in H as (w & rest' & ? & ? & ? & ?).
        exists w, rest'. auto with lia.
    + by apply Hmore.
Qed.

Lemma rmatch_sound r : forall s k x,
  rmatch r s k = Some x -> exists s', matches r s s' /\ k s' = Some x.
Proof.
  induction r as [|p|l|a IHa b IHb|a IHa b IHb|g min p|a IHa|n a IHa|a IHa| |];
    intros s k x H; simpl in H.
  - exists s. split; [constructor | done].
  - destruct s as [pos rest gs]. simpl in H.
    destruct rest as [|c t]; [done|]. destruct (p c) eqn:Hpc; [|done].
    eexists. split; [by constructor | done].
  - destruct s as [pos rest gs]. simpl in H.
    destruct (startswith rest l) eqn:Hl; [|done].
    apply startswith_app in Hl. eexists. split; [|exact H].
    rewrite Hl at 1. constructor.
  - apply IHa in H as (s1 & H1 & H). apply IHb in H as (s2 & H2 & H).
    exists s2. split; [by econstructor | done].
  - destruct (rmatch a s k) eqn:Ha.
    + injection H as ->. apply IHa in Ha as (s' & ? & ?).
      exists s'. split; [by apply M_AltL | done].
    + apply IHb in H as (s' & ? & ?).
      exists s'. split; [by apply M_AltR | done].
  - destruct s as [pos rest gs]. simpl in H.
    assert (exists w rest', rest = w ++ rest' /\ forallb p w = true /\
              min <= length w /\
              k (MState (pos + length w) rest' gs) = Some x)
      as (w & rest' & -> & Hw & Hmin & Hk).
    { destruct g; [apply rep_greedy_sound in H | apply rep_lazy_sound in H];
        exact H. }
    eexists. split; [by constructor | done].
  - destruct (rmatch a s k) eqn:Ha.
    + injection H as ->. apply IHa in Ha as (s' & ? & ?).
      exists s'. split; [by apply M_OptYes | done].
    + exists s. split; [apply M_OptNo | done].
  - apply IHa in H as (s' & H1 & H).
    eexists. split; [by apply M_Group | done].
  - destruct (rmatch a s Some) eqn:Ha; [|done].
    apply IHa in Ha as (s' & H1 & [= <-]).
    eexists. split; [by apply M_Look | done].
  - destruct s as [pos rest gs]. simpl in H.
    destruct pos; [|done]. eexists. split; [constructor | done].
  - exists s. split; [|].
    + constructor. destruct (mrest s) as [|c [|? ?]]; [by left | | done].
      destruct (N.eqb_spec c NL); [subst; by right | done].
    + destruct (mrest s) as [|c [|? ?]]; [done | | done].
      by destruct (c =? NL)%N.
Qed.

(** What a match leaves behind is a suffix of what it started from, and the
    position moves by the length of the text in between. *)
Lemma matches_consumed r s s' :
  matches r s s' ->
  exists w, mrest s = w ++ mrest s' /\ mpos s' = mpos s + length w.
Proof.
  induction 1 as [s|p pos c t gs Hp|l pos rest gs|a b s1 s2 s3 _ IH1 _ IH2
                  |a b s s' _ IH|a b s s' _ IH|g min p pos w rest gs Hw Hmin
                  |a s s' _ IH|a s|n a s s' _ IH|a s s' _ IH|rest gs|s Hs];
    simpl.
  - exists []. simpl. auto with lia.
  - exists [c]. simpl. auto with lia.
  - exists l. auto.
  - destruct IH1 as (w1 & E1 & P1), IH2 as (w2 & E2 & P2).
    exists (w1 ++ w2). rewrite E1, E2, P2, P1, length_app, <- app_assoc.
    auto with lia.
  - exact IH.
  - exact IH.
  - exists w. auto.
  - exact IH.
  - exists []. simpl. auto with lia.
  - exact IH.
  - exists []. simpl. auto with lia.
  - exists []. simpl. auto with lia.
  - exists []. simpl. auto with lia.
Qed.

(** Inversion of [matches] at the shapes the patterns are built from. *)

Lemma matches_rep_inv g min p s s' :
  matches (Rep g min p) s s' ->
  exists w, mrest s = w ++ mrest s' /\ mpos s' = mpos s + length w /\
    mgroups s' = mgroups s /\ forallb p w = true /\ min <= length w.
Proof. inversion 1; subst; simpl. by exists w. Qed.

Lemma matches_group_inv n a s s'' :
  matches (Group n a) s s'' ->
  exists s' w, matches a s s' /\ mrest s = w ++ mrest s' /\
    mpos s' = mpos s + length w /\
    s'' = MState (mpos s') (mrest s') ((n, w) :: mgroups s').
Proof.
  inversion 1 as [| | | | | | | | |n' a' s0 s' Ha| | |]; subst.
  destruct (matches_consumed _ _ _ Ha) as (w & Hw & Hp).
  exists s', w. repeat split; [done..|].
  by rewrite Hw, Hp, Nat.add_sub', take_app_length.
Qed.

Lemma matches_number_inv s s' :
  matches (cat [plus is_decimal; Opt (Chr (one ".")); star is_decimal]) s s' ->
  exists d1 o d2, mrest s = (d1 ++ o ++ d2) ++ mrest s' /\
    mgroups s' = mgroups s /\
    forallb is_decimal d1 = true /\ d1 <> [] /\
    (o = [] \/ o = [0x2E%N]) /\ forallb is_decimal d2 = true.
Proof.
  simpl. intros H.
  inversion H as [| | |a b s1 s2 s3 H1 H23| | | | | | | | |]; subst; clear H.
  inversion H23 as [| | |a b s1 s3 s4 H2 H3| | | | | | | | |]; subst; clear H23.
  apply matches_rep_inv in H1 as (d1 & E1 & _ & G1 & D1 & L1).
  apply matches_rep_inv in H3 as (d2 & E3 & _ & G3 & D3 & _).
  assert (exists o, mrest s2 = o ++ mrest s3 /\ mgroups s3 = mgroups s2 /\
                    (o = [] \/ o = [0x2E%N])) as (o & E2 & G2 & Ho).
  { inversion H2 as [| | | | | | |a s0 s0' Hc|a s0| | | |]; subst.
    - inversion Hc as [|p pos c t gs Hp| | | | | | | | | | |]; subst.
      exists [c]. repeat split. right. f_equal.
      unfold one in Hp. simpl in Hp. rewrite orb_false_r in Hp.
      by apply N.eqb_eq in Hp.
    - exists []. auto. }
  exists d1, o, d2. rewrite E1, E2, E3, G3, G2, G1, <- !app_assoc.
  repeat split; [done| |done..].
  intros ->. simpl in L1. lia.
Qed.

(** ** Conversions of what the patterns capture *)

Lemma is_decimal_value c :
  is_decimal c = true -> exists d, digit_value c = Some d.
Proof. unfold is_decimal. destruct (digit_value c); [eauto | done]. Qed.

Lemma digits_value_ok s : forall acc,
  forallb is_decimal s = true -> exists n, digits_value acc s = Some n.
Proof.
  induction s as [|c t IH]; intros acc H; simpl in *; [eauto|].
  apply andb_prop in H as [Hc Ht].
  apply is_decimal_value in Hc as [d ->]. by apply IH.
Qed.

(** [int] accepts a run of digits that is not empty and has no more than
    4300 digits, and refuses a longer one. *)
Lemma py_int_ok s :
  s <> [] -> forallb is_decimal s = true -> int_accepts s = true ->
  exists n, py_int s = Ok n.
Proof.
  intros Hne H Hlen. unfold py_int. destruct s as [|c t]; [done|].
  rewrite Hlen.
  destruct (digits_value_ok (c :: t) 0 H) as [n ->]. by exists n.
Qed.

Lemma py_int_long s : int_accepts s = false -> py_int s = Raise ValueError.
Proof.
  intros Hlen. unfold py_int. destruct s as [|c t]; [done|]. by rewrite Hlen.
Qed.

Lemma py_int_cases s :
  (exists n, py_int s = Ok n) \/ py_int s = Raise ValueError.
Proof.
  unfold py_int. destruct s as [|c t]; [by right|].
  destruct (int_accepts (c :: t)); [|by right].
  destruct (digits_value 0 (c :: t)); simpl; eauto.
Qed.

(** No white space character is a decimal digit. *)
Lemma space_not_decimal c : is_space c = true -> is_decimal c = false.
Proof.
  unfold is_space.
  rewrite !orb_true_iff, !andb_true_iff, !N.leb_le, !N.eqb_eq. intros H.
  assert (Hc : (c = 0x09 \/ c = 0x0A \/ c = 0x0B \/ c = 0x0C \/ c = 0x0D \/
                c = 0x1C \/ c = 0x1D \/ c = 0x1E \/ c = 0x1F \/ c = 0x20 \/
                c = 0x85 \/ c = 0xA0 \/ c = 0x1680 \/
                c = 0x2000 \/ c = 0x2001 \/ c = 0x2002 \/ c = 0x2003 \/
                c = 0x2004 \/ c = 0x2005 \/ c = 0x2006 \/ c = 0x2007 \/
                c = 0x2008 \/ c = 0x2009 \/ c = 0x200A \/
                c = 0x2028 \/ c = 0x2029 \/ c = 0x202F \/ c = 0x205F \/
                c = 0x3000)%N) by lia.
  clear H. repeat (destruct Hc as [-> | Hc]; [reflexivity|]).
  by subst c.
Qed.

(** A run of digits followed by a white space character is the digits the
    text starts with. *)
Lemma leading_digits_run w c rest :
  forallb is_decimal w = true -> is_space c = true ->
  leading_digits (w ++ c :: rest) = w.
Proof.
  intros Hw Hc. induction w as [|d w IH]; simpl.
  - by rewrite (space_not_decimal c Hc).
  - simpl in Hw. apply andb_prop in Hw as [-> Hw]. by rewrite IH.
Qed.

Lemma dot_not_decimal : is_decimal 0x2E%N = false.
Proof. reflexivity. Qed.

Lemma cut_at_dot_whole d :
  forallb is_decimal d = true -> cut_at_dot d = (d, None).
Proof.
  induction d as [|c t IH]; intros H; simpl in *; [done|].
  apply andb_prop in H as [Hc Ht].
  destruct (N.eqb_spec c 0x2E) as [->|_].
  - by rewrite dot_not_decimal in Hc.
  - by rewrite (IH Ht).
Qed.

Lemma cut_at_dot_dotted d1 d2 :
  forallb is_decimal d1 = true ->
  cut_at_dot (d1 ++ 0x2E%N :: d2) = (d1, Some d2).
Proof.
  induction d1 as [|c t IH]; intros H; simpl in *; [done|].
  apply andb_prop in H as [Hc Ht].
  destruct (N.eqb_spec c 0x2E) as [->|_].
  - by rewrite dot_not_decimal in Hc.
  - by rewrite (IH Ht).
Qed.

Lemma py_float_ok d1 o d2 :
  forallb is_decimal d1 = true -> d1 <> [] ->
  o = [] \/ o = [0x2E%N] -> forallb is_decimal d2 = true ->
  exists f, py_float (d1 ++ o ++ d2) = Ok f.
Proof.
  intros H1 Hne Ho H2. unfold py_float.
  assert (Hall : forallb is_decimal (d1 ++ d2) = true)
    by (by rewrite forallb_app, H1, H2).
  destruct (digits_value_ok _ 0 Hall) as [n Hn].
  assert (Hds : d1 ++ d2 <> []) by (by destruct d1).
  destruct Ho as [-> | ->]; cbn [app].
  - rewrite (cut_at_dot_whole _ Hall). cbv beta iota. cbn [from_option].
    rewrite app_nil_r. destruct (d1 ++ d2) as [|c l] eqn:E; [done|].
    rewrite Hn. eauto.
  - rewrite (cut_at_dot_dotted _ _ H1). cbv beta iota. cbn [from_option id].
    destruct (d1 ++ d2) as [|c l] eqn:E; [done|].
    rewrite Hn. eauto.
Qed.

Ltac inv_seq H H1 H2 :=
  inversion H as [| | |? ? ? ? ? H1 H2| | | | | | | | |]; subst; clear H.

(** ** into-csv/parse_bus_routes.py: the line loop *)

Import ParseBusRoutes.

(** A match of the stop-row pattern sets its three groups, the first to a
    run of digits with which the line starts and the second to a decimal
    number, which [float] accepts. *)
Lemma stop_re_groups line m :
  re_match stop_re line = Some m ->
  exists g1 g2 g3 f,
    group m 1 = Some g1 /\ group m 2 = Some g2 /\ group m 3 = Some g3 /\
    g1 <> [] /\ forallb is_decimal g1 = true /\
    leading_digits line = g1 /\
    py_float g2 = Ok f.
Proof.
  unfold re_match, match_at. intros H.
  apply rmatch_sound in H as (s' & Hm & [= ->]).
  unfold stop_re in Hm. cbn [cat] in Hm.
  inv_seq Hm Hbol Hm1. inv_seq Hm1 Hg1 Hm2. inv_seq Hm2 Hs1 Hm3.
  inv_seq Hm3 Hg2 Hm4. inv_seq Hm4 Hs2 Hm5. inv_seq Hm5 Hg3 Heol.
  inversion Heol; subst; clear Heol. inversion Hbol; subst; clear Hbol.
  apply matches_group_inv in Hg1 as (a1 & g1 & Hd1 & E1 & _ & ->).
  apply matches_rep_inv in Hd1 as (w1 & E1' & _ & _ & D1 & L1).
  apply matches_rep_inv in Hs1 as (ws & Es & _ & G1 & Ds & Ls).
  apply matches_group_inv in Hg2 as (a2 & g2 & Hd2 & E2 & _ & ->).
  apply matches_number_inv in Hd2
    as (d1 & o & d2 & E2' & G2 & D21 & N21 & Ho & D22).
  apply matches_rep_inv in Hs2 as (_ & _ & _ & G3 & _).
  apply matches_group_inv in Hg3 as (a3 & g3 & Hd3 & _ & _ & ->).
  apply matches_rep_inv in Hd3 as (_ & _ & _ & G4 & _).
  simpl in *.
  assert (g1 = w1) as -> by (rewrite E1' in E1; by apply app_inv_tail in E1).
  assert (g2 = d1 ++ o ++ d2) as ->
    by (rewrite E2' in E2; by apply app_inv_tail in E2).
  destruct (py_float_ok d1 o d2) as [f Hf]; [done..|].
  exists w1, (d1 ++ o ++ d2), g3, f.
  unfold group. simpl. rewrite G4, G3. simpl. rewrite G2, G1.
  repeat split; [by destruct w1; [simpl in L1; lia|] | done | | done].
  rewrite E1, Es. destruct ws as [|c ws]; [simpl in Ls; lia|].
  simpl in Ds. apply andb_prop in Ds as [Hc _].
  rewrite <- app_comm_cons. by apply leading_digits_run.
Qed.

(** The only exception a line can raise is the ValueError of [int]. *)
Lemma process_line_cases st raw :
  (exists st', process_line st raw = Ok st') \/
  process_line st raw = Raise ValueError.
Proof.
  unfold process_line.
  destruct (is_blank _); [eauto|].
  destruct (is_through _); [eauto|].
  destruct (is_header _).
  { destruct (split_once _ _) as [|? [|? ?]]; eauto. }
  destruct (current_route st) as [l|]; [|eauto].
  destruct (re_match stop_re _) as [m|] eqn:Hm; [|eauto].
  apply stop_re_groups in Hm
    as (g1 & g2 & g3 & f & -> & -> & -> & _ & _ & _ & Hf).
  simpl. destruct (py_int_cases g1) as [[n ->] | ->]; [|by right].
  simpl. rewrite Hf. simpl. eauto.
Qed.

(** A line whose sequence number [int] accepts raises nothing. *)
Lemma process_line_ok st raw :
  int_accepts_row raw = true -> exists st', process_line st raw = Ok st'.
Proof.
  intros Hraw. unfold process_line.
  destruct (is_blank _); [eauto|].
  destruct (is_through _); [eauto|].
  destruct (is_header _).
  { destruct (split_once _ _) as [|? [|? ?]]; eauto. }
  destruct (current_route st) as [l|]; [|eauto].
  destruct (re_match stop_re _) as [m|] eqn:Hm; [|eauto].
  apply stop_re_groups in Hm
    as (g1 & g2 & g3 & f & -> & -> & -> & Hne & Hdig & Hlead & Hf).
  unfold int_accepts_row in Hraw. rewrite Hlead in Hraw.
  destruct (py_int_ok g1) as [n Hn]; [done..|].
  simpl. rewrite Hn. simpl. rewrite Hf. simpl. eauto.
Qed.

(** A stop row whose sequence number [int] refuses, read while a route is
    open, raises ValueError. *)
Lemma step_row_long st raw l :
  is_stop_row raw = true -> int_accepts_row raw = false ->
  current_route st = Some l ->
  process_line st raw = Raise ValueError.
Proof.
  unfold is_stop_row, int_accepts_row, kind_of, process_line.
  destruct (is_blank _); [done|]. destruct (is_through _); [done|].
  destruct (is_header _); [done|]. intros Hrow Hacc ->.
  destruct (re_match stop_re _) as [m|] eqn:Hm; [|done].
  destruct (stop_re_groups _ _ Hm)
    as (g1 & g2 & g3 & f & -> & -> & -> & Hne & Hdig & Hlead & Hf).
  rewrite Hlead in Hacc. simpl. by rewrite (py_int_long g1 Hacc).
Qed.

Lemma parse_loop_ok lines : forall st,
  Forall (fun raw => int_accepts_row raw = true) lines ->
  exists st', parse_loop st lines = Ok st'.
Proof.
  induction lines as [|raw rest IH]; intros st Hall; simpl; [eauto|].
  apply Forall_cons in Hall as [Hraw Hrest].
  destruct (process_line_ok st raw Hraw) as [st1 ->]. simpl. by apply IH.
Qed.

Lemma parse_loop_cases lines : forall st,
  (exists st', parse_loop st lines = Ok st') \/
  parse_loop st lines = Raise ValueError.
Proof.
  induction lines as [|raw rest IH]; intros st; simpl; [eauto|].
  destruct (process_line_cases st raw) as [[st1 ->] | ->]; [|by right].
  simpl. apply IH.
Qed.

(** What one turn of the loop does, by kind of line. *)

Lemma step_blank st raw : kind_of raw = Blank -> process_line st raw = Ok st.
Proof.
  unfold kind_of, process_line. destruct (is_blank _); [done|].
  destruct (is_through _); [done|]. by destruct (is_header _).
Qed.

Lemma step_through st raw :
  kind_of raw = Through ->
  process_line st raw =
    Ok (mkState (heap st) (flush st)
                (if has_stops st then None else current_route st)
                (Some (through_text raw))).
Proof.
  unfold kind_of, process_line. destruct (is_blank _); [done|].
  destruct (is_through _); [done|]. by destruct (is_header _).
Qed.

Lemma step_header st raw :
  kind_of raw = Header ->
  exists number name,
    process_line st raw =
      Ok (mkState
            (heap st ++ [mkRoute number name
                           (default [] (current_route_through st)) []])
            (flush st) (Some (length (heap st)))
            (current_route_through st)).
Proof.
  unfold kind_of, process_line. destruct (is_blank _); [done|].
  destruct (is_through _); [done|]. destruct (is_header _); [|done].
  intros _. destruct (split_once _ _) as [|? [|? ?]]; eauto.
Qed.

Lemma step_other st raw st' :
  kind_of raw = Other ->
  process_line st raw = Ok st' ->
  st' = st \/
  exists l d, current_route st = Some l /\ is_stop_row raw = true /\
    st' = mkState (append_stop (heap st) l d) (routes st) (Some l)
                  (current_route_through st).
Proof.
  intros Hk. unfold is_stop_row. rewrite Hk. revert Hk.
  unfold kind_of, process_line. destruct (is_blank _); [done|].
  destruct (is_through _); [done|]. destruct (is_header _); [done|].
  intros _. destruct (current_route st) as [l|] eqn:Hc;
    [|intros [= <-]; by left].
  destruct (re_match stop_re _) as [m|] eqn:Hm; [|intros [= <-]; by left].
  destruct (stop_re_groups _ _ Hm)
    as (g1 & g2 & g3 & f & -> & -> & -> & _ & _ & _ & Hf).
  simpl. destruct (py_int g1) as [n|]; [|done]. simpl. rewrite Hf. simpl.
  intros [= <-]. right. eexists l, _. by repeat split.
Qed.

(** Without an open route a line that is no banner and no header changes
    nothing, whatever its digits. *)
Lemma step_other_closed st raw :
  kind_of raw = Other -> current_route st = None ->
  process_line st raw = Ok st.
Proof.
  unfold kind_of, process_line. destruct (is_blank _); [done|].
  destruct (is_through _); [done|]. destruct (is_header _); [done|].
  by intros _ ->.
Qed.

Lemma has_stops_true st :
  has_stops st = true ->
  exists l r, current_route st = Some l /\ heap st !! l = Some r /\
              stops r <> [].
Proof.
  unfold has_stops. destruct (current_route st) as [l|]; [|done].
  destruct (heap st !! l) as [r|] eqn:Hr; [|done].
  intros H. exists l, r. repeat split; [done|].
  apply negb_true_iff, bool_decide_eq_false in H. done.
Qed.

Lemma flush_true st l :
  has_stops st = true -> current_route st = Some l ->
  flush st = routes st ++ [l].
Proof. unfold flush. by intros -> ->. Qed.

Lemma flush_false st : has_stops st = false -> flush st = routes st.
Proof. unfold flush. by intros ->. Qed.

(** A flush keeps the routes emitted so far in order, adds the current one
    at most once, and leaves every emitted route with a stop. *)
Lemma flush_wf st :
  wf st ->
  NoDup (flush st) /\
  (forall l, l ∈ flush st ->
     l < length (heap st) /\ exists r, heap st !! l = Some r /\ stops r <> []).
Proof.
  intros (Hcur & Hnd & Hall).
  assert (Hold : forall l, l ∈ routes st ->
            l < length (heap st) /\
            exists r, heap st !! l = Some r /\ stops r <> []).
  { intros l Hl. destruct (Hall l Hl) as (r & Hr & Hs).
    split; [by eapply lookup_lt_Some | eauto]. }
  destruct (has_stops st) eqn:Hs.
  - destruct (has_stops_true _ Hs) as (l & r & Hc & Hr & Hne).
    rewrite (flush_true _ _ Hs Hc). destruct (Hcur l Hc) as [Hlt Hnin].
    split.
    + apply NoDup_app. repeat split; [done | | apply NoDup_singleton].
      intros x Hx ->%list_elem_of_singleton. done.
    + intros x [Hx | ->%list_elem_of_singleton]%elem_of_app; [by apply Hold|].
      eauto.
  - rewrite (flush_false _ Hs). by split.
Qed.

Lemma process_line_wf st raw st' :
  wf st -> process_line st raw = Ok st' -> wf st'.
Proof.
  intros Hwf Hstep. pose proof (flush_wf _ Hwf) as [Hfnd Hfall].
  destruct Hwf as (Hcur & Hnd & Hall).
  destruct (kind_of raw) eqn:Hk.
  - rewrite (step_blank _ _ Hk) in Hstep. injection Hstep as <-. by split.
  - rewrite (step_through _ _ Hk) in Hstep. injection Hstep as <-.
    split; [|split]; simpl; [|done|].
    + intros l Hl. destruct (has_stops st) eqn:Hs; [done|].
      rewrite (flush_false _ Hs). by apply Hcur.
    + intros l Hl. by apply Hfall.
  - destruct (step_header st raw Hk) as (number & name & Hh).
    rewrite Hh in Hstep. injection Hstep as <-.
    split; [|split]; simpl; [|done|].
    + intros l [= <-]. rewrite length_app. simpl. split; [lia|].
      intros Hin. apply Hfall in Hin as [Hlt _]. lia.
    + intros l Hl. destruct (Hfall l Hl) as (Hlt & r & Hr & Hs).
      exists r. by rewrite lookup_app_l.
  - destruct (step_other st raw st' Hk Hstep)
      as [-> | (l & d & Hc & _ & ->)].
    + by split.
    + destruct (Hcur l Hc) as [Hlt Hnin].
      split; [|split]; simpl; [|done|].
      * intros ? [= <-]. unfold append_stop. by rewrite length_alter.
      * intros x Hx. destruct (Hall x Hx) as (r & Hr & Hs).
        exists r. unfold append_stop.
        rewrite list_lookup_alter_ne; [done|]. by intros ->.
Qed.

Lemma initial_wf : wf initial.
Proof.
  split; [done|]. split; [apply NoDup_nil_2|]. intros l Hl.
  by apply elem_of_nil in Hl.
Qed.

Lemma parse_loop_wf lines : forall st st',
  wf st -> parse_loop st lines = Ok st' -> wf st'.
Proof.
  induction lines as [|raw rest IH]; intros st st' Hwf H; simpl in H.
  - by injection H as <-.
  - destruct (process_line st raw) as [st1|] eqn:H1; [|done]. simpl in H.
    eapply IH; [|exact H]. by eapply process_line_wf.
Qed.

Lemma parse_loop_app a : forall b st,
  parse_loop st (a ++ b) = (st' <- parse_loop st a ;; parse_loop st' b).
Proof.
  induction a as [|raw a IH]; intros b st; simpl; [done|].
  destruct (process_line st raw); simpl; [apply IH | done].
Qed.

Lemma process_pages_have_stops pages :
  Forall (fun rd => 1 <= length (ProcessRoutes.stops rd))
         (ProcessRoutes.process_pages pages).
Proof.
  induction pages as [|p rest IH]; simpl; [constructor|].
  destruct (strip p); [done|].
  destruct (ProcessRoutes.extract_route_data p) as [rd|]; [|done].
  destruct (ProcessRoutes.stops rd) eqn:Hs; [done|].
  constructor; [|done]. rewrite Hs. simpl. lia.
Qed.

Lemma filter_absent (l : nat) (xs : list nat) :
  l ∉ xs -> filter (fun x => x = l) xs = [].
Proof.
  induction xs as [|x xs IH]; intros H; [done|].
  apply not_elem_of_cons in H as [Hne Hxs].
  rewrite filter_cons_False by congruence. by apply IH.
Qed.

(** C1. A route is emitted only with a non-empty stop list: every route in
    the list that [parse_route_data] returns (appended at a through-marker
    line, at a route-header line or by the final flush) has at least one
    stop, and so has every route that [process_text_file] returns; a header
    that gathered no stop row is therefore never in the output. *)
Theorem emitted_routes_have_stops (lines : list pystr) (content : pystr) :
  Forall (fun r => 1 <= length (stops r)) (parse_route_data lines) /\
  Forall (fun rd => 1 <= length (ProcessRoutes.stops rd))
         (ProcessRoutes.process_text_file content).
Proof.
  split; [|apply process_pages_have_stops].
  unfold parse_route_data, parse_refs.
  destruct (parse_loop initial lines) as [st|] eqn:Hst; [|constructor].
  simpl. pose proof (parse_loop_wf _ _ _ initial_wf Hst) as Hwf.
  destruct (flush_wf _ Hwf) as [_ Hall].
  apply Forall_forall. intros r Hr.
  apply list_elem_of_omap in Hr as (l & Hl & Hlook).
  destruct (Hall l Hl) as (_ & r' & Hr' & Hne).
  rewrite Hlook in Hr'. injection Hr' as <-.
  destruct (stops r); [done | simpl; lia].
Qed.

(** C3. At the end of the input a current route that is still open and has
    a stop is appended to the result by the final flush, and it is there
    exactly once: the references returned are those emitted during the loop
    followed by this one, which is not among them. The last route of the
    document is thus the last element of the list returned. *)
Theorem last_route_flushed_once (lines : list pystr) (st : pstate)
    (l : nat) (r : Route) :
  parse_loop initial lines = Ok st ->
  current_route st = Some l ->
  heap st !! l = Some r ->
  stops r <> [] ->
  parse_refs lines = Ok (heap st, routes st ++ [l]) /\
  (l ∉ routes st) /\
  length (filter (fun x => x = l) (routes st ++ [l])) = 1 /\
  parse_route_data lines = omap (fun x => heap st !! x) (routes st) ++ [r].
Proof.
  intros Hst Hc Hr Hne.
  pose proof (parse_loop_wf _ _ _ initial_wf Hst) as (Hcur & _ & _).
  destruct (Hcur l Hc) as [_ Hnin].
  assert (Hs : has_stops st = true).
  { unfold has_stops. rewrite Hc, Hr. apply negb_true_iff.
    by apply bool_decide_eq_false. }
  assert (Hrefs : parse_refs lines = Ok (heap st, routes st ++ [l])).
  { unfold parse_refs. rewrite Hst. simpl. by rewrite (flush_true _ _ Hs Hc). }
  repeat split; [done..| |].
  - rewrite filter_app, (filter_absent _ _ Hnin). simpl.
    by rewrite filter_cons_True.
  - unfold parse_route_data. rewrite Hrefs. rewrite omap_app. simpl.
    by rewrite Hr.
Qed.

Lemma last_route_flushed_once_witness :
  exists st r,
    parse_loop initial Samples.one_route = Ok st /\
    current_route st = Some 0 /\
    heap st !! 0 = Some r /\
    stops r <> [] /\
    parse_refs Samples.one_route = Ok (heap st, routes st ++ [0]) /\
    (0 ∉ routes st) /\
    length (filter (fun x => x = 0) (routes st ++ [0])) = 1 /\
    parse_route_data Samples.one_route
      = omap (fun x => heap st !! x) (routes st) ++ [r].
Proof.
  eexists _, _.
  split; [vm_compute; reflexivity|].
  split; [reflexivity|]. split; [reflexivity|]. split; [done|].
  apply last_route_flushed_once;
    [vm_compute; reflexivity | reflexivity | reflexivity | done].
Defined.

(** Before the first header nothing is recorded but the pending banner. *)
Lemma no_header_prefix pre : forall t,
  Forall (fun raw => kind_of raw <> Header) pre ->
  parse_loop (mkState [] [] None t) pre
    = Ok (mkState [] [] None (pending_through t pre)).
Proof.
  induction pre as [|raw pre IH]; intros t H; [done|].
  apply Forall_cons in H as [Hraw Hpre]. simpl.
  unfold pending_through. simpl. fold (pending_through).
  destruct (kind_of raw) eqn:Hk.
  - rewrite (step_blank _ _ Hk). simpl. by apply IH.
  - rewrite (step_through _ _ Hk). simpl. by apply IH.
  - done.
  - rewrite (step_other_closed (mkState [] [] None t) raw Hk eq_refl).
    simpl. by apply IH.
Qed.

(** C9. The line loop raises nothing on lines whose sequence number, the
    digits a line starts with, has no more than 4300 digits, the most that
    [int] accepts: it then ends in a state. A stop row with a longer
    sequence number, read while a route is open, makes [int] raise
    ValueError; this is the only exception the loop can raise, and
    [parse_route_data] then returns the empty list. The lines that come
    before the first route header, stop rows included and whatever their
    digits, are skipped without any conversion: after them no route object
    exists, no route is emitted and no route is open, so that only the
    pending banner can differ from the initial state, and the rest of the
    input is read as if it came first. *)
Theorem loop_never_raises (pre rest : list pystr) :
  Forall (fun raw => kind_of raw <> Header) pre ->
  (Forall (fun raw => int_accepts_row raw = true) rest ->
   exists st, parse_loop initial (pre ++ rest) = Ok st) /\
  (forall st raw l,
     current_route st = Some l -> is_stop_row raw = true ->
     int_accepts_row raw = false ->
     process_line st raw = Raise ValueError) /\
  (forall e, parse_loop initial (pre ++ rest) = Raise e ->
             e = ValueError /\ parse_route_data (pre ++ rest) = []) /\
  parse_loop initial pre
    = Ok (mkState [] [] None (pending_through None pre)) /\
  parse_loop initial (pre ++ rest)
    = parse_loop (mkState [] [] None (pending_through None pre)) rest /\
  parse_route_data pre = [].
Proof.
  intros H. pose proof (no_header_prefix pre None H) as Hpre.
  fold initial in Hpre.
  assert (Happ : parse_loop initial (pre ++ rest)
                 = parse_loop (mkState [] [] None (pending_through None pre))
                              rest)
    by (by rewrite parse_loop_app, Hpre).
  split; [|split; [|split; [|split; [done|split; [done|]]]]].
  - intros Hrest. rewrite Happ. by apply parse_loop_ok.
  - intros st raw l Hc Hrow Hlong. by eapply step_row_long.
  - intros e He. split.
    + destruct (parse_loop_cases (pre ++ rest) initial) as [[st Hst] | Hr];
        congruence.
    + unfold parse_route_data, parse_refs. by rewrite He.
  - unfold parse_route_data, parse_refs. by rewrite Hpre.
Qed.

Lemma loop_never_raises_witness :
  Forall (fun raw => kind_of raw <> Header) Samples.early_rows /\
  Forall (fun raw => is_stop_row raw = true) Samples.early_rows /\
  Forall (fun raw => int_accepts_row raw = true) Samples.one_route /\
  (exists st, parse_loop initial (Samples.early_rows ++ Samples.one_route)
              = Ok st) /\
  parse_loop initial Samples.early_rows
    = Ok (mkState [] [] None (pending_through None Samples.early_rows)) /\
  parse_loop initial (Samples.early_rows ++ Samples.one_route)
    = parse_loop
        (mkState [] [] None (pending_through None Samples.early_rows))
        Samples.one_route /\
  parse_route_data Samples.early_rows = [].
Proof.
  assert (H : Forall (fun raw => kind_of raw <> Header) Samples.early_rows)
    by (repeat constructor; by vm_compute).
  assert (Hr : Forall (fun raw => int_accepts_row raw = true)
                      Samples.one_route)
    by (repeat constructor).
  destruct (loop_never_raises Samples.early_rows Samples.one_route H)
    as (Hok & _ & _ & Hpre & Happ & Hnone).
  split; [exact H|].
  split; [repeat constructor|].
  split; [exact Hr|].
  split; [exact (Hok Hr)|]. by repeat split.
Defined.

(** C9 does not hold as the specification words it, for every sequence of
    lines: under a header, after a first stop row, a stop row whose
    sequence number has 4301 digits makes [int] raise ValueError; the loop
    ends there and [parse_route_data] returns the empty list, the route
    read so far included. With one digit less the row is read. *)
Lemma long_sequence_number_raises :
  is_stop_row Samples.long_row = true /\
  length (leading_digits (strip Samples.long_row)) = 4301%nat /\
  int_accepts_row Samples.long_row = false /\
  parse_loop initial Samples.long_sequence = Raise ValueError /\
  parse_route_data Samples.long_sequence = [] /\
  map (fun r => length (stops r))
      (parse_route_data (take 2 Samples.long_sequence)) = [1%nat] /\
  map (fun r => length (stops r))
      (parse_route_data (take 2 Samples.long_sequence
                         ++ [drop 1 Samples.long_row])) = [2%nat].
Proof.
  split; [vm_compute; reflexivity|]. split; [vm_compute; reflexivity|].
  split; [vm_compute; reflexivity|]. split; [vm_compute; reflexivity|].
  split; [vm_compute; reflexivity|]. split; vm_compute; reflexivity.
Qed.

(** ** The pending banner *)

Lemma process_line_through st raw st' :
  process_line st raw = Ok st' ->
  current_route_through st'
    = pending_through (current_route_through st) [raw].
Proof.
  intros H. unfold pending_through. simpl. destruct (kind_of raw) eqn:Hk.
  - rewrite (step_blank _ _ Hk) in H. by injection H as <-.
  - rewrite (step_through _ _ Hk) in H. by injection H as <-.
  - destruct (step_header st raw Hk) as (? & ? & Hh). rewrite Hh in H.
    by injection H as <-.
  - by destruct (step_other st raw st' Hk H) as [-> | (? & ? & _ & _ & ->)].
Qed.

Lemma parse_loop_through lines : forall st st',
  parse_loop st lines = Ok st' ->
  current_route_through st'
    = pending_through (current_route_through st) lines.
Proof.
  induction lines as [|raw rest IH]; intros st st' H; simpl in H.
  - by injection H as <-.
  - destruct (process_line st raw) as [st1|] eqn:H1; [|done]. simpl in H.
    rewrite (IH _ _ H), (process_line_through _ _ _ H1). done.
Qed.

(** One object is allocated per header line, and nothing else is. *)
Lemma process_line_heap_length st raw st' :
  process_line st raw = Ok st' ->
  length (heap st') = length (heap st) + count_headers [raw].
Proof.
  intros H. unfold count_headers, is_header_line.
  destruct (kind_of raw) eqn:Hk.
  - rewrite (step_blank _ _ Hk) in H. injection H as <-.
    rewrite filter_cons_False by (by rewrite Hk). simpl. lia.
  - rewrite (step_through _ _ Hk) in H. injection H as <-.
    rewrite filter_cons_False by (by rewrite Hk). simpl. lia.
  - destruct (step_header st raw Hk) as (? & ? & Hh). rewrite Hh in H.
    injection H as <-.
    rewrite filter_cons_True by (by rewrite Hk). simpl.
    by rewrite length_app.
  - rewrite filter_cons_False by (by rewrite Hk).
    destruct (step_other st raw st' Hk H) as [-> | (? & ? & _ & _ & ->)];
      simpl; [lia|].
    unfold append_stop. rewrite length_alter. lia.
Qed.

Lemma parse_loop_heap_length lines : forall st st',
  parse_loop st lines = Ok st' ->
  length (heap st') = length (heap st) + count_headers lines.
Proof.
  induction lines as [|raw rest IH]; intros st st' H; simpl in H.
  - injection H as <-. unfold count_headers. simpl. lia.
  - destruct (process_line st raw) as [st1|] eqn:H1; [|done]. simpl in H.
    rewrite (IH _ _ H), (process_line_heap_length _ _ _ H1).
    unfold count_headers.
    change (raw :: rest) with ([raw] ++ rest).
    rewrite (filter_app _ [raw] rest), length_app. lia.
Qed.

(** Once a route object exists, its banner never changes. *)
Lemma process_line_keeps_through st raw st' l r :
  process_line st raw = Ok st' -> heap st !! l = Some r ->
  exists r', heap st' !! l = Some r' /\ route_through r' = route_through r.
Proof.
  intros H Hr. destruct (kind_of raw) eqn:Hk.
  - rewrite (step_blank _ _ Hk) in H. injection H as <-. eauto.
  - rewrite (step_through _ _ Hk) in H. injection H as <-. eauto.
  - destruct (step_header st raw Hk) as (? & ? & Hh). rewrite Hh in H.
    injection H as <-. simpl. exists r. split; [|done].
    rewrite lookup_app_l; [done|]. by eapply lookup_lt_Some.
  - destruct (step_other st raw st' Hk H) as [-> | (l' & d & _ & _ & ->)];
      [eauto|].
    simpl. unfold append_stop. destruct (decide (l' = l)) as [->|Hne].
    + rewrite list_lookup_alter_eq, Hr. simpl. eauto.
    + rewrite list_lookup_alter_ne by done. eauto.
Qed.

Lemma parse_loop_keeps_through lines : forall st st' l r,
  parse_loop st lines = Ok st' -> heap st !! l = Some r ->
  exists r', heap st' !! l = Some r' /\ route_through r' = route_through r.
Proof.
  induction lines as [|raw rest IH]; intros st st' l r H Hr; simpl in H.
  - injection H as <-. eauto.
  - destruct (process_line st raw) as [st1|] eqn:H1; [|done]. simpl in H.
    destruct (process_line_keeps_through _ _ _ _ _ H1 Hr) as (r1 & Hr1 & E1).
    destruct (IH _ _ _ _ H Hr1) as (r' & Hr' & E'). exists r'.
    split; [done | congruence].
Qed.

(** The route opened by a header carries the banner then in force. *)
Lemma header_takes_pending pre h post st :
  kind_of h = Header ->
  parse_loop initial (pre ++ h :: post) = Ok st ->
  exists r,
    heap st !! count_headers pre = Some r /\
    route_through r = default [] (pending_through None pre).
Proof.
  intros Hk Hst. rewrite parse_loop_app in Hst.
  destruct (parse_loop initial pre) as [s1|] eqn:H1; [|done].
  simpl in Hst.
  destruct (step_header s1 h Hk) as (number & name & Hh).
  rewrite Hh in Hst. simpl in Hst.
  pose proof (parse_loop_heap_length _ _ _ H1) as Hlen. simpl in Hlen.
  pose proof (parse_loop_through _ _ _ H1) as Hthr. simpl in Hthr.
  destruct (parse_loop_keeps_through _ _ _ (length (heap s1))
               (mkRoute number name
                  (default [] (current_route_through s1)) []) Hst)
    as (r & Hr & Er).
  { simpl. by rewrite lookup_app_r, Nat.sub_diag by lia. }
  exists r. rewrite <- Hlen, <- Hthr. done.
Qed.

(** A stop row whose sequence number [int] accepts, read while a route is
    open, appends one stop to it. *)
Lemma step_row st raw l :
  is_valid_row raw = true -> current_route st = Some l ->
  exists d,
    process_line st raw =
      Ok (mkState (append_stop (heap st) l d) (routes st) (Some l)
                  (current_route_through st)).
Proof.
  unfold is_valid_row, is_stop_row, int_accepts_row, kind_of, process_line.
  destruct (is_blank _); [done|]. destruct (is_through _); [done|].
  destruct (is_header _); [done|]. intros [Hrow Hacc]%andb_prop ->.
  destruct (re_match stop_re _) as [m|] eqn:Hm; [|done].
  destruct (stop_re_groups _ _ Hm)
    as (g1 & g2 & g3 & f & -> & -> & -> & Hne & Hdig & Hlead & Hf).
  rewrite Hlead in Hacc.
  destruct (py_int_ok g1) as [n Hn]; [done..|].
  simpl. rewrite Hn. simpl. rewrite Hf. simpl. eauto.
Qed.

Lemma rows_loop rows : forall st l r,
  Forall (fun raw => is_valid_row raw = true) rows ->
  current_route st = Some l -> heap st !! l = Some r ->
  exists st' ds,
    parse_loop st rows = Ok st' /\
    length ds = length rows /\
    heap st' !! l = Some (mkRoute (route_number r) (route_name r)
                                  (route_through r) (stops r ++ ds)) /\
    (forall l', l' <> l -> heap st' !! l' = heap st !! l') /\
    length (heap st') = length (heap st) /\
    routes st' = routes st /\ current_route st' = Some l /\
    current_route_through st' = current_route_through st.
Proof.
  induction rows as [|raw rows IH]; intros st l r Hrows Hc Hr.
  - exists st, []. rewrite app_nil_r. destruct r. simpl. by repeat split.
  - apply Forall_cons in Hrows as [Hraw Hrows].
    destruct (step_row st raw l Hraw Hc) as [d Hstep].
    edestruct (IH (mkState (append_stop (heap st) l d) (routes st) (Some l)
                           (current_route_through st)) l)
      as (st' & ds & Hloop & Hlen & Hl & Hother & Hsize & ? & ? & ?);
      [done | done | |].
    { simpl. unfold append_stop. by rewrite list_lookup_alter_eq, Hr. }
    simpl in *. exists st', (d :: ds). rewrite Hstep. simpl.
    split; [done|]. split; [by rewrite Hlen|].
    split; [by rewrite Hl, <- app_assoc|].
    split.
    { intros l' Hne. rewrite (Hother l' Hne). unfold append_stop.
      by rewrite list_lookup_alter_ne. }
    split; [|done]. rewrite Hsize. unfold append_stop.
    by rewrite length_alter.
Qed.

(** The scenario of the specification: one banner, then two headers, each
    followed by stop rows. *)
Lemma banner_then_two_routes b h1 h2 rows1 rows2 :
  kind_of b = Through -> kind_of h1 = Header -> kind_of h2 = Header ->
  rows1 <> [] -> rows2 <> [] ->
  Forall (fun raw => is_valid_row raw = true) rows1 ->
  Forall (fun raw => is_valid_row raw = true) rows2 ->
  exists r1 r2,
    parse_route_data (b :: h1 :: rows1 ++ h2 :: rows2) = [r1; r2] /\
    route_through r1 = through_text b /\
    route_through r2 = through_text b /\
    length (stops r1) = length rows1 /\
    length (stops r2) = length rows2.
Proof.
  intros Hb Hh1 Hh2 Hne1 Hne2 Hrows1 Hrows2.
  unfold parse_route_data, parse_refs. simpl.
  rewrite (step_through _ _ Hb). simpl.
  change (flush initial) with (@nil nat).
  destruct (step_header (mkState [] [] None (Some (through_text b))) h1 Hh1)
    as (n1 & m1 & ->). simpl.
  change (flush (mkState [] [] None (Some (through_text b))))
    with (@nil nat).
  rewrite parse_loop_app.
  edestruct (rows_loop rows1
               (mkState [mkRoute n1 m1 (through_text b) []] [] (Some 0)
                        (Some (through_text b))) 0)
    as (s3 & ds1 & -> & Hlen1 & Hr1 & _ & Hsize1 & Hroutes1 & Hcur1 & Hthr1);
    [done | done | done |].
  simpl in *.
  assert (Hs3 : has_stops s3 = true).
  { unfold has_stops. rewrite Hcur1, Hr1. simpl. apply negb_true_iff.
    apply bool_decide_eq_false. intros ->. destruct rows1; done. }
  destruct (step_header s3 h2 Hh2) as (n2 & m2 & ->). simpl.
  rewrite (flush_true _ _ Hs3 Hcur1), Hroutes1, Hthr1, Hsize1. simpl.
  edestruct (rows_loop rows2
               (mkState (heap s3 ++ [mkRoute n2 m2 (through_text b) []])
                        [0] (Some 1) (Some (through_text b))) 1)
    as (s5 & ds2 & -> & Hlen2 & Hr2 & Hother2 & _ & Hroutes2 & Hcur2 & _);
    [done | done | |].
  { simpl. by rewrite lookup_app_r, Hsize1 by lia. }
  simpl in *.
  assert (Hs5 : has_stops s5 = true).
  { unfold has_stops. rewrite Hcur2, Hr2. simpl. apply negb_true_iff.
    apply bool_decide_eq_false. intros ->. destruct rows2; done. }
  rewrite (flush_true _ _ Hs5 Hcur2), Hroutes2. simpl.
  rewrite (Hother2 0) by lia.
  rewrite lookup_app_l by lia. rewrite Hr1, Hr2. simpl.
  eexists _, _. split; [done|]. simpl. by repeat split.
Qed.

(** C4. A through-marker line records its text without the marker as the
    pending annotation, and the annotation is sticky: whenever the loop
    ends without raising, the route opened by any header line carries the
    annotation of the last through-marker line before it (the empty string
    when there is none), until another through-marker line replaces it. In
    particular one banner followed by two headers, each with valid stop
    rows (rows of the stop pattern whose sequence number [int] accepts),
    gives two routes that both carry the banner text. *)
Theorem through_marker_is_sticky
    (pre post rows1 rows2 : list pystr) (h b h1 h2 : pystr) (st : pstate) :
  kind_of h = Header ->
  kind_of b = Through -> kind_of h1 = Header -> kind_of h2 = Header ->
  rows1 <> [] -> rows2 <> [] ->
  Forall (fun raw => is_valid_row raw = true) rows1 ->
  Forall (fun raw => is_valid_row raw = true) rows2 ->
  parse_loop initial (pre ++ h :: post) = Ok st ->
  pending_through None (pre ++ [b]) = Some (through_text b) /\
  (exists r,
     heap st !! count_headers pre = Some r /\
     route_through r = default [] (pending_through None pre)) /\
  (exists r1 r2,
     parse_route_data (b :: h1 :: rows1 ++ h2 :: rows2) = [r1; r2] /\
     route_through r1 = through_text b /\
     route_through r2 = through_text b /\
     length (stops r1) = length rows1 /\
     length (stops r2) = length rows2).
Proof.
  intros Hh Hb Hh1 Hh2 Hne1 Hne2 Hrows1 Hrows2 Hst.
  split; [|split].
  - unfold pending_through. rewrite fold_left_app. simpl. by rewrite Hb.
  - exact (header_takes_pending pre h post st Hh Hst).
  - by apply banner_then_two_routes.
Qed.

Lemma through_marker_is_sticky_witness :
  through_text Samples.banner = u8 "මහනුවර" /\
  pending_through None
      ((Samples.banner :: Samples.header_a :: Samples.rows_a)
       ++ [Samples.banner])
    = Some (through_text Samples.banner) /\
  (exists st r,
     parse_loop initial
       ((Samples.banner :: Samples.header_a :: Samples.rows_a)
        ++ Samples.header_b :: Samples.rows_b) = Ok st /\
     heap st !! count_headers
                  (Samples.banner :: Samples.header_a :: Samples.rows_a)
       = Some r /\
     route_through r
       = default [] (pending_through None
                       (Samples.banner :: Samples.header_a
                        :: Samples.rows_a))) /\
  (exists r1 r2,
     parse_route_data
       (Samples.banner :: Samples.header_a
        :: Samples.rows_a ++ Samples.header_b :: Samples.rows_b) = [r1; r2] /\
     route_through r1 = through_text Samples.banner /\
     route_through r2 = through_text Samples.banner /\
     length (stops r1) = length Samples.rows_a /\
     length (stops r2) = length Samples.rows_b).
Proof.
  split; [vm_compute; reflexivity|].
  assert (Hb : kind_of Samples.banner = Through) by (vm_compute; reflexivity).
  assert (Ha : kind_of Samples.header_a = Header) by (vm_compute; reflexivity).
  assert (Hh : kind_of Samples.header_b = Header) by (vm_compute; reflexivity).
  assert (Hra : Forall (fun raw => is_valid_row raw = true) Samples.rows_a)
    by (repeat constructor).
  assert (Hrb : Forall (fun raw => is_valid_row raw = true) Samples.rows_b)
    by (repeat constructor).
  assert (Hna : Samples.rows_a <> []) by discriminate.
  assert (Hnb : Samples.rows_b <> []) by discriminate.
  destruct (parse_loop_ok
              ((Samples.banner :: Samples.header_a :: Samples.rows_a)
               ++ Samples.header_b :: Samples.rows_b) initial)
    as [st Hst]; [repeat constructor|].
  destruct (through_marker_is_sticky
              (Samples.banner :: Samples.header_a :: Samples.rows_a)
              Samples.rows_b Samples.rows_a Samples.rows_b
              Samples.header_b Samples.banner Samples.header_a
              Samples.header_b st
              Hh Hb Ha Hh Hna Hnb Hra Hrb Hst)
    as (Hpend & (r & Hr & Hthr) & Htwo).
  split; [exact Hpend|]. split; [|exact Htwo].
  exists st, r. by repeat split.
Defined.

(** ** into-csv/parse_bus_routes.py: the fare differences *)

Lemma alter_last (f : dict -> dict) (s : list dict) (d : dict) :
  alter f (length s) (s ++ [d]) = s ++ [f d].
Proof.
  rewrite <- (Nat.add_0_r (length s)). by rewrite alter_app_r.
Qed.

(** The loop, from any index on: [news] are the dicts created so far, and
    [prev] the fare of the stop before the one at index [i]. *)
Lemma enhance_loop_spec (s0 : store) (stops : list nat) :
  forall todo ds fs i enhanced news prev,
    Forall2 (fun l d => s0 !! l = Some d) todo ds ->
    Forall2 has_fare ds fs ->
    length news = i ->
    match i with
    | O => prev = None
    | S j => exists lp dp p, stops !! j = Some lp /\ s0 !! lp = Some dp /\
                             has_fare dp p /\ prev = Some p
    end ->
    (forall k l, todo !! k = Some l -> stops !! (i + k) = Some l) ->
    enhance_loop stops i todo enhanced (s0 ++ news)
      = Ok (enhanced ++ seq (length s0 + i) (length todo),
            s0 ++ news ++ zip_with with_previous ds (deltas_at prev fs)).
Proof.
  induction todo as [|stop rest IH];
    intros ds fs i enhanced news prev Hds Hfs Hlen Hprev Hsuffix.
  - apply Forall2_nil_inv_l in Hds as ->.
    apply Forall2_nil_inv_l in Hfs as ->. simpl.
    by rewrite !app_nil_r.
  - apply Forall2_cons_inv_l in Hds as (d & ds' & Hd & Hds & ->).
    apply Forall2_cons_inv_l in Hfs as (f & fs' & Hf & Hfs & ->).
    assert (Hin : forall l x, s0 !! l = Some x ->
                              ((s0 ++ news) ++ [d]) !! l = Some x).
    { intros l x Hl. rewrite <- app_assoc.
      rewrite lookup_app_l; [done|]. by eapply lookup_lt_Some. }
    assert (Hnow : (s0 ++ news) !! stop = Some d).
    { rewrite lookup_app_l; [done|]. by eapply lookup_lt_Some. }
    cbn [enhance_loop]. rewrite Hnow. cbn [of_option bind].
    assert (Hv :
      match i with
      | 0 =>
          cur <- of_option KeyError (((s0 ++ news) ++ [d]) !! stop) ;;
          getitem cur "fare_from_start"
      | S j =>
          prev0 <- of_option KeyError
                     (stops !! j ≫= fun l => ((s0 ++ news) ++ [d]) !! l) ;;
          prev_fare <- getitem prev0 "fare_from_start" ;;
          cur <- of_option KeyError (((s0 ++ news) ++ [d]) !! stop) ;;
          cur_fare <- getitem cur "fare_from_start" ;;
          py_sub cur_fare prev_fare
      end = Ok (VFloat match prev with None => f | Some p => fsub f p end)).
    { rewrite (Hin _ _ Hd). destruct i as [|j].
      - subst prev. cbn [of_option bind]. unfold getitem. by rewrite Hf.
      - destruct Hprev as (lp & dp & p & Hlp & Hdp & Hp & ->).
        rewrite Hlp. cbn [mbind option_bind]. rewrite (Hin _ _ Hdp).
        cbn [of_option bind]. unfold getitem. by rewrite Hp, Hf. }
    rewrite Hv. cbn [bind].
    assert (Hsize : length (s0 ++ news) = length s0 + i)
      by (rewrite length_app; lia).
    rewrite alter_last, Hsize, <- app_assoc.
    rewrite (IH ds' fs' (S i) _ _ (Some f)); [| done | done | | |].
    + cbn [length seq deltas_at zip_with]. f_equal. f_equal.
      * rewrite <- app_assoc. simpl. by rewrite Nat.add_succ_r.
      * by rewrite <- !app_assoc.
    + rewrite length_app. simpl. lia.
    + exists stop, d, f. repeat split; [|done..].
      specialize (Hsuffix 0 stop eq_refl). by rewrite Nat.add_0_r in Hsuffix.
    + intros k l Hk. specialize (Hsuffix (S k) l Hk).
      by replace (S i + k) with (i + S k) by lia.
Qed.

(** [calculate_fare_differences] as a function of the store: it creates one
    dict per stop, after the objects that exist, each a copy of its stop with
    the fare difference added. *)
Lemma calculate_fare_differences_spec (s0 : store) stops ds fs :
  Forall2 (fun l d => s0 !! l = Some d) stops ds ->
  Forall2 has_fare ds fs ->
  calculate_fare_differences stops s0
    = Ok (seq (length s0) (length stops),
          s0 ++ zip_with with_previous ds (deltas fs)).
Proof.
  intros Hds Hfs. unfold calculate_fare_differences.
  pose proof (enhance_loop_spec s0 stops stops ds fs 0 [] [] None
                Hds Hfs eq_refl eq_refl (fun k l H => H)) as H.
  rewrite app_nil_r, Nat.add_0_r in H. exact H.
Qed.

Lemma length_deltas_at fs : forall prev,
  length (deltas_at prev fs) = length fs.
Proof.
  induction fs as [|f fs IH]; intros prev; simpl; [done|]. by rewrite IH.
Qed.

(** C10. [calculate_fare_differences] only adds: for a list of stops that
    each have a fare, it returns as many dicts as there are stops, in the
    same order; every dict returned is a new object (none of those that
    existed, no two the same) and is the dict of its stop with the single
    key 'fare_from_previous' set, so that every other key is read as in the
    stop; and every object that existed before the call, the stops among
    them, is unchanged after it. *)
Theorem fare_differences_frame
    (s0 : store) (stops : list nat) (ds : list dict) (fs : list float) :
  Forall2 (fun l d => s0 !! l = Some d) stops ds ->
  Forall2 has_fare ds fs ->
  exists out s',
    calculate_fare_differences stops s0 = Ok (out, s') /\
    length out = length stops /\
    (forall l d, s0 !! l = Some d -> s' !! l = Some d) /\
    NoDup out /\
    (forall o, o ∈ out -> length s0 <= o) /\
    (forall i l d, stops !! i = Some l -> s0 !! l = Some d ->
       exists o v,
         out !! i = Some o /\
         s' !! o = Some (<["fare_from_previous" := v]> d) /\
         (forall k, k <> "fare_from_previous" ->
                    (<["fare_from_previous" := v]> d) !! k = d !! k)).
Proof.
  intros Hds Hfs.
  rewrite (calculate_fare_differences_spec s0 stops ds fs Hds Hfs).
  eexists _, _. split; [done|].
  split; [by rewrite length_seq|].
  split.
  { intros l d Hl. rewrite lookup_app_l; [done|]. by eapply lookup_lt_Some. }
  split; [apply NoDup_seq|].
  split.
  { intros o Ho. apply elem_of_seq in Ho. lia. }
  intros i l d Hi Hl.
  destruct (Forall2_lookup_l _ _ _ _ _ Hds Hi) as (d' & Hd' & Hl').
  assert (d' = d) as -> by congruence.
  destruct (Forall2_lookup_l _ _ _ _ _ Hfs Hd') as (f & Hf & _).
  assert (Hi' : i < length (deltas fs)).
  { unfold deltas. rewrite length_deltas_at. by eapply lookup_lt_Some. }
  destruct (lookup_lt_is_Some_2 _ _ Hi') as [delta Hdelta].
  exists (length s0 + i), (VFloat delta).
  split; [apply lookup_seq; split; [done | by eapply lookup_lt_Some]|].
  split.
  - rewrite lookup_app_r by lia. rewrite Nat.add_sub'.
    rewrite lookup_zip_with, Hd'. simpl. by rewrite Hdelta.
  - intros k Hk. by rewrite lookup_insert_ne.
Qed.

Lemma fare_differences_frame_witness :
  let s0 := [ stop_dict 0 (asc "Fort") fzero;
              stop_dict 1 (asc "Kandy") Samples.f0_9 ] in
  exists out s',
    calculate_fare_differences [0; 1] s0 = Ok (out, s') /\
    length out = 2 /\
    (forall l d, s0 !! l = Some d -> s' !! l = Some d) /\
    NoDup out /\
    (forall o, o ∈ out -> length s0 <= o) /\
    (forall i l d, [0; 1] !! i = Some l -> s0 !! l = Some d ->
       exists o v,
         out !! i = Some o /\
         s' !! o = Some (<["fare_from_previous" := v]> d) /\
         (forall k, k <> "fare_from_previous" ->
                    (<["fare_from_previous" := v]> d) !! k = d !! k)).
Proof.
  exact (fare_differences_frame
           [ stop_dict 0 (asc "Fort") fzero;
             stop_dict 1 (asc "Kandy") Samples.f0_9 ]
           [0; 1]
           [ stop_dict 0 (asc "Fort") fzero;
             stop_dict 1 (asc "Kandy") Samples.f0_9 ]
           [fzero; Samples.f0_9]
           ltac:(repeat constructor) ltac:(repeat constructor)).
Defined.

Lemma deltas_at_lookup fs : forall prev i f g,
  fs !! i = Some f -> fs !! S i = Some g ->
  deltas_at prev fs !! S i = Some (fsub g f).
Proof.
  induction fs as [|x fs IH]; intros prev i f g Hf Hg; [done|].
  destruct i as [|i]; simpl in *.
  - injection Hf as ->. destruct fs as [|y fs]; [done|].
    simpl in *. by injection Hg as ->.
  - by apply IH.
Qed.

(** Without rounding the differences telescope. *)
Lemma exact_sum_telescopes fs : forall prev,
  exact_deltas prev fs ->
  (exact_sum (deltas_at prev fs)
   == exact (default (default fzero prev) (last fs))
      - exact (default fzero prev))%Q.
Proof.
  induction fs as [|f fs IH]; intros prev H.
  - simpl. lra.
  - destruct H as [Hf Hrest]. specialize (IH (Some f) Hrest).
    cbn [deltas_at exact_sum fold_right].
    fold (exact_sum (deltas_at (Some f) fs)).
    rewrite IH. cbn [default from_option id].
    replace (default (from_option id fzero prev) (last (f :: fs)))
      with (default f (last fs)).
    2:{ destruct fs as [|g fs]; [done|]. rewrite last_cons_cons.
        destruct (last (g :: fs)) eqn:E; [done|].
        by apply last_None in E. }
    destruct prev as [p|]; cbn [from_option id].
    + destruct Hf as [_ Hf]. rewrite Hf. lra.
    + change (exact fzero) with 0%Q. lra.
Qed.

Lemma exact_deltas_finite fs : forall prev,
  exact_deltas prev fs ->
  Forall (fun x => is_finite x = true) (deltas_at prev fs).
Proof.
  induction fs as [|f fs IH]; intros prev H; simpl; [constructor|].
  destruct H as [Hf Hrest]. constructor; [|by apply IH].
  destruct prev; [apply Hf | done].
Qed.

(** C2, in the form that holds of the code. For a route whose stops each have
    a fare, [calculate_fare_differences] returns dicts in which
    'fare_from_previous' is, for the first stop, its 'fare_from_start', and
    for every later stop the binary64 difference of its 'fare_from_start' and
    that of the stop just before it in the list. When each of these
    differences is a number and was computed without rounding, they are all
    numbers and their exact sum is the exact value of the last stop's
    'fare_from_start'. *)
Theorem fare_differences_values
    (s0 : store) (stops : list nat) (ds : list dict) (fs : list float) :
  stops <> [] ->
  Forall2 (fun l d => s0 !! l = Some d) stops ds ->
  Forall2 has_fare ds fs ->
  exists out s' es,
    calculate_fare_differences stops s0 = Ok (out, s') /\
    Forall2 (fun o e => s' !! o = Some e) out es /\
    map (float_at "fare_from_previous") es = map Some (deltas fs) /\
    head (deltas fs) = head fs /\
    (forall i f g, fs !! i = Some f -> fs !! S i = Some g ->
                   deltas fs !! S i = Some (fsub g f)) /\
    (exact_deltas None fs ->
       Forall (fun x => is_finite x = true) (deltas fs) /\
       (exact_sum (deltas fs) == exact (last_fare fs))%Q).
Proof.
  intros Hne Hds Hfs.
  rewrite (calculate_fare_differences_spec s0 stops ds fs Hds Hfs).
  assert (Hlen : length ds = length (deltas fs)).
  { unfold deltas. rewrite length_deltas_at. by eapply Forall2_length. }
  exists (seq (length s0) (length stops)),
         (s0 ++ zip_with with_previous ds (deltas fs)),
         (zip_with with_previous ds (deltas fs)).
  split; [done|]. split; [|split; [|split; [|split]]].
  - apply Forall2_same_length_lookup. split.
    + rewrite length_seq, length_zip_with.
      rewrite <- Hlen, Nat.min_id. by eapply Forall2_length.
    + intros i o e Ho He. apply lookup_seq in Ho as [-> _].
      rewrite lookup_app_r by lia. by rewrite Nat.add_sub'.
  - revert Hlen. generalize (deltas fs). clear.
    induction ds as [|d ds IH]; intros [|x xs] Hlen; simpl in *; try done.
    rewrite IH by lia. f_equal. unfold float_at, with_previous.
    by rewrite lookup_insert_eq.
  - by destruct fs.
  - intros i f g. apply deltas_at_lookup.
  - intros Hex. split; [by apply exact_deltas_finite|].
    unfold deltas, last_fare. rewrite (exact_sum_telescopes fs None Hex).
    cbn [default from_option id]. change (exact fzero) with 0%Q. lra.
Qed.

Lemma fare_differences_values_witness :
  let ds := map (fun f => stop_dict 0 [] f) Samples.exact_fares in
  exact_deltas None Samples.exact_fares /\
  exists out s' es,
    calculate_fare_differences [0; 1; 2] ds = Ok (out, s') /\
    Forall2 (fun o e => s' !! o = Some e) out es /\
    map (float_at "fare_from_previous") es
      = map Some (deltas Samples.exact_fares) /\
    head (deltas Samples.exact_fares) = head Samples.exact_fares /\
    (forall i f g, Samples.exact_fares !! i = Some f ->
                   Samples.exact_fares !! S i = Some g ->
                   deltas Samples.exact_fares !! S i = Some (fsub g f)) /\
    (exact_deltas None Samples.exact_fares ->
       Forall (fun x => is_finite x = true) (deltas Samples.exact_fares) /\
       (exact_sum (deltas Samples.exact_fares)
        == exact (last_fare Samples.exact_fares))%Q).
Proof.
  split.
  - repeat split; vm_compute; reflexivity.
  - exact (fare_differences_values
             (map (fun f => stop_dict 0 [] f) Samples.exact_fares)
             [0; 1; 2]
             (map (fun f => stop_dict 0 [] f) Samples.exact_fares)
             Samples.exact_fares
             ltac:(discriminate) ltac:(repeat constructor)
             ltac:(repeat constructor)).
Defined.

(** C2 does not hold as the specification words it: with the fares 0.20 and
    0.90 the differences are 0.2 and 0.7, whose sum is not 0.9, neither as
    Python adds floats nor exactly. *)
Lemma telescoping_sum_fails :
  map (fun r => map (float_at "fare_from_start") (stops r))
      (parse_route_data Samples.dime_route)
    = [[Some Samples.f0_2; Some Samples.f0_9]] /\
  map (fun r => previous_fares (stops r))
      (parse_route_data Samples.dime_route)
    = [Ok [Some Samples.f0_2; Some Samples.f0_7]] /\
  float_sum [Samples.f0_2; Samples.f0_7] = Samples.f0_9_below /\
  float_sum [Samples.f0_2; Samples.f0_7] <> Samples.f0_9 /\
  ~ (exact_sum [Samples.f0_2; Samples.f0_7] == exact Samples.f0_9)%Q.
Proof.
  split; [vm_compute; reflexivity|].
  split; [vm_compute; reflexivity|].
  split; [vm_compute; reflexivity|].
  split; [by vm_compute|].
  by vm_compute.
Qed.

(** ** Scanning a text for matches *)

Lemma match_at_sound r pos rest b m :
  match_at r pos rest b = Some m -> matches r (MState pos rest []) m.
Proof.
  unfold match_at. intros H. apply rmatch_sound in H as (s' & Hm & Hk).
  destruct (b && Nat.eqb (mpos s') pos); [done|]. by injection Hk as <-.
Qed.

(** Every match found by a scan is a match of the pattern somewhere. *)
Lemma scan_sound r rest : forall pos skip start m,
  TMatch start m ∈ scan r pos rest skip ->
  exists rest', matches r (MState start rest' []) m.
Proof.
  induction rest as [|c t IH]; intros pos skip start m Hin.
  - destruct skip; simpl in Hin; [|by apply elem_of_nil in Hin].
    destruct (match_at r pos [] false) as [m0|] eqn:H0;
      [|by apply elem_of_nil in Hin].
    destruct (Nat.eqb (mpos m0) pos).
    + apply elem_of_cons in Hin as [[= -> ->]|Hin];
        [by eexists; eapply match_at_sound|].
      destruct (match_at r pos [] true) as [m1|] eqn:H1;
        [|by apply elem_of_nil in Hin].
      apply list_elem_of_singleton in Hin as [= -> ->].
      by eexists; eapply match_at_sound.
    + apply list_elem_of_singleton in Hin as [= -> ->].
      by eexists; eapply match_at_sound.
  - destruct skip; simpl in Hin; [|by eapply IH].
    destruct (match_at r pos (c :: t) false) as [m0|] eqn:H0.
    + destruct (Nat.eqb (mpos m0) pos).
      * apply elem_of_cons in Hin as [[= -> ->]|Hin];
          [by eexists; eapply match_at_sound|].
        destruct (match_at r pos (c :: t) true) as [m1|] eqn:H1.
        -- apply elem_of_cons in Hin as [[= -> ->]|Hin];
             [by eexists; eapply match_at_sound | by eapply IH].
        -- apply elem_of_cons in Hin as [[=]|Hin]. by eapply IH.
      * apply elem_of_cons in Hin as [[= -> ->]|Hin];
          [by eexists; eapply match_at_sound | by eapply IH].
    + apply elem_of_cons in Hin as [[=]|Hin]. by eapply IH.
Qed.

Lemma finditer_sound r s m :
  m ∈ finditer r s -> exists start rest, matches r (MState start rest []) m.
Proof.
  unfold finditer, tokens. intros Hin.
  apply list_elem_of_omap in Hin as (t & Ht & Hm).
  destruct t as [|start m']; [done|]. injection Hm as ->.
  apply scan_sound in Ht as [rest Hr]. eauto.
Qed.

Lemma search_from_sound r rest : forall pos m,
  search_from r pos rest = Some m ->
  exists start rest', matches r (MState start rest' []) m.
Proof.
  induction rest as [|c t IH]; intros pos m H; simpl in H.
  - destruct (match_at r pos [] false) eqn:H0; [|done].
    injection H as ->. eauto using match_at_sound.
  - destruct (match_at r pos (c :: t) false) eqn:H0.
    + injection H as ->. eauto using match_at_sound.
    + by eapply IH.
Qed.

(** A scan that finds no match returns the text, character by character. *)
Lemma scan_no_match r rest : forall pos,
  (forall start m, TMatch start m ∉ scan r pos rest 0) ->
  scan r pos rest 0 = map TChar rest.
Proof.
  induction rest as [|c t IH]; intros pos Hno; simpl in *.
  - destruct (match_at r pos [] false) as [m0|]; [|done].
    exfalso. destruct (Nat.eqb (mpos m0) pos);
      apply (Hno pos m0), elem_of_cons; by left.
  - destruct (match_at r pos (c :: t) false) as [m0|].
    + exfalso. destruct (Nat.eqb (mpos m0) pos);
        apply (Hno pos m0), elem_of_cons; by left.
    + f_equal. apply IH. intros start m Hin.
      apply (Hno start m), elem_of_cons. by right.
Qed.

Lemma split_tokens_chars s : forall cur,
  split_tokens cur (map TChar s) = [rev cur ++ s].
Proof.
  induction s as [|c s IH]; intros cur; simpl.
  - by rewrite app_nil_r.
  - rewrite IH. simpl. by rewrite <- app_assoc.
Qed.

(** When the pattern matches nowhere, [re.split] returns the whole text as
    its only piece. *)
Lemma re_split_no_match r s : finditer r s = [] -> re_split r s = [s].
Proof.
  unfold finditer, re_split, tokens. intros Hnone.
  rewrite scan_no_match; [apply split_tokens_chars|].
  intros start m Hin.
  assert (Hm : m ∈ omap (fun t => match t with
                                  | TMatch _ m => Some m
                                  | TChar _ => None
                                  end) (scan r 0 s 0)).
  { apply list_elem_of_omap. by exists (TMatch start m). }
  rewrite Hnone in Hm. by apply elem_of_nil in Hm.
Qed.

(** ** Segmentation into pages *)

Lemma process_pages_skips_blank pages :
  ProcessRoutes.process_pages pages
  = ProcessRoutes.process_pages (filter (fun p => strip p <> []) pages).
Proof.
  induction pages as [|p rest IH]; [done|].
  destruct (decide (strip p = [])) as [Hp|Hp].
  - rewrite filter_cons_False by (by intros ?). simpl. by rewrite Hp.
  - rewrite filter_cons_True by done. simpl. rewrite <- IH.
    destruct (strip p); [done|].
    destruct (ProcessRoutes.extract_route_data p) as [rd|]; [|done].
    by destruct (ProcessRoutes.stops rd).
Qed.

(** C7. When the page marker matches nowhere, the whole document is the
    only segment, both in process_routes.py and in
    Step_2/extract_bus_routes.py; and a segment that is empty once trimmed
    is passed over by both page loops: it adds nothing to the result, which
    is the one obtained without it, and nothing is raised since the loops
    are total. *)
Theorem segmentation_without_markers (content : pystr) (pages : list pystr)
    (page_num : nat) :
  (finditer ProcessRoutes.page_re content = [] ->
     re_split ProcessRoutes.page_re content = [content] /\
     ProcessRoutes.process_text_file content
       = ProcessRoutes.process_pages [content]) /\
  (finditer ExtractBusRoutes.page_re content = [] ->
     ExtractBusRoutes.pages_of content = [content] /\
     ExtractBusRoutes.extract_routes_from_txt content
       = ExtractBusRoutes.extract_pages 0 [content]) /\
  (forall p, strip p = [] ->
     ProcessRoutes.process_pages (p :: pages)
       = ProcessRoutes.process_pages pages /\
     ExtractBusRoutes.extract_pages page_num (p :: pages)
       = ExtractBusRoutes.extract_pages (S page_num) pages) /\
  ProcessRoutes.process_pages pages
    = ProcessRoutes.process_pages (filter (fun p => strip p <> []) pages).
Proof.
  split; [|split; [|split]].
  - intros H. unfold ProcessRoutes.process_text_file.
    by rewrite (re_split_no_match _ _ H).
  - intros H. unfold ExtractBusRoutes.extract_routes_from_txt,
      ExtractBusRoutes.pages_of.
    by rewrite (re_split_no_match _ _ H).
  - intros p Hp. simpl. by rewrite Hp.
  - apply process_pages_skips_blank.
Qed.

Lemma segmentation_without_markers_witness :
  finditer ProcessRoutes.page_re Samples.page_a = [] /\
  finditer ExtractBusRoutes.page_re Samples.page_a = [] /\
  re_split ProcessRoutes.page_re Samples.page_a = [Samples.page_a] /\
  ExtractBusRoutes.pages_of Samples.page_a = [Samples.page_a] /\
  re_split ProcessRoutes.page_re Samples.document
    = [ []; [NL] ++ Samples.page_a ++ [NL]; [NL; SPACE; NL];
        [NL] ++ Samples.page_b ] /\
  ProcessRoutes.process_pages
      [ []; [NL] ++ Samples.page_a ++ [NL]; [NL; SPACE; NL];
        [NL] ++ Samples.page_b ]
    = ProcessRoutes.process_pages
        [ [NL] ++ Samples.page_a ++ [NL]; [NL; SPACE; NL];
          [NL] ++ Samples.page_b ] /\
  length (ProcessRoutes.process_text_file Samples.document) = 2.
Proof.
  assert (H1 : finditer ProcessRoutes.page_re Samples.page_a = [])
    by (by vm_compute).
  assert (H2 : finditer ExtractBusRoutes.page_re Samples.page_a = [])
    by (by vm_compute).
  pose proof (segmentation_without_markers Samples.page_a
                [ [NL] ++ Samples.page_a ++ [NL]; [NL; SPACE; NL];
                  [NL] ++ Samples.page_b ] 0) as (Ha & Hb & Hc & _).
  split; [exact H1|]. split; [exact H2|].
  split; [exact (proj1 (Ha H1))|]. split; [exact (proj1 (Hb H2))|].
  split; [by vm_compute|].
  split; [exact (proj1 (Hc [] eq_refl))|].
  by vm_compute.
Defined.

(** ** process_routes.py: the two stop-row grammars *)

Lemma collect_length f ms : forall st,
  ProcessRoutes.collect f ms = Ok st -> length st = length ms.
Proof.
  induction ms as [|m ms IH]; intros st H; simpl in H.
  - by injection H as <-.
  - destruct (f m) as [d|]; [|done]. simpl in H.
    destruct (ProcessRoutes.collect f ms) as [ds|]; [|done]. simpl in H.
    injection H as <-. simpl. by rewrite (IH ds).
Qed.

(** A match of pattern 2 sets group 1 to a run of digits and sets group 2,
    so that the fallback loop can raise in [int] only. *)
Lemma stop_pattern2_groups m start rest :
  matches ProcessRoutes.stop_pattern2 (MState start rest []) m ->
  exists g1 g2, group m 1 = Some g1 /\ group m 2 = Some g2 /\
                g1 <> [] /\ forallb is_decimal g1 = true.
Proof.
  unfold ProcessRoutes.stop_pattern2. cbn [cat]. intros Hm.
  inv_seq Hm Hg1 Hm1. inv_seq Hm1 Hs1 Hm2. inv_seq Hm2 Hg2 Hlook.
  apply matches_group_inv in Hg1 as (a1 & g1 & Hd1 & E1 & _ & ->).
  apply matches_rep_inv in Hd1 as (w1 & E1' & _ & _ & D1 & L1).
  apply matches_rep_inv in Hs1 as (_ & _ & _ & G1 & _).
  apply matches_group_inv in Hg2 as (a2 & g2 & Hd2 & _ & _ & ->).
  apply matches_rep_inv in Hd2 as (_ & _ & _ & G2 & _).
  assert (g1 = w1) as -> by (rewrite E1' in E1; by apply app_inv_tail in E1).
  assert (Hne : w1 <> []) by (intros ->; simpl in L1; lia).
  assert (Hgs : mgroups m = (2, g2) :: (1, w1) :: mgroups a1).
  { inversion Hlook as [| | | | | | | | | |? ? s' Hin| |]; subst. simpl.
    assert (mgroups s' = (2, g2) :: mgroups a2) as ->; [|by rewrite G2, G1].
    inversion Hin as [| | | |? ? ? ? Hl|? ? ? ? Hr| | | | | | |]; subst.
    - inv_seq Hl H1 Hl1. inv_seq Hl1 H2 Hl2. inv_seq Hl2 H3 H4.
      inversion H1; subst. inversion H4; subst.
      apply matches_rep_inv in H2 as (_ & _ & _ & K2 & _).
      apply matches_rep_inv in H3 as (_ & _ & _ & K3 & _).
      simpl in *. congruence.
    - by inversion Hr; subst. }
  exists w1, g2. unfold group. rewrite Hgs. by simpl.
Qed.

(** The stop of a match of pattern 2 has the fare 0.0; it is built unless
    [int] refuses the sequence number, which it does not when the number
    has no more than 4300 digits. *)
Lemma stop_of_match2_cases m start rest :
  matches ProcessRoutes.stop_pattern2 (MState start rest []) m ->
  ((exists n name,
      ProcessRoutes.stop_of_match2 m
        = Ok (ProcessRoutes.stop_dict n name fzero)) \/
   ProcessRoutes.stop_of_match2 m = Raise ValueError) /\
  (int_accepts (default [] (group m 1)) = true ->
   exists d, ProcessRoutes.stop_of_match2 m = Ok d).
Proof.
  intros Hm.
  apply stop_pattern2_groups in Hm as (g1 & g2 & H1 & H2 & Hne & Hdig).
  unfold ProcessRoutes.stop_of_match2. rewrite H1, H2. simpl. split.
  - destruct (py_int_cases g1) as [[n ->] | ->]; simpl; eauto.
  - intros Hacc. destruct (py_int_ok g1 Hne Hdig Hacc) as [n ->].
    simpl. eauto.
Qed.

(** The fallback loop returns one stop per match, each with the fare 0.0,
    when it returns; it returns when [int] accepts every sequence
    number. *)
Lemma collect_fallback ms :
  (forall m, m ∈ ms ->
     exists start rest,
       matches ProcessRoutes.stop_pattern2 (MState start rest []) m) ->
  (forall st,
     ProcessRoutes.collect ProcessRoutes.stop_of_match2 ms = Ok st ->
     Forall (fun d => float_at "fare_from_start" d = Some fzero) st) /\
  (Forall (fun m => int_accepts (default [] (group m 1)) = true) ms ->
   exists st, ProcessRoutes.collect ProcessRoutes.stop_of_match2 ms = Ok st).
Proof.
  induction ms as [|m ms IH]; intros H; simpl.
  - split; [intros st [= <-]; constructor | eauto].
  - destruct (H m) as (start & rest & Hm); [by left|].
    destruct (stop_of_match2_cases _ _ _ Hm) as [Hcases Hok].
    destruct IH as [IH1 IH2].
    { intros m' Hm'. apply H. by right. }
    split.
    + intros st Hst.
      destruct Hcases as [(n & name & Hd) | Hd]; rewrite Hd in Hst; [|done].
      simpl in Hst.
      destruct (ProcessRoutes.collect ProcessRoutes.stop_of_match2 ms)
        as [ds|]; [|done].
      simpl in Hst. injection Hst as <-. constructor; [done|]. by apply IH1.
    + intros [Hm1 Hms]%Forall_cons.
      destruct (Hok Hm1) as [d ->]. destruct (IH2 Hms) as [st ->].
      simpl. eauto.
Qed.

(** The header of a page is found without raising. *)
Lemma find_route_number_ok page_text :
  exists number, ProcessRoutes.find_route_number page_text = Ok number.
Proof.
  unfold ProcessRoutes.find_route_number, re_search.
  destruct (search_from ProcessRoutes.route_re 0 page_text) as [m|] eqn:H1.
  - apply search_from_sound in H1 as (start & rest & Hm).
    unfold ProcessRoutes.route_re in Hm. cbn [cat] in Hm.
    inv_seq Hm H1 Hm1. inv_seq Hm1 H2 Hm2. inv_seq Hm2 H3 Hm3.
    inv_seq Hm3 H4 Hm4. inv_seq Hm4 H5 Hm5. inv_seq Hm5 H6 Hm6.
    inv_seq Hm6 H7 H8.
    apply matches_group_inv in H8 as (a & g & _ & _ & _ & ->).
    unfold group. simpl. eauto.
  - destruct (search_from ProcessRoutes.route_alt_re 0 page_text)
      as [m|] eqn:H2; [|eauto].
    apply search_from_sound in H2 as (start & rest & Hm).
    unfold ProcessRoutes.route_alt_re in Hm. cbn [cat] in Hm.
    inv_seq Hm H2 Hm1. inv_seq Hm1 H3 Hm2. inv_seq Hm2 H4 Hm3.
    inv_seq Hm3 H5 H6.
    apply matches_group_inv in H6 as (a & g & _ & _ & _ & ->).
    unfold group. simpl. eauto.
Qed.

Lemma find_route_desc_ok page_text :
  exists desc, ProcessRoutes.find_route_desc page_text = Ok desc.
Proof.
  unfold ProcessRoutes.find_route_desc, re_search.
  destruct (search_from ProcessRoutes.route_desc_re 0 page_text)
    as [m|] eqn:H1; [|eauto].
  apply search_from_sound in H1 as (start & rest & Hm).
  unfold ProcessRoutes.route_desc_re in Hm. cbn [cat] in Hm.
  inv_seq Hm H1 Hm1. inv_seq Hm1 H2 Hm2. inv_seq Hm2 H3 H4.
  apply matches_group_inv in H4 as (a & g & _ & _ & _ & ->).
  unfold group. simpl. eauto.
Qed.

(** C5. In [extract_route_data] the fare-omitted pattern is used only when
    the fare-bearing pattern matched nowhere in the page. When pattern 1
    has a match, the stops are those built from its matches, one per match,
    and pattern 2 plays no part in the result (a sequence number that
    [int] refuses or a fare that [float] refuses makes the call return
    None). When pattern 1 has no match, the stops are those built from the
    matches of pattern 2, one per match, each with the fare 0.0 (a sequence
    number that [int] refuses makes the call return None, which cannot
    happen when every sequence number has no more than 4300 digits). *)
Theorem fallback_only_without_primary (page_text : pystr) :
  let m1 := finditer ProcessRoutes.stop_pattern1 page_text in
  let m2 := finditer ProcessRoutes.stop_pattern2 page_text in
  exists number desc,
    ProcessRoutes.find_route_number page_text = Ok number /\
    ProcessRoutes.find_route_desc page_text = Ok desc /\
    (m1 <> [] ->
       ProcessRoutes.extract_route_data page_text
       = match ProcessRoutes.collect ProcessRoutes.stop_of_match1 m1 with
         | Ok st => Some (ProcessRoutes.mkRouteData number desc st)
         | Raise _ => None
         end /\
       forall st,
         ProcessRoutes.collect ProcessRoutes.stop_of_match1 m1 = Ok st ->
         length st = length m1) /\
    (m1 = [] ->
       ProcessRoutes.extract_route_data page_text
       = match ProcessRoutes.collect ProcessRoutes.stop_of_match2 m2 with
         | Ok st => Some (ProcessRoutes.mkRouteData number desc st)
         | Raise _ => None
         end /\
       (forall st,
          ProcessRoutes.collect ProcessRoutes.stop_of_match2 m2 = Ok st ->
          length st = length m2 /\
          Forall (fun d => float_at "fare_from_start" d = Some fzero) st) /\
       (Forall (fun m => int_accepts (default [] (group m 1)) = true) m2 ->
        exists st,
          ProcessRoutes.collect ProcessRoutes.stop_of_match2 m2 = Ok st)).
Proof.
  intros m1 m2.
  destruct (find_route_number_ok page_text) as [number Hn].
  destruct (find_route_desc_ok page_text) as [desc Hd].
  exists number, desc. split; [done|]. split; [done|].
  unfold ProcessRoutes.extract_route_data, ProcessRoutes.extract_route_data_try,
    ProcessRoutes.find_stops.
  rewrite Hn, Hd. cbn [bind]. fold m1. fold m2. split.
  - intros Hne. split; [|apply collect_length].
    destruct (ProcessRoutes.collect ProcessRoutes.stop_of_match1 m1)
      as [st|] eqn:Hc; [|done].
    cbn [bind]. apply collect_length in Hc.
    destruct st as [|d st]; [|done]. destruct m1; done.
  - intros ->. cbn [ProcessRoutes.collect bind].
    destruct (collect_fallback m2) as [Hall Hok].
    { intros m Hm. by apply finditer_sound in Hm. }
    split; [|split; [|done]].
    + by destruct (ProcessRoutes.collect ProcessRoutes.stop_of_match2 m2).
    + intros st Hst. split; [by apply collect_length in Hst | by apply Hall].
Qed.

Lemma fallback_only_without_primary_witness :
  finditer ProcessRoutes.stop_pattern1 Samples.page_a <> [] /\
  option_map (fun rd => map (float_at "fare_from_start")
                            (ProcessRoutes.stops rd))
             (ProcessRoutes.extract_route_data Samples.page_a)
    = Some [Some fzero; Some (S754_finite false 7740561859543040 (-48))] /\
  finditer ProcessRoutes.stop_pattern1 Samples.page_b = [] /\
  exists number desc st,
    ProcessRoutes.collect ProcessRoutes.stop_of_match2
      (finditer ProcessRoutes.stop_pattern2 Samples.page_b) = Ok st /\
    ProcessRoutes.extract_route_data Samples.page_b
      = Some (ProcessRoutes.mkRouteData number desc st) /\
    length st = 3 /\
    Forall (fun d => float_at "fare_from_start" d = Some fzero) st.
Proof.
  assert (Ha : finditer ProcessRoutes.stop_pattern1 Samples.page_a <> [])
    by (by vm_compute).
  assert (Hb : finditer ProcessRoutes.stop_pattern1 Samples.page_b = [])
    by (by vm_compute).
  split; [exact Ha|]. split; [by vm_compute|]. split; [exact Hb|].
  destruct (fallback_only_without_primary Samples.page_b)
    as (number & desc & _ & _ & _ & Hfall).
  destruct (Hfall Hb) as (Hrd & Hall & Hok).
  destruct Hok as [st Hst]; [vm_compute; repeat constructor|].
  rewrite Hst in Hrd. destruct (Hall st Hst) as [Hlen Hzero].
  exists number, desc, st. split; [exact Hst|]. split; [exact Hrd|].
  split; [|exact Hzero]. rewrite Hlen. by vm_compute.
Defined.

(** ** Step_1 and Step_2: the rows that are kept *)

Import ExtractBusRoutes.

(** A greedy repetition over a text made of the class takes it all, when
    what follows accepts the end of the text. *)
Lemma rep_greedy_all {R} p rest (k : nat -> pystr -> option R) x :
  forall min pos,
    forallb p rest = true -> min <= length rest ->
    k (pos + length rest) [] = Some x ->
    rep_greedy p min pos rest k = Some x.
Proof.
  induction rest as [|c t IH]; intros min pos Hp Hmin Hk; simpl in *.
  - destruct min; [|lia]. by rewrite Nat.add_0_r in Hk.
  - apply andb_prop in Hp as [-> Ht].
    rewrite (IH (Nat.pred min) (S pos)); [done | done | lia |].
    by replace (S pos + length t) with (pos + S (length t)) by lia.
Qed.

(** The noise pattern matches exactly the non-empty texts made of digits,
    white space and separators. *)
Lemma noise_re_spec location :
  is_Some (re_match noise_re location) <->
  location <> [] /\ forallb noise_char location = true.
Proof.
  split.
  - intros [m Hm]. apply match_at_sound in Hm.
    unfold noise_re in Hm. cbn [cat] in Hm.
    inv_seq Hm H1 Hm1. inv_seq Hm1 H2 H3.
    inversion H1; subst. inversion H3 as [| | | | | | | | | | | |? Hend]; subst.
    apply matches_rep_inv in H2 as (w & E & _ & _ & Hw & Hlen).
    simpl in E. rewrite E. split.
    + destruct w; [simpl in Hlen; lia | done].
    + rewrite forallb_app, Hw. destruct Hend as [-> | ->]; reflexivity.
  - intros [Hne Hall]. unfold re_match, match_at, noise_re, plus.
    cbn [cat rmatch]. cbn [mpos mrest mgroups Nat.eqb].
    erewrite rep_greedy_all; [done | done | | reflexivity].
    destruct location; [done | simpl; lia].
Qed.

(** C6, in the form that holds of the code. After the cleanup of the captured
    name (the leading number and white space removed, the ends trimmed), a
    candidate row is rejected if and only if the cleaned name has fewer than
    two characters or is made only of digits, white space and the separators
    '|', ']' and '}'; every other row is kept, with the cleaned name as its
    location. This is the test of both Step_1 and Step_2. *)
Theorem row_rejected_iff (stop_num distance raw : pystr) :
  let location := clean_location raw in
  (row_of_match (stop_num, distance, raw) = None <->
     length location <= 1 \/ forallb noise_char location = true) /\
  (row_of_match (stop_num, distance, raw) <> None ->
     row_of_match (stop_num, distance, raw)
       = Some (row_dict stop_num distance location)).
Proof.
  intros location. unfold row_of_match. fold location.
  assert (Hkeeps : keeps location = false <->
            length location <= 1 \/ forallb noise_char location = true).
  { unfold keeps. rewrite !andb_false_iff, !negb_false_iff.
    rewrite !bool_decide_eq_true, Nat.ltb_ge, noise_re_spec.
    split.
    - intros [[-> | H] | [_ H]]; [left; simpl; lia | by left | by right].
    - intros [H | H]; [by left; right|].
      destruct location as [|c t] eqn:E; [by left; left|].
      right. by split. }
  destruct (keeps location); split; try done.
  - split; [done|]. intros H. by apply Hkeeps in H.
  - split; [|done]. intros _. by apply Hkeeps.
Qed.

(** C6 does not hold as the specification words it: the one-letter name "A" is
    neither empty nor made of digits, white space and separators, and yet its
    row is rejected by both versions, while the row of "AB" is kept. *)
Lemma single_letter_name_rejected :
  findall3 row_re_step2 (asc "1 2.00] A") = [(asc "1", asc "2.00", asc "A")] /\
  clean_location (asc "A") = asc "A" /\
  asc "A" <> [] /\
  forallb noise_char (asc "A") = false /\
  row_of_match (asc "1", asc "2.00", asc "A") = None /\
  parse_table_data (asc "1 2.00] A") = [] /\
  parse_table_data_step1 (asc "1 2.00] A") = [] /\
  parse_table_data (asc "1 2.00] AB")
    = [row_dict (asc "1") (asc "2.00") (asc "AB")].
Proof. repeat split; vm_compute; (reflexivity || done). Qed.

(** ** The name cleanup *)

(** *** [replace] on a text without the key *)

Lemma replace_from_absent old new s :
  contains old s = false -> replace_from old new s 0 = s.
Proof.
  induction s as [|c t IH]; intros H; simpl in *; [done|].
  apply orb_false_iff in H as [H1 H2]. rewrite H1. by rewrite IH.
Qed.

Lemma replace_absent s old new :
  contains old s = false -> replace s old new = s.
Proof.
  intros H. destruct old as [|a old].
  - by destruct s.
  - by apply replace_from_absent.
Qed.

Lemma apply_corrections_settled table : forall s,
  settled table s -> ProcessRoutes.apply_corrections table s = s.
Proof.
  unfold ProcessRoutes.apply_corrections.
  induction table as [|[k v] table IH]; intros s H; simpl; [done|].
  apply Forall_cons in H as [Hk Ht]. simpl in Hk.
  rewrite (replace_absent _ _ _ Hk). by apply IH.
Qed.

(** *** [re.sub] of runs of white space *)

Lemma rep_greedy_longest {R} p rest :
  forall min pos (k : nat -> pystr -> option R) (F : nat -> pystr -> R),
    (forall pos' rest', k pos' rest' = Some (F pos' rest')) ->
    rep_greedy p min pos rest k
    = if min <=? prefix_len p rest
      then Some (F (pos + prefix_len p rest) (drop (prefix_len p rest) rest))
      else None.
Proof.
  induction rest as [|c t IH]; intros min pos k F Hk; simpl.
  - destruct min; simpl; [|done]. by rewrite Hk, Nat.add_0_r.
  - destruct (p c) eqn:Hpc.
    + rewrite (IH (Nat.pred min) (S pos) k F Hk).
      replace (S pos + prefix_len p t) with (pos + S (prefix_len p t)) by lia.
      destruct min as [|min]; simpl; [done|].
      by destruct (min <=? prefix_len p t).
    + destruct min; simpl; [|done]. by rewrite Hk, Nat.add_0_r.
Qed.

Lemma match_at_spaces pos rest :
  match_at ProcessRoutes.spaces_re pos rest false
  = if 1 <=? prefix_len is_space rest
    then Some (MState (pos + prefix_len is_space rest)
                      (drop (prefix_len is_space rest) rest) [])
    else None.
Proof.
  unfold match_at, ProcessRoutes.spaces_re, plus.
  cbn [rmatch mpos mrest mgroups].
  by apply (rep_greedy_longest is_space rest 1 pos _
              (fun pos' rest' => MState pos' rest' [])).
Qed.

Lemma re_sub_spaces_scan rest : forall pos,
  flat_map (fun t => match t with TChar c => [c] | TMatch _ _ => [SPACE] end)
           (scan ProcessRoutes.spaces_re pos rest 0)
    = collapse false rest /\
  flat_map (fun t => match t with TChar c => [c] | TMatch _ _ => [SPACE] end)
           (scan ProcessRoutes.spaces_re pos rest (prefix_len is_space rest))
    = collapse true rest.
Proof.
  induction rest as [|c t IH]; intros pos.
  - cbn [prefix_len scan]. by rewrite match_at_spaces.
  - assert (H0 :
      flat_map (fun t => match t with
                         | TChar c => [c] | TMatch _ _ => [SPACE] end)
               (scan ProcessRoutes.spaces_re pos (c :: t) 0)
      = collapse false (c :: t)).
    { cbn [scan]. rewrite match_at_spaces. cbn [prefix_len collapse].
      destruct (is_space c) eqn:Hc; cbn [Nat.leb mpos].
      - replace (pos + S (prefix_len is_space t) =? pos) with false
          by (symmetry; apply Nat.eqb_neq; lia).
        cbn [flat_map app]. f_equal.
        replace (pos + S (prefix_len is_space t) - pos - 1)
          with (prefix_len is_space t) by lia.
        apply IH.
      - cbn [flat_map app]. f_equal. apply IH. }
    split; [exact H0|].
    cbn [prefix_len]. destruct (is_space c) eqn:Hc.
    + cbn [scan collapse]. rewrite Hc. apply IH.
    + rewrite H0. cbn [collapse]. by rewrite Hc.
Qed.

Lemma re_sub_spaces s :
  re_sub ProcessRoutes.spaces_re [SPACE] s = collapse false s.
Proof. unfold re_sub, tokens. apply re_sub_spaces_scan. Qed.

(** *** Collapsed text is tidy, and tidy text is left alone *)

Lemma collapse_tidy s :
  (forall b, tidy b (collapse true s) = true) /\
  tidy false (collapse false s) = true.
Proof.
  induction s as [|c t [IHt IHf]]; [done|]. simpl.
  destruct (is_space c) eqn:Hc.
  - split; [done|]. simpl. by rewrite IHt.
  - split; [intros b|]; simpl; by rewrite Hc.
Qed.

Lemma tidy_collapse s : forall b, tidy b s = true -> collapse b s = s.
Proof.
  induction s as [|c t IH]; intros b H; simpl in *; [done|].
  destruct (is_space c) eqn:Hc.
  - apply andb_prop in H as [H Ht]. apply andb_prop in H as [Hsp Hb].
    apply N.eqb_eq in Hsp as ->. apply negb_true_iff in Hb as ->.
    by rewrite (IH true Ht).
  - by rewrite (IH false H).
Qed.

Lemma tidy_lstrip s : forall b, tidy b s = true -> tidy false (lstrip s) = true.
Proof.
  induction s as [|c t IH]; intros b H; simpl in *; [done|].
  destruct (is_space c) eqn:Hc.
  - apply andb_prop in H as [_ Ht]. by apply (IH true).
  - simpl. by rewrite Hc.
Qed.

Lemma tidy_app_l s1 s2 : forall b, tidy b (s1 ++ s2) = true -> tidy b s1 = true.
Proof.
  induction s1 as [|c t IH]; intros b H; simpl in *; [done|].
  destruct (is_space c).
  - apply andb_prop in H as [H Ht]. rewrite H. by apply IH.
  - by apply IH.
Qed.

(** *** [strip] *)

Lemma lstrip_suffix s : exists w, s = w ++ lstrip s.
Proof.
  induction s as [|c t [w IH]]; simpl; [by exists []|].
  destruct (is_space c).
  - exists (c :: w). simpl. by rewrite <- IH.
  - by exists [].
Qed.

Lemma lstrip_head s c t : lstrip s = c :: t -> is_space c = false.
Proof.
  induction s as [|a s IH]; simpl; [done|].
  destruct (is_space a) eqn:Ha; [done|]. by intros [= <- _].
Qed.

Lemma lstrip_id s :
  (forall c t, s = c :: t -> is_space c = false) -> lstrip s = s.
Proof.
  destruct s as [|c t]; [done|]. intros H. simpl.
  by rewrite (H c t eq_refl).
Qed.

Lemma lstrip_lstrip s : lstrip (lstrip s) = lstrip s.
Proof. apply lstrip_id. intros c t. apply lstrip_head. Qed.

Lemma rstrip_prefix s : exists w, s = rstrip s ++ w.
Proof.
  unfold rstrip. destruct (lstrip_suffix (rev s)) as [w Hw].
  exists (rev w). by rewrite <- rev_app_distr, <- Hw, rev_involutive.
Qed.

Lemma rstrip_rstrip s : rstrip (rstrip s) = rstrip s.
Proof. unfold rstrip. by rewrite rev_involutive, lstrip_lstrip. Qed.

Lemma strip_head s c t : strip s = c :: t -> is_space c = false.
Proof.
  unfold strip. intros H.
  destruct (rstrip_prefix (lstrip s)) as [w Hw]. rewrite H in Hw.
  simpl in Hw. by apply lstrip_head in Hw.
Qed.

Lemma strip_strip s : strip (strip s) = strip s.
Proof.
  unfold strip at 1. rewrite (lstrip_id (strip s)).
  - unfold strip. apply rstrip_rstrip.
  - intros c t. apply strip_head.
Qed.

Lemma tidy_strip s b : tidy b s = true -> tidy false (strip s) = true.
Proof.
  intros H. apply tidy_lstrip in H. unfold strip.
  destruct (rstrip_prefix (lstrip s)) as [w Hw]. rewrite Hw in H.
  by apply tidy_app_l in H.
Qed.

(** The white-space cleanup of [clean_stop_name] done twice is the cleanup
    done once. *)
Lemma squeeze_idempotent s :
  ProcessRoutes.squeeze (ProcessRoutes.squeeze s) = ProcessRoutes.squeeze s.
Proof.
  unfold ProcessRoutes.squeeze. rewrite !re_sub_spaces.
  rewrite (tidy_collapse (strip (collapse false s)) false).
  - apply strip_strip.
  - eapply tidy_strip. apply collapse_tidy.
Qed.


(** *** Occurrences of a key *)

Lemma contains_unfold p s :
  contains p s
  = startswith s p || match s with [] => false | _ :: t => contains p t end.
Proof. by destruct s. Qed.

Lemma contains_occurs p s : contains p s = true <-> occurs p s.
Proof.
  split.
  - induction s as [|c t IH]; rewrite contains_unfold; intros H.
    + rewrite orb_false_r in H. apply startswith_app in H.
      exists [], (drop (length p) []). by simpl.
    + apply orb_prop in H as [H | H].
      * apply startswith_app in H. by exists [], (drop (length p) (c :: t)).
      * destruct (IH H) as (l & r & ->). by exists (c :: l), r.
  - intros (l & r & ->). induction l as [|c l IH]; rewrite contains_unfold.
    + simpl. by rewrite startswith_prefix.
    + simpl. simpl in IH. rewrite IH. apply orb_true_r.
Qed.

Lemma not_contains p s : contains p s = false <-> ~ occurs p s.
Proof.
  rewrite <- contains_occurs. by destruct (contains p s).
Qed.

Lemma occurs_trans p q s : occurs p q -> occurs q s -> occurs p s.
Proof.
  intros (l1 & r1 & ->) (l2 & r2 & ->).
  exists (l2 ++ l1), (r1 ++ r2). by rewrite <- !app_assoc.
Qed.

(** An occurrence in two texts put side by side is in the first, in the
    second, or astride their border. *)
Lemma occurs_app_inv p a b :
  occurs p (a ++ b) ->
  occurs p a \/ occurs p b \/
  exists p1 p2 a' b', p = p1 ++ p2 /\ p1 <> [] /\ p2 <> [] /\
                      a = a' ++ p1 /\ b = p2 ++ b'.
Proof.
  intros (l & r & H). apply app_eq_inv in H as [(k & -> & H) | (k & -> & ->)].
  - apply app_eq_inv in H as [(k' & -> & ->) | (k' & -> & ->)].
    + destruct k as [|c k]; [right; left; by exists [], r|].
      destruct k' as [|c' k'].
      * left. exists l, []. by rewrite !app_nil_r.
      * right. right. by exists (c :: k), (c' :: k'), l, r.
    + left. exists l, k'. by rewrite <- ?app_assoc.
  - right. left. by exists k, r.
Qed.

Lemma has_border_intro x y z :
  x <> [] -> has_border (y ++ x) (x ++ z) = true.
Proof.
  intros Hx. induction y as [|c y IH].
  - destruct x as [|c x]; [done|].
    change ([] ++ c :: x) with (c :: x). cbn [has_border].
    by rewrite (startswith_prefix (c :: x) z).
  - change ((c :: y) ++ x) with (c :: (y ++ x)). cbn [has_border].
    rewrite IH. apply orb_true_r.
Qed.

Lemma overlap_free_spec p v :
  overlap_free p v = true ->
  ~ occurs p v /\ ~ occurs v p /\
  (forall x y z, x <> [] -> v = y ++ x -> p = x ++ z -> False) /\
  (forall x y z, x <> [] -> p = y ++ x -> v = x ++ z -> False).
Proof.
  unfold overlap_free. intros H.
  apply andb_prop in H as [H H4]. apply andb_prop in H as [H H3].
  apply andb_prop in H as [H1 H2].
  apply negb_true_iff in H1, H2, H3, H4.
  split; [by apply not_contains|]. split; [by apply not_contains|].
  split.
  - intros x y z Hx -> ->. by rewrite has_border_intro in H3.
  - intros x y z Hx -> ->. by rewrite has_border_intro in H4.
Qed.

Lemma join_cons sep g gs :
  gs <> [] -> join sep (g :: gs) = g ++ sep ++ join sep gs.
Proof. by destruct gs. Qed.

Lemma join_head sep c g gs :
  join sep ((c :: g) :: gs) = c :: join sep (g :: gs).
Proof. by destruct gs. Qed.

(** Joining pieces with a value that cannot meet the key creates no
    occurrence of the key. *)
Lemma join_no_occurrence p v gs :
  overlap_free p v = true ->
  Forall (fun g => ~ occurs p g) gs ->
  ~ occurs p (join v gs).
Proof.
  intros Hfree. apply overlap_free_spec in Hfree as (Hpv & Hvp & Hsuf & Hpre).
  induction gs as [|g gs IH]; intros Hall.
  - simpl. intros (l & r & H). destruct l; [|done]. destruct p; [|done].
    apply Hpv. by exists [], v.
  - apply Forall_cons in Hall as [Hg Hall].
    destruct gs as [|g' gs]; [done|].
    rewrite join_cons by done. specialize (IH Hall).
    intros [H | [H | H]]%occurs_app_inv; [done | |].
    + apply occurs_app_inv in H as [H | [H | H]]; [done | done |].
      destruct H as (p1 & p2 & a' & b' & -> & H1 & H2 & -> & _).
      by apply (Hsuf p1 a' p2).
    + destruct H as (p1 & p2 & a' & b' & -> & H1 & H2 & _ & H).
      apply app_eq_inv in H as [(k & -> & _) | (k & -> & _)].
      * by apply (Hpre p2 p1 k).
      * apply Hvp. by exists p1, k.
Qed.

Lemma occurs_in_join p sep gs g :
  g ∈ gs -> occurs p g -> occurs p (join sep gs).
Proof.
  intros Hin Hp. eapply occurs_trans; [exact Hp|]. clear Hp.
  induction gs as [|g0 gs IH]; [by apply elem_of_nil in Hin|].
  destruct gs as [|g1 gs].
  - apply list_elem_of_singleton in Hin as ->. exists [], []. simpl.
    by rewrite app_nil_r.
  - rewrite join_cons by done.
    apply elem_of_cons in Hin as [-> | Hin].
    + by exists [], (sep ++ join sep (g1 :: gs)).
    + destruct (IH Hin) as (l & r & ->).
      exists (g0 ++ sep ++ l), r. by rewrite <- !app_assoc.
Qed.

(** *** [replace] as a change of separator *)

Lemma replace_from_skip old new s : forall k,
  replace_from old new s k = replace_from old new (drop k s) 0.
Proof.
  induction s as [|c t IH]; intros k.
  - by destruct k.
  - destruct k as [|k]; [done|]. simpl. apply IH.
Qed.

Lemma replace_from_key old new rest :
  old <> [] ->
  replace_from old new (old ++ rest) 0 = new ++ replace_from old new rest 0.
Proof.
  intros Hne. destruct old as [|a old]; [done|].
  change ((a :: old) ++ rest) with (a :: (old ++ rest)).
  cbn [replace_from].
  change (a :: old ++ rest) with ((a :: old) ++ rest).
  rewrite (startswith_prefix (a :: old) rest). f_equal.
  rewrite replace_from_skip. simpl. rewrite Nat.sub_0_r.
  by rewrite drop_app_length.
Qed.

Lemma startswith_extend s p b :
  startswith s p = true -> startswith (s ++ b) p = true.
Proof.
  intros H. apply startswith_app in H. rewrite H, <- app_assoc.
  apply startswith_prefix.
Qed.

(** The text is pieces without the key joined by the key, and its
    replacement is the same pieces joined by the value. *)
Lemma replace_pieces old new :
  old <> [] ->
  forall n s, length s <= n ->
    exists gs, gs <> [] /\ s = join old gs /\
      replace_from old new s 0 = join new gs /\
      Forall (fun g => ~ occurs old g) gs.
Proof.
  intros Hne. induction n as [|n IH]; intros s Hlen.
  - destruct s; [|simpl in Hlen; lia]. exists [[]].
    repeat split; [done|]. constructor; [|done].
    intros (l & r & H). destruct l, old; done.
  - destruct s as [|c t].
    { exists [[]]. repeat split; [done|]. constructor; [|done].
      intros (l & r & H). destruct l, old; done. }
    destruct (startswith (c :: t) old) eqn:Hs.
    + apply startswith_app in Hs.
      set (rest := drop (length old) (c :: t)) in *.
      destruct (IH rest) as (gs & Hgs & E1 & E2 & Hall).
      { assert (length (c :: t) = length old + length rest)
          by (by rewrite Hs at 1; rewrite length_app).
        destruct old; [done|]. simpl in *. lia. }
      exists ([] :: gs). rewrite !join_cons by done. rewrite !app_nil_l.
      split; [done|]. split; [by rewrite Hs, E1 at 1|].
      split.
      * rewrite Hs, replace_from_key by done. by rewrite E2.
      * constructor; [|done]. intros (l & r & H). destruct l, old; done.
    + destruct (IH t) as (gs & Hgs & E1 & E2 & Hall);
        [simpl in Hlen; lia|].
      destruct gs as [|g gs]; [done|].
      exists ((c :: g) :: gs). rewrite !join_head.
      split; [done|]. split; [by rewrite E1 at 1|].
      split; [by simpl; rewrite Hs, E2|].
      apply Forall_cons in Hall as [Hg Hall]. constructor; [|done].
      apply not_contains. rewrite contains_unfold.
      apply not_contains in Hg. rewrite Hg, orb_false_r.
      destruct (startswith (c :: g) old) eqn:Hcg; [|done].
      assert (Hext : startswith (c :: t) old = true).
      { rewrite E1. destruct gs as [|g' gs]; [done|].
        rewrite join_cons by done.
        change (c :: g ++ old ++ join old (g' :: gs))
          with ((c :: g) ++ old ++ join old (g' :: gs)).
        by apply startswith_extend. }
      congruence.
Qed.

(** A replacement leaves no occurrence of its key, when the value cannot
    meet the key. *)
Lemma replace_kills s old new :
  overlap_free old new = true -> contains old (replace s old new) = false.
Proof.
  intros Hfree. apply not_contains.
  destruct old as [|a old]; [by destruct new|]. unfold replace.
  destruct (replace_pieces (a :: old) new ltac:(done) (length s) s
              ltac:(done)) as (gs & _ & _ & -> & Hall).
  by apply join_no_occurrence.
Qed.

(** A replacement creates no occurrence of another key, when its value
    cannot meet that key. *)
Lemma replace_keeps p s old new :
  overlap_free p new = true -> old <> [] ->
  contains p s = false -> contains p (replace s old new) = false.
Proof.
  intros Hfree Hne Hp. apply not_contains. apply not_contains in Hp.
  destruct old as [|a old]; [done|]. unfold replace.
  destruct (replace_pieces (a :: old) new ltac:(done) (length s) s
              ltac:(done)) as (gs & _ & E & -> & _).
  apply join_no_occurrence; [done|].
  apply Forall_forall. intros g Hg Hocc. apply Hp. rewrite E.
  by eapply occurs_in_join.
Qed.

(** A text without a key is without any text that has the key inside. *)
Lemma absent_factor p q s :
  contains p q = true -> contains p s = false -> contains q s = false.
Proof.
  intros Hpq Hp. apply not_contains. apply not_contains in Hp.
  apply contains_occurs in Hpq. intros Hq. apply Hp.
  by eapply occurs_trans.
Qed.

(** *** The table of data-cleaning.py settles every text *)

Lemma apply_corrections_app t1 t2 s :
  ProcessRoutes.apply_corrections (t1 ++ t2) s
  = ProcessRoutes.apply_corrections t2 (ProcessRoutes.apply_corrections t1 s).
Proof. unfold ProcessRoutes.apply_corrections. apply fold_left_app. Qed.

(** A key that is absent stays absent through corrections whose values
    cannot meet it. *)
Lemma apply_corrections_keeps p table : forall s,
  Forall (fun kv => fst kv <> [] /\ overlap_free p (snd kv) = true) table ->
  contains p s = false ->
  contains p (ProcessRoutes.apply_corrections table s) = false.
Proof.
  unfold ProcessRoutes.apply_corrections.
  induction table as [|[k v] table IH]; intros s Hall Hp; [done|].
  apply Forall_cons in Hall as [[Hk Hv] Hall]. simpl in *.
  apply IH; [done|]. by apply replace_keeps.
Qed.

(** A key is absent from the final text when its own value and the values
    of the corrections after it cannot meet it. *)
Lemma corrected_key_absent t1 k v t2 s :
  overlap_free k v = true ->
  Forall (fun kv => fst kv <> [] /\ overlap_free k (snd kv) = true) t2 ->
  contains k (ProcessRoutes.apply_corrections (t1 ++ (k, v) :: t2) s) = false.
Proof.
  intros Hkv Hall. rewrite apply_corrections_app.
  change ((k, v) :: t2) with ([(k, v)] ++ t2). rewrite apply_corrections_app.
  apply apply_corrections_keeps; [done|].
  unfold ProcessRoutes.apply_corrections. simpl. by apply replace_kills.
Qed.

Ltac key_absent n :=
  apply (corrected_key_absent
           (take n DataCleaning.corrections) _ _
           (drop (S n) DataCleaning.corrections));
  [ by vm_compute | repeat constructor; (done || by vm_compute) ].

(** Whatever the text, no key of the table of data-cleaning.py is left in
    the cleaned text. *)
Lemma data_cleaning_settles s :
  settled DataCleaning.corrections (DataCleaning.clean_stop_name s).
Proof.
  assert (H2 : contains (nth 1 DataCleaning.corrections ([], [])).1
                        (DataCleaning.clean_stop_name s) = false)
    by (key_absent 1).
  assert (H3 : contains (nth 2 DataCleaning.corrections ([], [])).1
                        (DataCleaning.clean_stop_name s) = false)
    by (key_absent 2).
  unfold settled, DataCleaning.corrections at 1.
  repeat apply Forall_cons_2; [| | | | | | |constructor]; cbn [fst].
  - eapply absent_factor; [|exact H2]. by vm_compute.
  - exact H2.
  - exact H3.
  - eapply absent_factor; [|exact H3]. by vm_compute.
  - key_absent 4.
  - key_absent 5.
  - key_absent 6.
Qed.

(** [clean_stop_name] of data-cleaning.py is idempotent. *)
Lemma data_cleaning_idempotent s :
  DataCleaning.clean_stop_name (DataCleaning.clean_stop_name s)
  = DataCleaning.clean_stop_name s.
Proof.
  unfold DataCleaning.clean_stop_name at 1.
  apply apply_corrections_settled, data_cleaning_settles.
Qed.

(** C8, in the form that holds of the code. [clean_stop_name] of data-
    cleaning.py is idempotent on every text. [clean_stop_name] of
    process_routes.py, whose table also deletes tokens, is idempotent on every
    text whose cleaned form contains no correction key; no replacement value
    of its table contains a correction key, and each replacement value is left
    unchanged by both functions. *)
Theorem clean_stop_name_idempotence (s : pystr) :
  DataCleaning.clean_stop_name (DataCleaning.clean_stop_name s)
    = DataCleaning.clean_stop_name s /\
  (settled ProcessRoutes.corrections (ProcessRoutes.clean_stop_name s) ->
     ProcessRoutes.clean_stop_name (ProcessRoutes.clean_stop_name s)
       = ProcessRoutes.clean_stop_name s) /\
  Forall (fun kv =>
            settled ProcessRoutes.corrections (snd kv) /\
            ProcessRoutes.clean_stop_name (snd kv) = snd kv /\
            DataCleaning.clean_stop_name (snd kv) = snd kv)
         ProcessRoutes.corrections.
Proof.
  split; [apply data_cleaning_idempotent|]. split.
  - intros H. unfold ProcessRoutes.clean_stop_name at 1.
    rewrite (apply_corrections_settled _ _ H).
    unfold ProcessRoutes.clean_stop_name. apply squeeze_idempotent.
  - repeat constructor; by vm_compute.
Qed.

Lemma clean_stop_name_idempotence_witness :
  ProcessRoutes.clean_stop_name Samples.noisy_name = u8 "හන්දිය බදුල්ල" /\
  settled ProcessRoutes.corrections
    (ProcessRoutes.clean_stop_name Samples.noisy_name) /\
  ProcessRoutes.clean_stop_name
      (ProcessRoutes.clean_stop_name Samples.noisy_name)
    = ProcessRoutes.clean_stop_name Samples.noisy_name /\
  DataCleaning.clean_stop_name
      (DataCleaning.clean_stop_name Samples.noisy_name)
    = DataCleaning.clean_stop_name Samples.noisy_name.
Proof.
  assert (H : settled ProcessRoutes.corrections
                (ProcessRoutes.clean_stop_name Samples.noisy_name))
    by (repeat constructor; by vm_compute).
  split; [by vm_compute|]. split; [exact H|].
  split.
  - exact (proj1 (proj2 (clean_stop_name_idempotence Samples.noisy_name)) H).
  - exact (proj1 (clean_stop_name_idempotence Samples.noisy_name)).
Defined.

(** C8 does not hold as the specification words it: cleaning "BBOO" removes
    the key "BO" in the middle and leaves "BO", which a second cleaning
    removes; cleaning "BBOae" leaves the key "Bae", which a second cleaning
    replaces. *)
Lemma clean_stop_name_not_idempotent :
  ProcessRoutes.clean_stop_name (asc "BBOO") = asc "BO" /\
  ProcessRoutes.clean_stop_name (asc "BO") = [] /\
  ProcessRoutes.clean_stop_name (ProcessRoutes.clean_stop_name (asc "BBOO"))
    <> ProcessRoutes.clean_stop_name (asc "BBOO") /\
  ProcessRoutes.clean_stop_name (asc "BBOae") = asc "Bae" /\
  ProcessRoutes.clean_stop_name (ProcessRoutes.clean_stop_name (asc "BBOae"))
    <> ProcessRoutes.clean_stop_name (asc "BBOae").
Proof. repeat split; vm_compute; (reflexivity || done). Qed.

(* ===================================================================== *)
(** * Further properties                                                  *)
(* ===================================================================== *)

Import PyLib TextSpec.

(** ** Numbers as text *)

Lemma uint_digits_ascii u : Forall ascii_digit (uint_digits u).
Proof.
  induction u; simpl; constructor; try done; unfold ascii_digit; lia.
Qed.

Ltac digit_step :=
  cbn [uint_digits digits_value];
  match goal with
  | |- context [digit_value ?c] =>
      change (digit_value c) with (Some (Z.of_N c - 48)%Z)
  end; cbn beta iota.

Lemma digits_value_uint_acc u : forall acc,
  digits_value (Z.pos acc) (uint_digits u)
    = Some (Z.pos (Pos.of_uint_acc u acc)).
Proof.
  induction u; intros acc; [done|..]; digit_step;
    (etransitivity; [|apply IHu]); f_equal; lia.
Qed.

Lemma digits_value_uint u :
  digits_value 0 (uint_digits u) = Some (Z.of_N (Pos.of_uint u)).
Proof.
  induction u; [done|..]; digit_step; [exact IHu|..];
    (etransitivity; [|apply digits_value_uint_acc]); f_equal.
Qed.

Lemma uint_digits_nil u : uint_digits u = [] -> u = Decimal.Nil.
Proof. by destruct u. Qed.

Lemma str_of_int_nonempty n : str_of_int n <> [].
Proof.
  destruct n as [|p|p]; [done| |done]. simpl. intros H.
  by apply uint_digits_nil, DecimalPos.Unsigned.to_uint_nonnil in H.
Qed.

Lemma digits_value_pos p :
  digits_value 0 (uint_digits (Pos.to_uint p)) = Some (Z.pos p).
Proof. by rewrite digits_value_uint, DecimalPos.Unsigned.of_to. Qed.

(** The digits that [str] writes have the value of the number. *)
Lemma digits_value_str_of_int n :
  (0 <= n)%Z -> digits_value 0 (str_of_int n) = Some n.
Proof.
  destruct n as [|p|p]; [done| |lia]. intros _. simpl.
  by rewrite digits_value_pos.
Qed.


Lemma digits_value_app a : forall acc b,
  digits_value acc (a ++ b)
    = match digits_value acc a with
      | Some n => digits_value n b
      | None => None
      end.
Proof.
  induction a as [|c a IH]; intros acc b; simpl; [done|].
  destruct (digit_value c); [apply IH | done].
Qed.

Lemma ascii_digit_decimal c : ascii_digit c -> is_decimal c = true.
Proof.
  unfold ascii_digit, is_decimal, digit_value, decimal_runs. intros H.
  cbn [digit_in].
  destruct (N.leb_spec 0x30 c); [|lia].
  destruct (N.ltb_spec c (0x30 + 10)); [done | lia].
Qed.

Lemma forallb_ascii_digits s :
  Forall ascii_digit s -> forallb is_decimal s = true.
Proof.
  induction 1 as [|c s Hc _ IH]; [done|]. simpl.
  by rewrite (ascii_digit_decimal c Hc).
Qed.

Lemma str_of_int_digits n :
  (0 <= n)%Z -> Forall ascii_digit (str_of_int n).
Proof.
  destruct n as [|p|p]; [|intros _; apply uint_digits_ascii | lia].
  intros _. repeat constructor; unfold ascii_digit; lia.
Qed.

Lemma zfill_digits w s : Forall ascii_digit s -> Forall ascii_digit (zfill w s).
Proof.
  intros H. unfold zfill. apply Forall_app. split; [|done].
  apply Forall_replicate. unfold ascii_digit. lia.
Qed.

(** A number below one hundred on two digits. *)
Lemma two_digits r : (0 <= r < 100)%Z ->
  zfill 2 (str_of_int r) = [Z.to_N (48 + r / 10); Z.to_N (48 + r mod 10)].
Proof.
  intros H. assert (Hin : r ∈ seqZ 0 100) by (apply elem_of_seqZ; lia).
  clear H. revert r Hin. apply Forall_forall.
  vm_compute. repeat constructor.
Qed.

Lemma digit_value_ascii k : (0 <= k <= 9)%Z ->
  digit_value (Z.to_N (48 + k)) = Some k.
Proof.
  intros H.
  assert (k = 0 \/ k = 1 \/ k = 2 \/ k = 3 \/ k = 4 \/ k = 5 \/ k = 6 \/
          k = 7 \/ k = 8 \/ k = 9)%Z as Hk by lia.
  repeat (destruct Hk as [-> | Hk]; [reflexivity|]). by subst k.
Qed.

Lemma digits_value_two r acc : (0 <= r < 100)%Z ->
  digits_value acc (zfill 2 (str_of_int r)) = Some (100 * acc + r)%Z.
Proof.
  intros H. rewrite (two_digits r H). cbn [digits_value].
  assert (0 <= r / 10 <= 9)%Z by (split; [apply Z.div_pos | apply Z.lt_succ_r, Z.div_lt_upper_bound]; lia).
  assert (0 <= r mod 10 <= 9)%Z by (pose proof (Z.mod_pos_bound r 10); lia).
  rewrite !digit_value_ascii by done. f_equal.
  pose proof (Z.div_mod r 10). lia.
Qed.


(** ** A float written with two decimals *)

Lemma round_half_even_near num den : (0 <= num)%Z -> (0 < den)%Z ->
  (0 <= round_half_even num den)%Z /\
  (- den <= 2 * (round_half_even num den * den - num) <= den)%Z.
Proof.
  intros Hnum Hden. unfold round_half_even.
  pose proof (Z.div_mod num den ltac:(lia)) as Hdm.
  pose proof (Z.mod_pos_bound num den Hden) as Hr.
  assert (Hq : (0 <= num / den)%Z) by (apply Z.div_pos; lia).
  set (q := (num / den)%Z) in *. set (r := (num mod den)%Z) in *.
  clearbody q r. subst num.
  destruct (Z.ltb_spec (2 * r) den);
    [|destruct (Z.ltb_spec den (2 * r)); [|destruct (Z.even q)]];
    (split; [lia|]); split; nia.
Qed.

Lemma hundredths_nonneg m e : (0 <= hundredths m e)%Z.
Proof.
  unfold hundredths. destruct (Z.leb_spec 0 e).
  - assert (0 < 2 ^ e)%Z by (apply Z.pow_pos_nonneg; lia).
    apply Z.mul_nonneg_nonneg; lia.
  - apply round_half_even_near; [lia|]. apply Z.pow_pos_nonneg; lia.
Qed.

(** The number of hundredths is the nearest to the exact value. *)
Lemma hundredths_near m e :
  (exact (S754_finite false m e) - (1 # 200)
     <= inject_Z (hundredths m e) / 100
     <= exact (S754_finite false m e) + (1 # 200))%Q.
Proof.
  unfold exact, float_val. cbn [default from_option id].
  unfold hundredths. destruct (Z.leb_spec 0 e) as [He|He].
  - assert (E : (inject_Z (100 * Z.pos m * 2 ^ e) / 100
                 == inject_Z (Z.pos m) * Qpower 2 e)%Q).
    { rewrite !inject_Z_mult, (Qpower.Zpower_Qpower 2 e He).
      change (inject_Z 2) with 2%Q. change (inject_Z 100) with 100%Q.
      generalize (Qpower 2 e) (inject_Z (Z.pos m)). intros P M. field. }
    rewrite E. split; lra.
  - set (den := (2 ^ (- e))%Z).
    assert (Hden : (0 < den)%Z) by (apply Z.pow_pos_nonneg; lia).
    destruct (round_half_even_near (100 * Z.pos m) den ltac:(lia) Hden)
      as [_ [Hlo Hhi]].
    set (n := round_half_even (100 * Z.pos m) den) in *.
    assert (Hp : (Qpower 2 e * inject_Z den == 1)%Q).
    { unfold den. rewrite (Qpower.Zpower_Qpower 2 (- e)) by lia.
      rewrite Qpower.Qpower_opp. apply Qmult_inv_r.
      apply Qpower.Qpower_not_0. discriminate. }
    assert (Hd : (0 < inject_Z den)%Q).
    { change 0%Q with (inject_Z 0). rewrite <- Zlt_Qlt. exact Hden. }
    assert (HloQ : (200 * inject_Z (Z.pos m)
                    <= 2 * (inject_Z n * inject_Z den) + inject_Z den)%Q).
    { change 2%Q with (inject_Z 2). change 200%Q with (inject_Z 200).
      rewrite <- !inject_Z_mult, <- inject_Z_plus, <- Zle_Qle. lia. }
    assert (HhiQ : (2 * (inject_Z n * inject_Z den)
                    <= 200 * inject_Z (Z.pos m) + inject_Z den)%Q).
    { change 2%Q with (inject_Z 2). change 200%Q with (inject_Z 200).
      rewrite <- !inject_Z_mult, <- inject_Z_plus, <- Zle_Qle. lia. }
    set (P := Qpower 2 e) in *. set (D := inject_Z den) in *.
    set (N := inject_Z n) in *. set (M := inject_Z (Z.pos m)) in *.
    clearbody P D N M.
    assert (EM : (M == (M * P) * D)%Q) by (rewrite <- Qmult_assoc, Hp; ring).
    set (x := (M * P)%Q) in *. clearbody x.
    rewrite EM in HloQ, HhiQ. clear EM.
    assert (E : ((2 * (N - 100 * x)) * D == 2 * (N * D) - 200 * (x * D))%Q)
      by ring.
    assert (H1 : ((-1) * D <= (2 * (N - 100 * x)) * D)%Q).
    { rewrite E. revert HloQ. generalize (x * D)%Q (N * D)%Q. clear.
      intros a b H. lra. }
    assert (H2 : ((2 * (N - 100 * x)) * D <= 1 * D)%Q).
    { rewrite E. revert HhiQ. generalize (x * D)%Q (N * D)%Q. clear.
      intros a b H. lra. }
    apply Qmult_lt_0_le_reg_r in H1; [|done].
    apply Qmult_lt_0_le_reg_r in H2; [|done].
    unfold Qdiv. change (/ 100)%Q with (1 # 100)%Q. split; lra.
Qed.

(** The text of a number of hundredths: digits, a dot and two digits, which
    [float] reads as the float nearest to that number of hundredths. *)
Lemma fixed2_shape n : (0 <= n)%Z ->
  exists d1 d2,
    fixed2 false n = d1 ++ [0x2E%N] ++ d2 /\ d1 <> [] /\
    Forall ascii_digit d1 /\ Forall ascii_digit d2 /\ length d2 = 2 /\
    digits_value 0 (d1 ++ d2) = Some n /\
    py_float (fixed2 false n) = Ok (decimal_to_float n 2).
Proof.
  intros Hn.
  assert (Hq : (0 <= n / 100)%Z) by (apply Z.div_pos; lia).
  assert (Hr : (0 <= n mod 100 < 100)%Z) by (apply Z.mod_pos_bound; lia).
  set (d1 := str_of_int (n / 100)).
  set (d2 := zfill 2 (str_of_int (n mod 100))).
  assert (H1 : Forall ascii_digit d1) by (by apply str_of_int_digits).
  assert (H2 : Forall ascii_digit d2)
    by (apply zfill_digits, str_of_int_digits; lia).
  assert (Hl : length d2 = 2) by (unfold d2; by rewrite two_digits).
  assert (Hv : digits_value 0 (d1 ++ d2) = Some n).
  { rewrite digits_value_app.
    pose proof (digits_value_str_of_int (n / 100) Hq) as Hi.
    fold d1 in Hi. rewrite Hi.
    unfold d2. rewrite digits_value_two by done.
    f_equal. pose proof (Z.div_mod n 100). lia. }
  exists d1, d2. split; [done|]. split; [apply str_of_int_nonempty|].
  do 4 (split; [done|]).
  unfold fixed2. cbn [app]. fold d1 d2. unfold py_float.
  rewrite (cut_at_dot_dotted d1 d2) by (by apply forallb_ascii_digits).
  cbv beta iota. cbn [default from_option id].
  destruct (d1 ++ d2) as [|c l] eqn:E.
  { apply app_eq_nil in E as [E _]. by apply str_of_int_nonempty in E. }
  by rewrite Hv, Hl.
Qed.

(** X1. The text that [write_to_csv] writes for a fare, [f"{fare:.2f}"], is
    for a positive float the decimal number with two decimals nearest to
    it: its digits are those of a number of hundredths that differs from
    the exact value of the float by half a hundredth at most, written as
    digits, a dot and two digits, and [float] reads the text as the float
    nearest to that number of hundredths. A zero is written '0.00'. *)
Theorem fare_text_is_nearest_hundredth (m : positive) (e : Z) :
  let fare := S754_finite false m e in
  let n := hundredths m e in
  format_2f (VFloat fare) = Ok (fixed2 false n) /\
  (exact fare - (1 # 200) <= inject_Z n / 100 <= exact fare + (1 # 200))%Q /\
  (exists d1 d2,
     fixed2 false n = d1 ++ [0x2E%N] ++ d2 /\ d1 <> [] /\
     Forall ascii_digit d1 /\ Forall ascii_digit d2 /\ length d2 = 2%nat /\
     digits_value 0 (d1 ++ d2) = Some n) /\
  py_float (fixed2 false n) = Ok (decimal_to_float n 2) /\
  format_2f (VFloat fzero) = Ok (asc "0.00").
Proof.
  intros fare n. split; [done|]. split; [apply hundredths_near|].
  destruct (fixed2_shape n (hundredths_nonneg m e))
    as (d1 & d2 & H1 & H2 & H3 & H4 & H5 & H6 & H7).
  split; [|by split]. exists d1, d2. by repeat split.
Qed.


(** ** Stop identifiers *)








Lemma str_of_int_inj n n' : str_of_int n = str_of_int n' -> n = n'.
Proof.
  assert (Hneg : forall p m, (0 <= m)%Z ->
            str_of_int (Z.neg p) = str_of_int m -> False).
  { intros p m Hm E. pose proof (str_of_int_digits m Hm) as H.
    rewrite <- E in H. simpl in H. apply Forall_cons in H as [H _].
    unfold ascii_digit in H. lia. }
  intros E. destruct (Z.le_gt_cases 0 n) as [Hn|Hn],
    (Z.le_gt_cases 0 n') as [Hn'|Hn'].
  - pose proof (digits_value_str_of_int n Hn) as H1.
    pose proof (digits_value_str_of_int n' Hn') as H2. congruence.
  - destruct n' as [|p|p]; try lia. symmetry in E. by apply Hneg in E.
  - destruct n as [|p|p]; try lia. by apply Hneg in E.
  - destruct n as [|p|p]; try lia. destruct n' as [|p'|p']; try lia.
    simpl in E. injection E as E.
    pose proof (digits_value_str_of_int (Z.pos p) ltac:(lia)) as H1.
    pose proof (digits_value_str_of_int (Z.pos p') ltac:(lia)) as H2.
    simpl in H1, H2. rewrite E in H1. congruence.
Qed.

Lemma str_of_int_chars n :
  Forall (fun c => ascii_digit c \/ c = 0x2D%N) (str_of_int n).
Proof.
  assert (Hd : forall s, Forall ascii_digit s ->
                 Forall (fun c => ascii_digit c \/ c = 0x2D%N) s).
  { intros s Hs. eapply Forall_impl; [exact Hs|]. by left. }
  destruct n as [|p|p]; simpl.
  - apply Hd. repeat constructor; unfold ascii_digit; lia.
  - apply Hd, uint_digits_ascii.
  - constructor; [by right|]. apply Hd, uint_digits_ascii.
Qed.



(** ** Loops that build a list *)

Lemma traverse_Forall2 {A B : Type} (f : A -> result B) l : forall bs,
  traverse f l = Ok bs <-> Forall2 (fun a b => f a = Ok b) l bs.
Proof.
  induction l as [|a l IH]; intros bs; simpl.
  - split; [intros [= <-]; constructor | by intros ->%Forall2_nil_inv_l].
  - split.
    + destruct (f a) as [b|] eqn:Ha; [|done]. simpl.
      destruct (traverse f l) as [bs'|] eqn:Hl; [|done]. simpl.
      intros [= <-]. constructor; [done|]. by apply IH.
    + intros (b & bs' & Hb & Hbs & ->)%Forall2_cons_inv_l.
      rewrite Hb. simpl. apply IH in Hbs. by rewrite Hbs.
Qed.

Lemma traverse_ok {A B : Type} (f : A -> result B) l :
  Forall (fun a => exists b, f a = Ok b) l -> exists bs, traverse f l = Ok bs.
Proof.
  induction 1 as [|a l [b Hb] _ [bs Hbs]]; simpl; [eauto|].
  rewrite Hb, Hbs. simpl. eauto.
Qed.

Lemma traverse_length {A B : Type} (f : A -> result B) l bs :
  traverse f l = Ok bs -> length bs = length l.
Proof. intros H%traverse_Forall2. symmetry. by eapply Forall2_length. Qed.

Lemma traverse_elem {A B : Type} (f : A -> result B) l bs b :
  traverse f l = Ok bs -> b ∈ bs -> exists a, a ∈ l /\ f a = Ok b.
Proof.
  intros H%traverse_Forall2 Hb.
  apply list_elem_of_lookup in Hb as [i Hi].
  destruct (Forall2_lookup_r _ _ _ _ _ H Hi) as (a & Ha & Hf).
  exists a. split; [by eapply list_elem_of_lookup_2 | done].
Qed.


Lemma sum_nat_from xs : forall acc,
  fold_left Nat.add xs acc = acc + sum_nat xs.
Proof.
  unfold sum_nat. induction xs as [|x xs IH]; intros acc; simpl; [lia|].
  rewrite (IH (acc + x)), (IH x). lia.
Qed.

Lemma sum_nat_cons x xs : sum_nat (x :: xs) = x + sum_nat xs.
Proof. unfold sum_nat at 1. simpl. apply sum_nat_from. Qed.

Lemma sum_nat_app xs ys : sum_nat (xs ++ ys) = sum_nat xs + sum_nat ys.
Proof.
  induction xs as [|x xs IH]; [done|]. simpl.
  rewrite !sum_nat_cons, IH. lia.
Qed.

Lemma elem_of_flat_map {A B : Type} (f : A -> list B) (l : list A) (b : B) :
  b ∈ flat_map f l <-> exists a, a ∈ l /\ b ∈ f a.
Proof.
  rewrite list_elem_of_In, in_flat_map. split.
  - intros (a & Ha & Hb). exists a. by rewrite !list_elem_of_In.
  - intros (a & Ha & Hb). exists a. by rewrite <- !list_elem_of_In.
Qed.

(** ** What [int] returns *)

Lemma digits_value_decimal s acc :
  is_Some (digits_value acc s) <-> forallb is_decimal s = true.
Proof.
  revert acc. induction s as [|c t IH]; intros acc; simpl.
  - split; [done | by eexists].
  - unfold is_decimal at 1. destruct (digit_value c) as [d|]; simpl.
    + apply IH.
    + split; [by intros [? ?] | done].
Qed.

Lemma digit_in_range runs c d :
  digit_in runs c = Some d -> (0 <= d <= 9)%Z.
Proof.
  induction runs as [|s rest IH]; simpl; [done|].
  destruct ((s <=? c) && (c <? s + 10))%N eqn:E; [|exact IH].
  intros [= <-]. apply andb_prop in E as [H1%N.leb_le H2%N.ltb_lt]. lia.
Qed.

Lemma length_uint_digits u : length (uint_digits u) = Decimal.nb_digits u.
Proof. induction u; simpl; congruence. Qed.

(** A run of digits of any script has the value of a run of ASCII digits
    of the same length. *)
Lemma digits_as_uint s :
  forallb is_decimal s = true ->
  exists u, Decimal.nb_digits u = length s /\
    forall acc, digits_value acc s = digits_value acc (uint_digits u).
Proof.
  induction s as [|c t IH]; intros H; [by exists Decimal.Nil|].
  simpl in H. apply andb_prop in H as [Hc Ht].
  destruct (IH Ht) as (u & Hlen & Hval).
  apply is_decimal_value in Hc as [d Hd].
  pose proof (digit_in_range _ _ _ Hd) as Hr.
  assert (Hk : (d = 0 \/ d = 1 \/ d = 2 \/ d = 3 \/ d = 4 \/ d = 5 \/
                d = 6 \/ d = 7 \/ d = 8 \/ d = 9)%Z) by lia.
  clear Hr.
  destruct Hk as [-> | [-> | [-> | [-> | [-> | [-> | [-> | [-> | [-> | ->]]]]]]]]];
    [ exists (Decimal.D0 u) | exists (Decimal.D1 u) | exists (Decimal.D2 u)
    | exists (Decimal.D3 u) | exists (Decimal.D4 u) | exists (Decimal.D5 u)
    | exists (Decimal.D6 u) | exists (Decimal.D7 u) | exists (Decimal.D8 u)
    | exists (Decimal.D9 u) ];
    (split; [simpl; by rewrite Hlen|]); intros acc;
    cbn [uint_digits digits_value]; rewrite Hd;
    match goal with
    | |- context [digit_value (N.pos ?p)] =>
        change (digit_value (N.pos p)) with (Some (Z.pos p - 48)%Z)
    end; cbn beta iota; apply Hval.
Qed.

Lemma str_of_int_N n : str_of_int (Z.of_N n) = uint_digits (N.to_uint n).
Proof. by destruct n. Qed.

(** What [int] returns is not negative and has no more digits than the
    text read, so that [str] and the format 'd' accept it. *)
Lemma py_int_value s n :
  py_int s = Ok n ->
  (0 <= n)%Z /\ (length (str_of_int n) <= length s)%nat /\
  int_accepts (str_of_int (Z.abs n)) = true.
Proof.
  unfold py_int. destruct s as [|c t]; [done|].
  destruct (int_accepts (c :: t)) eqn:Hacc; [|done].
  destruct (digits_value 0 (c :: t)) as [v|] eqn:Hv; [|done].
  intros [= <-].
  assert (Hdig : forallb is_decimal (c :: t) = true)
    by (apply (digits_value_decimal _ 0); eauto).
  destruct (digits_as_uint _ Hdig) as (u & Hlen & Hval).
  rewrite Hval, digits_value_uint in Hv. injection Hv as <-.
  assert (Hne : u <> Decimal.Nil) by (intros ->; done).
  assert (Hle : (length (str_of_int (Z.of_N (Pos.of_uint u)))
                 <= length (c :: t))%nat).
  { rewrite str_of_int_N, DecimalPos.Unsigned.to_of, length_uint_digits.
    rewrite <- Hlen. by apply DecimalFacts.nb_digits_unorm. }
  split; [lia|]. split; [done|].
  rewrite Z.abs_eq by lia. unfold int_accepts in *.
  apply Z.leb_le. apply Z.leb_le in Hacc. lia.
Qed.


(** ** process_routes.py: the CSV files *)

Import ProcessRoutesCsv.

Lemma collect_traverse f ms : ProcessRoutes.collect f ms = traverse f ms.
Proof. induction ms as [|m ms IH]; simpl; [done|]. by rewrite IH. Qed.

(** A stop as [extract_route_data] builds it: the sequence number is what
    [int] returned, which the format 'd' accepts. *)
Lemma find_stops_dicts page_text ds :
  ProcessRoutes.find_stops page_text = Ok ds ->
  Forall is_built_stop ds.
Proof.
  unfold ProcessRoutes.find_stops. rewrite !collect_traverse.
  assert (H1 : forall ms xs,
            traverse ProcessRoutes.stop_of_match1 ms = Ok xs ->
            Forall is_built_stop xs).
  { intros ms xs H. apply Forall_forall. intros d Hd.
    destruct (traverse_elem _ _ _ _ H Hd) as (m & _ & Hm).
    unfold ProcessRoutes.stop_of_match1 in Hm.
    destruct (group m 1); [|done]. simpl in Hm.
    destruct (py_int _) as [n|] eqn:Hn; [|done]. simpl in Hm.
    destruct (group m 2); [|done]. simpl in Hm.
    destruct (py_float _); [|done]. simpl in Hm.
    destruct (group m 3); [|done]. simpl in Hm.
    injection Hm as <-. apply py_int_value in Hn as (_ & _ & Hn).
    by eexists _, _, _. }
  assert (H2 : forall ms xs,
            traverse ProcessRoutes.stop_of_match2 ms = Ok xs ->
            Forall is_built_stop xs).
  { intros ms xs H. apply Forall_forall. intros d Hd.
    destruct (traverse_elem _ _ _ _ H Hd) as (m & _ & Hm).
    unfold ProcessRoutes.stop_of_match2 in Hm.
    destruct (group m 1); [|done]. simpl in Hm.
    destruct (py_int _) as [n|] eqn:Hn; [|done]. simpl in Hm.
    destruct (group m 2); [|done]. simpl in Hm.
    injection Hm as <-. apply py_int_value in Hn as (_ & _ & Hn).
    by eexists _, _, _. }
  destruct (traverse ProcessRoutes.stop_of_match1 _) as [xs|] eqn:E1;
    [|done]. simpl. destruct xs as [|x xs].
  - apply H2.
  - intros [= <-]. by eapply H1.
Qed.

Lemma process_pages_dicts pages :
  Forall (fun rd => Forall is_built_stop (ProcessRoutes.stops rd))
         (ProcessRoutes.process_pages pages).
Proof.
  induction pages as [|p rest IH]; simpl; [constructor|].
  destruct (strip p); [done|].
  destruct (ProcessRoutes.extract_route_data p) as [rd|] eqn:E; [|done].
  destruct (ProcessRoutes.stops rd) eqn:Hs; [done|].
  constructor; [|done]. clear Hs.
  unfold ProcessRoutes.extract_route_data in E.
  destruct (ProcessRoutes.extract_route_data_try p) as [rd'|] eqn:E';
    [|done]. injection E as ->.
  unfold ProcessRoutes.extract_route_data_try in E'.
  destruct (ProcessRoutes.find_route_number p); [|done]. simpl in E'.
  destruct (ProcessRoutes.find_route_desc p); [|done]. simpl in E'.
  destruct (ProcessRoutes.find_stops p) as [ds|] eqn:Ef; [|done].
  simpl in E'. injection E' as <-. simpl. by eapply find_stops_dicts.
Qed.

(** The row of a stop built by [extract_route_data]. *)
Lemma csv_row_stop_dict route n name f :
  int_accepts (str_of_int (Z.abs n)) = true ->
  csv_row route (ProcessRoutes.stop_dict n name f)
    = Ok (mkCsvRow
            (ProcessRoutes.route_number route)
            (ProcessRoutes.route_name route) (VInt n)
            (ProcessRoutes.route_number route ++ asc "_" ++ format_03d_int n)
            (VStr name) (VFloat f)).
Proof.
  intros Hn. unfold csv_row, stop_id, getitem, ProcessRoutes.stop_dict.
  rewrite lookup_insert_eq. cbn [of_option bind format_03d]. rewrite Hn.
  cbn [bind].
  rewrite (lookup_insert_ne _ "stop_sequence" "stop_name") by done.
  rewrite (lookup_insert_ne _ "stop_sequence" "fare_from_start") by done.
  rewrite (lookup_insert_ne _ "stop_name" "fare_from_start") by done.
  by rewrite !lookup_insert_eq.
Qed.





Lemma rows_of_route_ok route :
  Forall is_built_stop (ProcessRoutes.stops route) ->
  exists rows, rows_of_route route = Ok rows /\
               length rows = length (ProcessRoutes.stops route).
Proof.
  intros H. unfold rows_of_route.
  destruct (traverse_ok (csv_row route)
              (ProcessRoutes.stops route)) as [rows Hrows].
  { eapply Forall_impl; [exact H|]. intros d (n & name & f & -> & Hn).
    rewrite csv_row_stop_dict by done. eauto. }
  exists rows. split; [done|]. by eapply traverse_length.
Qed.

Lemma rows_of_routes_ok routes :
  Forall (fun rd => Forall is_built_stop (ProcessRoutes.stops rd)) routes ->
  exists main,
    traverse rows_of_route routes = Ok main /\
    length (concat main)
      = sum_nat (map (fun rd => length (ProcessRoutes.stops rd)) routes).
Proof.
  induction 1 as [|route rest Hr _ (main & Hmain & Hlen)]; simpl.
  - by exists [].
  - destruct (rows_of_route_ok route Hr) as (rows & -> & Hrows).
    rewrite Hmain. simpl. eexists. split; [done|]. simpl.
    rewrite length_app, sum_nat_cons. lia.
Qed.

Lemma main_csv_data_ok routes :
  Forall (fun rd => Forall is_built_stop (ProcessRoutes.stops rd)) routes ->
  exists rows,
    main_csv_data routes
      = Ok (match routes with [] => None | _ => Some rows end) /\
    length rows
      = sum_nat (map (fun rd => length (ProcessRoutes.stops rd)) routes).
Proof.
  intros H. destruct (rows_of_routes_ok routes H) as (main & Hmain & Hlen).
  exists (concat main). split; [|done].
  unfold main_csv_data. destruct routes; [done|]. by rewrite Hmain.
Qed.

(** X3. For the routes that [process_text_file] returns, the loop of
    [create_csv_output] that builds the rows of the main file raises
    nothing: every stop has the three keys and a sequence number that the
    format '03d' accepts, and there is one row per stop of every route
    (no row is built when there is no route: the function returns
    first). *)
Theorem main_rows_of_text_file (content : pystr) :
  exists rows,
    main_csv_data (ProcessRoutes.process_text_file content)
      = Ok (match ProcessRoutes.process_text_file content with
            | [] => None
            | _ => Some rows
            end) /\
    length rows
      = sum_nat (map (fun rd => length (ProcessRoutes.stops rd))
                     (ProcessRoutes.process_text_file content)).
Proof.
  apply main_csv_data_ok.
  apply (process_pages_dicts (re_split ProcessRoutes.page_re content)).
Qed.

(** [re.sub] of a class of single characters replaces each of them. *)
Lemma re_sub_class p repl s :
  re_sub (Chr p) repl s = flat_map (fun c => if p c then repl else [c]) s.
Proof.
  unfold re_sub, tokens.
  enough (H : forall pos,
            flat_map (fun t => match t with
                               | TChar c => [c]
                               | TMatch _ _ => repl
                               end) (scan (Chr p) pos s 0)
            = flat_map (fun c => if p c then repl else [c]) s) by apply H.
  induction s as [|c t IH]; intros pos; [done|].
  cbn [scan match_at rmatch mrest mpos mgroups flat_map].
  destruct (p c) eqn:Hp.
  - cbn [andb mpos]. replace (S pos =? pos) with false
      by (symmetry; apply Nat.eqb_neq; lia).
    cbn [flat_map]. f_equal.
    replace (S pos - pos - 1) with 0 by lia. apply IH.
  - cbn [flat_map]. f_equal. apply IH.
Qed.

Lemma clean_route_num_map s :
  clean_route_num s
    = map (fun c => if unsafe_char c then 0x5F%N else c) s.
Proof.
  unfold clean_route_num, unsafe_re.
  rewrite re_sub_class. induction s as [|c t IH]; [done|].
  cbn [flat_map map]. rewrite IH.
  by destruct (unsafe_char c).
Qed.

(** X4. The name of the file of a route is 'route_', the route number with an
    underscore for every character that is neither a word character nor a
    hyphen, and '.csv'. The part made from the route number is as long as
    the route number and holds only word characters and hyphens, so that
    the name holds no slash and names a file of the output directory. *)
Theorem route_file_name_is_safe (route : ProcessRoutes.RouteData) :
  route_file_name route
    = asc "route_"
      ++ clean_route_num (ProcessRoutes.route_number route)
      ++ asc ".csv" /\
  length (clean_route_num (ProcessRoutes.route_number route))
    = length (ProcessRoutes.route_number route) /\
  Forall (fun c => is_word c = true \/ c = 0x2D%N)
         (clean_route_num
            (ProcessRoutes.route_number route)) /\
  (0x2F%N ∉ route_file_name route) /\
  (0x5C%N ∉ route_file_name route).
Proof.
  split; [done|].
  assert (Hf : Forall (fun c => is_word c = true
                               \/ c = 0x2D%N)
                 (clean_route_num
                    (ProcessRoutes.route_number route))).
  { rewrite clean_route_num_map. apply Forall_map, Forall_forall.
    intros c _. cbv beta. unfold unsafe_char.
    destruct (is_word c) eqn:Hw; cbn [orb negb];
      [by left|].
    destruct (N.eqb_spec c 0x2D) as [->|Hne]; cbn [negb];
      [by right | by left]. }
  split; [by rewrite clean_route_num_map, length_map|]. split; [done|].
  assert (Hno : forall x, is_word x = false -> x <> 0x2D%N ->
            x ∉ asc "route_" -> x ∉ asc ".csv" ->
            x ∉ route_file_name route).
  { intros x Hx Hx' H1 H2. unfold route_file_name.
    rewrite !not_elem_of_app. repeat split; [done| |done].
    intros Hin. rewrite Forall_forall in Hf.
    destruct (Hf x Hin) as [Hw | ->]; [congruence | done]. }
  split; apply Hno;
    first [ done | vm_compute; reflexivity
          | apply (bool_decide_unpack _); vm_compute; exact I ].
Qed.


(** ** Fares that [float] refuses *)

Lemma matches_groupless r s s' :
  matches r s s' -> groupless r = true -> mgroups s' = mgroups s.
Proof.
  induction 1 as [s|p pos c t gs Hp|l pos rest gs|a b s1 s2 s3 _ IH1 _ IH2
                  |a b s s' _ IH|a b s s' _ IH|g min p pos w rest gs Hw Hmin
                  |a s s' _ IH|a s|n a s s' _ IH|a s s' _ IH|rest gs|s Hs];
    simpl; intros Hg; try done.
  - apply andb_prop in Hg as [Ha Hb]. by rewrite IH2, IH1.
  - apply andb_prop in Hg as [Ha Hb]. by apply IH.
  - apply andb_prop in Hg as [Ha Hb]. by apply IH.
  - by apply IH.
  - by apply IH.
Qed.

Lemma matches_look_groupless a s s' :
  matches (Look a) s s' -> groupless a = true -> s' = s.
Proof.
  inversion 1 as [| | | | | | | | | |? ? s0 Hin| |]; subst. intros Hg.
  rewrite (matches_groupless _ _ _ Hin Hg). by destruct s.
Qed.

Lemma digit_or_dot_cases c :
  ProcessRoutes.digit_or_dot c = true ->
  (is_decimal c = true /\ is_dot c = false) \/
  (is_decimal c = false /\ c = 0x2E%N).
Proof.
  unfold ProcessRoutes.digit_or_dot, is_dot.
  destruct (N.eqb_spec c 0x2E) as [->|Hne].
  - intros _. right. by rewrite dot_not_decimal.
  - rewrite orb_false_r. intros ->. by left.
Qed.

Lemma decimals_no_dot s :
  forallb is_decimal s = true ->
  dots s = [] /\
  existsb is_decimal s = negb (bool_decide (s = [])).
Proof.
  induction s as [|c t IH]; [done|]. cbn [forallb existsb].
  intros [Hc Ht]%andb_prop.
  destruct (IH Ht) as [Hf He]. rewrite Hc. cbn [orb]. split.
  - unfold dots in *. rewrite filter_cons_False; [done|].
    unfold is_dot. destruct (N.eqb_spec c 0x2E) as [->|]; [|done].
    by rewrite dot_not_decimal in Hc.
  - by rewrite bool_decide_eq_false_2.
Qed.

(** The first dot of a text of digits and dots. *)
Lemma cut_at_dot_spec s :
  forallb ProcessRoutes.digit_or_dot s = true ->
  exists ip,
    forallb is_decimal ip = true /\
    ((cut_at_dot s = (ip, None) /\ s = ip) \/
     exists fp, cut_at_dot s = (ip, Some fp) /\ s = ip ++ 0x2E%N :: fp /\
                forallb ProcessRoutes.digit_or_dot fp = true).
Proof.
  induction s as [|c t IH]; simpl.
  - intros _. exists []. split; [done|]. by left.
  - intros [Hc Ht]%andb_prop.
    destruct (digit_or_dot_cases c Hc) as [[Hd Hn] | [Hd ->]].
    + unfold is_dot in Hn. rewrite Hn.
      destruct (IH Ht) as (ip & Hip & [[-> ->] | (fp & -> & -> & Hfp)]).
      * exists (c :: ip). split; [simpl; by rewrite Hd|]. by left.
      * exists (c :: ip). split; [simpl; by rewrite Hd|]. right.
        exists fp. by repeat split.
    + exists []. split; [done|]. right. exists t. by repeat split.
Qed.


(** [float] accepts a text of digits and dots when it has a digit and at
    most one dot, and answers ValueError otherwise. *)
Lemma py_float_valid s :
  forallb ProcessRoutes.digit_or_dot s = true ->
  if valid_fare s then exists f, py_float s = Ok f
  else py_float s = Raise ValueError.
Proof.
  intros Hs. unfold valid_fare, py_float.
  destruct (cut_at_dot_spec s Hs)
    as (ip & Hip & [[-> ->] | (fp & -> & -> & Hfp)]).
  - destruct (decimals_no_dot ip Hip) as [-> ->]. cbn [length Nat.leb andb].
    cbn [default from_option id]. rewrite app_nil_r.
    destruct ip as [|c t]; [done|].
    rewrite (bool_decide_eq_false_2 _) by done. cbn [negb].
    apply (digits_value_decimal _ 0) in Hip as [n ->]. eauto.
  - cbn [default from_option id].
    assert (Hdots0 : dots (ip ++ 46%N :: fp) = 46%N :: dots fp).
    { destruct (decimals_no_dot ip Hip) as [Hz _]. unfold dots in *.
      by rewrite filter_app, filter_cons_True, Hz. }
    rewrite Hdots0. destruct (decimals_no_dot ip Hip) as [_ Hex].
    cbn [app length].
    rewrite existsb_app. cbn [existsb]. rewrite dot_not_decimal, Hex.
    cbn [orb].
    destruct (forallb is_decimal fp) eqn:Hd.
    + destruct (decimals_no_dot fp Hd) as [-> Hex']. rewrite Hex'.
      cbn [length Nat.leb andb].
      destruct (ip ++ fp) as [|c l] eqn:E.
      * apply app_eq_nil in E as [-> ->]. done.
      * assert (Hall : forallb is_decimal (c :: l) = true)
          by (by rewrite <- E, forallb_app, Hip, Hd).
        apply (digits_value_decimal _ 0) in Hall as [n Hn]. rewrite Hn.
        destruct ip, fp; try done; simpl; eauto.
    + assert (Hdots : dots fp <> []).
      { intros Hnil. assert (forallb is_decimal fp = true); [|congruence].
        clear -Hfp Hnil. unfold dots in Hnil.
        induction fp as [|c t IH]; [done|].
        simpl in Hfp. apply andb_prop in Hfp as [Hc Ht].
        destruct (digit_or_dot_cases c Hc) as [[Hd Hn] | [Hd ->]].
        - rewrite filter_cons_False in Hnil by (by rewrite Hn).
          simpl. by rewrite Hd, IH.
        - by rewrite filter_cons_True in Hnil. }
      destruct (dots fp) as [|x xs]; [done|]. cbn [length Nat.leb andb].
      destruct (ip ++ fp) as [|c l] eqn:E.
      * apply app_eq_nil in E as [_ ->]. done.
      * destruct (digits_value 0 (c :: l)) as [n|] eqn:Hn; [|done].
        assert (Hsome : is_Some (digits_value 0 (c :: l))) by eauto.
        apply digits_value_decimal in Hsome.
        rewrite <- E, forallb_app, Hd, andb_false_r in Hsome. done.
Qed.

(** A loop whose turns either go well or raise one given exception. *)
Lemma traverse_cases {A B : Type} (f : A -> result B) (good : A -> bool)
    (e0 : exn) l :
  (forall a, a ∈ l ->
     if good a then exists b, f a = Ok b else f a = Raise e0) ->
  match traverse f l with
  | Ok bs => Forall (fun a => good a = true) l /\ length bs = length l
  | Raise e => e = e0 /\ Exists (fun a => good a = false) l
  end.
Proof.
  induction l as [|a l IH]; intros H; simpl; [by split|].
  pose proof (H a ltac:(by left)) as Ha.
  destruct (good a) eqn:Hg.
  - destruct Ha as [b ->]. simpl.
    assert (IH' := IH (fun x Hx => H x ltac:(by right))).
    destruct (traverse f l) as [bs|e]; simpl.
    + destruct IH' as [Hall Hlen]. split; [by constructor | by rewrite Hlen].
    + destruct IH' as [-> Hex]. split; [done | by right].
  - rewrite Ha. simpl. split; [done | by left].
Qed.

Lemma stop_pattern1_groups m start rest :
  matches ProcessRoutes.stop_pattern1 (MState start rest []) m ->
  exists g1 g2 g3,
    group m 1 = Some g1 /\ group m 2 = Some g2 /\ group m 3 = Some g3 /\
    g1 <> [] /\ forallb is_decimal g1 = true /\
    forallb ProcessRoutes.digit_or_dot g2 = true.
Proof.
  unfold ProcessRoutes.stop_pattern1. cbn [cat]. intros Hm.
  inv_seq Hm Hg1 Hm1. inv_seq Hm1 Hs1 Hm2. inv_seq Hm2 Hg2 Hm3.
  inv_seq Hm3 Hs2 Hm4. inv_seq Hm4 Hb Hm5. inv_seq Hm5 Hs3 Hm6.
  inv_seq Hm6 Hg3 Hlook.
  apply matches_look_groupless in Hlook as ->; [|done].
  apply matches_group_inv in Hg1 as (a1 & g1 & Hd1 & E1 & _ & ->).
  apply matches_rep_inv in Hd1 as (w1 & E1' & _ & _ & D1 & L1).
  apply matches_rep_inv in Hs1 as (_ & _ & _ & G1 & _).
  apply matches_group_inv in Hg2 as (a2 & g2 & Hd2 & E2 & _ & ->).
  apply matches_rep_inv in Hd2 as (w2 & E2' & _ & G2 & D2 & _).
  apply matches_rep_inv in Hs2 as (_ & _ & _ & G3 & _).
  inversion Hb; subst; clear Hb.
  apply matches_rep_inv in Hs3 as (_ & _ & _ & G4 & _).
  apply matches_group_inv in Hg3 as (a3 & g3 & Hd3 & _ & _ & ->).
  apply matches_rep_inv in Hd3 as (_ & _ & _ & G5 & _).
  simpl in *.
  assert (g1 = w1) as -> by (rewrite E1' in E1; by apply app_inv_tail in E1).
  assert (g2 = w2) as -> by (rewrite E2' in E2; by apply app_inv_tail in E2).
  assert (Hne : w1 <> []) by (intros ->; simpl in L1; lia).
  exists w1, w2, g3. unfold group. simpl.
  rewrite G5, G4, G3, G2, G1. by simpl.
Qed.

(** [int] on a run of digits: accepted or ValueError, by its length. *)
Lemma py_int_digits s :
  s <> [] -> forallb is_decimal s = true ->
  if int_accepts s then exists n, py_int s = Ok n
  else py_int s = Raise ValueError.
Proof.
  intros Hne Hd. destruct (int_accepts s) eqn:Ha.
  - by apply py_int_ok.
  - by apply py_int_long.
Qed.

Lemma stop_of_match1_cases m start rest :
  matches ProcessRoutes.stop_pattern1 (MState start rest []) m ->
  if valid_row1 m
  then exists d, ProcessRoutes.stop_of_match1 m = Ok d
  else ProcessRoutes.stop_of_match1 m = Raise ValueError.
Proof.
  intros (g1 & g2 & g3 & H1 & H2 & H3 & Hne & Hdig & Hd)%stop_pattern1_groups.
  unfold ProcessRoutes.stop_of_match1, valid_row1.
  rewrite H1, H2, H3. cbn [of_option bind default from_option id].
  pose proof (py_int_digits g1 Hne Hdig) as Hi.
  destruct (int_accepts g1); cbn [andb].
  - destruct Hi as [n ->]. cbn [bind].
    pose proof (py_float_valid g2 Hd) as Hf.
    destruct (valid_fare g2).
    + destruct Hf as [f ->]. cbn [bind]. eauto.
    + by rewrite Hf.
  - by rewrite Hi.
Qed.

Lemma stop_of_match2_accepts m start rest :
  matches ProcessRoutes.stop_pattern2 (MState start rest []) m ->
  if valid_row2 m
  then exists d, ProcessRoutes.stop_of_match2 m = Ok d
  else ProcessRoutes.stop_of_match2 m = Raise ValueError.
Proof.
  intros (g1 & g2 & H1 & H2 & Hne & Hdig)%stop_pattern2_groups.
  unfold ProcessRoutes.stop_of_match2, valid_row2.
  rewrite H1, H2. cbn [of_option bind default from_option id].
  pose proof (py_int_digits g1 Hne Hdig) as Hi.
  destruct (int_accepts g1).
  - destruct Hi as [n ->]. cbn [bind]. eauto.
  - by rewrite Hi.
Qed.

(** X5. [extract_route_data] of process_routes.py loses a page, returning
    None, in two cases only: the fare-bearing pattern has a match whose
    sequence number [int] refuses (more than 4300 digits) or whose fare
    text [float] refuses (no digit, or more than one dot); or it has no
    match, and the fare-omitted pattern has a match whose sequence number
    [int] refuses. The search of the route number and of the description
    raises nothing. *)
Theorem page_lost_iff_bad_row (page_text : pystr) :
  ProcessRoutes.extract_route_data page_text = None <->
  Exists (fun m => valid_row1 m = false)
         (finditer ProcessRoutes.stop_pattern1 page_text) \/
  (finditer ProcessRoutes.stop_pattern1 page_text = [] /\
   Exists (fun m => valid_row2 m = false)
          (finditer ProcessRoutes.stop_pattern2 page_text)).
Proof.
  unfold ProcessRoutes.extract_route_data,
    ProcessRoutes.extract_route_data_try, ProcessRoutes.find_stops.
  destruct (find_route_number_ok page_text) as [number ->].
  destruct (find_route_desc_ok page_text) as [desc ->]. cbn [bind].
  rewrite !collect_traverse.
  pose proof (traverse_cases ProcessRoutes.stop_of_match1 valid_row1
                ValueError
                (finditer ProcessRoutes.stop_pattern1 page_text)) as H1.
  pose proof (traverse_cases ProcessRoutes.stop_of_match2 valid_row2
                ValueError
                (finditer ProcessRoutes.stop_pattern2 page_text)) as H2.
  destruct (traverse ProcessRoutes.stop_of_match1 _) as [st|e] eqn:E1.
  - destruct H1 as [Hall Hlen].
    { intros m (start & rest & Hm)%finditer_sound.
      by eapply stop_of_match1_cases. }
    cbn [bind].
    assert (Hno : ~ Exists (fun m => valid_row1 m = false)
                     (finditer ProcessRoutes.stop_pattern1 page_text)).
    { intros (m & Hm & Hbad)%Exists_exists.
      rewrite Forall_forall in Hall. rewrite (Hall m Hm) in Hbad. done. }
    destruct st as [|d st].
    + assert (Hm1 : finditer ProcessRoutes.stop_pattern1 page_text = [])
        by (by destruct (finditer ProcessRoutes.stop_pattern1 page_text)).
      destruct (traverse ProcessRoutes.stop_of_match2 _) as [st2|e2] eqn:E2.
      * destruct H2 as [Hall2 _].
        { intros m (start & rest & Hm)%finditer_sound.
          by eapply stop_of_match2_accepts. }
        split; [done|]. intros [Hex | [_ Hex]]; [done|].
        apply Exists_exists in Hex as (m & Hm & Hbad).
        rewrite Forall_forall in Hall2. rewrite (Hall2 m Hm) in Hbad. done.
      * destruct H2 as [_ Hex].
        { intros m (start & rest & Hm)%finditer_sound.
          by eapply stop_of_match2_accepts. }
        split; [|done]. intros _. by right.
    + split; [done|]. intros [Hex | [Hm1 _]]; [done|].
      rewrite Hm1 in Hlen. done.
  - destruct H1 as [_ Hex].
    { intros m (start & rest & Hm)%finditer_sound.
      by eapply stop_of_match1_cases. }
    cbn [bind]. split; [|done]. intros _. by left.
Qed.


(** ** data-cleaning.py: the routes of a text *)

Lemma dc_stop_pattern_groups m start rest :
  matches DataCleaningRoutes.stop_pattern (MState start rest []) m ->
  exists g1 g2 g3,
    group m 1 = Some g1 /\ group m 2 = Some g2 /\ group m 3 = Some g3 /\
    g1 <> [] /\ forallb is_decimal g1 = true /\
    forallb ProcessRoutes.digit_or_dot g2 = true.
Proof.
  unfold DataCleaningRoutes.stop_pattern. cbn [cat]. intros Hm.
  inv_seq Hm Hg1 Hm1. inv_seq Hm1 Hs1 Hm2. inv_seq Hm2 Hg2 Hm3.
  inv_seq Hm3 Hb Hm4. inv_seq Hm4 Hs3 Hm5. inv_seq Hm5 Hg3 Hlook.
  apply matches_look_groupless in Hlook as ->; [|done].
  apply matches_group_inv in Hg1 as (a1 & g1 & Hd1 & E1 & _ & ->).
  apply matches_rep_inv in Hd1 as (w1 & E1' & _ & _ & D1 & L1).
  apply matches_rep_inv in Hs1 as (_ & _ & _ & G1 & _).
  apply matches_group_inv in Hg2 as (a2 & g2 & Hd2 & E2 & _ & ->).
  apply matches_rep_inv in Hd2 as (w2 & E2' & _ & G2 & D2 & _).
  inversion Hb; subst; clear Hb.
  apply matches_rep_inv in Hs3 as (_ & _ & _ & G4 & _).
  apply matches_group_inv in Hg3 as (a3 & g3 & Hd3 & _ & _ & ->).
  apply matches_rep_inv in Hd3 as (_ & _ & _ & G5 & _).
  simpl in *.
  assert (g1 = w1) as -> by (rewrite E1' in E1; by apply app_inv_tail in E1).
  assert (g2 = w2) as -> by (rewrite E2' in E2; by apply app_inv_tail in E2).
  assert (Hne : w1 <> []) by (intros ->; simpl in L1; lia).
  exists w1, w2, g3. unfold group. simpl.
  rewrite G5, G4, G2, G1. by simpl.
Qed.

Lemma dc_stop_of_match_cases m start rest :
  matches DataCleaningRoutes.stop_pattern (MState start rest []) m ->
  if valid_row1 m
  then exists d, DataCleaningRoutes.stop_of_match m = Ok d
  else DataCleaningRoutes.stop_of_match m = Raise ValueError.
Proof.
  intros (g1 & g2 & g3 & H1 & H2 & H3 & Hne & Hdig & Hd)%dc_stop_pattern_groups.
  unfold DataCleaningRoutes.stop_of_match, valid_row1. rewrite H1, H2, H3.
  cbn [of_option bind default from_option id].
  pose proof (py_int_digits g1 Hne Hdig) as Hi.
  destruct (int_accepts g1); cbn [andb].
  - destruct Hi as [n ->]. cbn [bind].
    pose proof (py_float_valid g2 Hd) as Hf.
    destruct (valid_fare g2).
    + destruct Hf as [f ->]. cbn [bind]. eauto.
    + by rewrite Hf.
  - by rewrite Hi.
Qed.

Lemma dc_header_ok text :
  exists route_info route_desc,
    (match re_search DataCleaningRoutes.route_re text with
     | Some m => g <- of_option TypeError (group m 1) ;; Ok (strip g)
     | None => Ok (asc "Unknown")
     end) = Ok route_info /\
    (match re_search DataCleaningRoutes.route_desc_re text with
     | Some m => g <- of_option TypeError (group m 1) ;; Ok (strip g)
     | None => Ok []
     end) = Ok route_desc.
Proof.
  unfold re_search.
  assert (H1 : exists x,
    (match search_from DataCleaningRoutes.route_re 0 text with
     | Some m => g <- of_option TypeError (group m 1) ;; Ok (strip g)
     | None => Ok (asc "Unknown")
     end) = Ok x).
  { destruct (search_from DataCleaningRoutes.route_re 0 text) as [m|] eqn:E;
      [|eauto].
    apply search_from_sound in E as (start & rest & Hm).
    unfold DataCleaningRoutes.route_re in Hm. cbn [cat] in Hm.
    inv_seq Hm H2 Hm1. inv_seq Hm1 H3 Hm2. inv_seq Hm2 H4 Hm3.
    inv_seq Hm3 H5 H6.
    apply matches_group_inv in H6 as (a & g & _ & _ & _ & ->).
    unfold group. simpl. eauto. }
  assert (H2 : exists x,
    (match search_from DataCleaningRoutes.route_desc_re 0 text with
     | Some m => g <- of_option TypeError (group m 1) ;; Ok (strip g)
     | None => Ok []
     end) = Ok x).
  { destruct (search_from DataCleaningRoutes.route_desc_re 0 text)
      as [m|] eqn:E; [|eauto].
    apply search_from_sound in E as (start & rest & Hm).
    unfold DataCleaningRoutes.route_desc_re in Hm. cbn [cat] in Hm.
    inv_seq Hm H2 Hm1. inv_seq Hm1 H3 Hm2. inv_seq Hm2 H4 H5.
    apply matches_group_inv in H5 as (a & g & _ & _ & _ & ->).
    unfold group. simpl. eauto. }
  destruct H1 as [x ->], H2 as [y ->]. eauto.
Qed.

Lemma dc_extract_route_data_cases text :
  match DataCleaningRoutes.extract_route_data text with
  | Ok rd =>
      Forall (fun m => valid_row1 m = true)
             (finditer DataCleaningRoutes.stop_pattern text) /\
      length (DataCleaningRoutes.stops rd)
        = length (finditer DataCleaningRoutes.stop_pattern text)
  | Raise e =>
      e = ValueError /\
      Exists (fun m => valid_row1 m = false)
             (finditer DataCleaningRoutes.stop_pattern text)
  end.
Proof.
  unfold DataCleaningRoutes.extract_route_data.
  destruct (dc_header_ok text) as (info & desc & -> & ->). cbn [bind].
  pose proof (traverse_cases DataCleaningRoutes.stop_of_match valid_row1
                ValueError
                (finditer DataCleaningRoutes.stop_pattern text)) as H1.
  destruct (traverse DataCleaningRoutes.stop_of_match _) as [st|e];
    cbn [bind]; apply H1;
    intros m (start & rest & Hm)%finditer_sound;
    by eapply dc_stop_of_match_cases.
Qed.

(** X6. [extract_route_data] of data-cleaning.py catches nothing: it raises
    ValueError, and nothing else, exactly when the stop pattern has a match
    whose sequence number [int] refuses (more than 4300 digits) or whose
    fare text [float] refuses (no digit, or more than one dot), and it
    returns one stop per match otherwise. *)
Theorem extract_route_data_raises_iff (text : pystr) :
  match DataCleaningRoutes.extract_route_data text with
  | Ok rd =>
      Forall (fun m => valid_row1 m = true)
             (finditer DataCleaningRoutes.stop_pattern text) /\
      length (DataCleaningRoutes.stops rd)
        = length (finditer DataCleaningRoutes.stop_pattern text)
  | Raise e =>
      e = ValueError /\
      Exists (fun m => valid_row1 m = false)
             (finditer DataCleaningRoutes.stop_pattern text)
  end.
Proof. exact (dc_extract_route_data_cases text). Qed.

Lemma split_from_length sep s : forall skip cur,
  length (split_from sep s skip cur) = S (count_from sep s skip).
Proof.
  induction s as [|c t IH]; intros skip cur; simpl; [done|].
  destruct skip; [|apply IH].
  destruct (startswith (c :: t) sep); simpl; by rewrite IH.
Qed.

Lemma traverse_raise {A B : Type} (f : A -> result B) l e :
  traverse f l = Raise e -> exists a, a ∈ l /\ f a = Raise e.
Proof.
  induction l as [|a l IH]; simpl; [done|].
  destruct (f a) as [b|e'] eqn:Ha; simpl.
  - destruct (traverse f l) as [bs|e'']; simpl; [done|].
    intros [= ->]. destruct (IH eq_refl) as (x & Hx & Hf).
    exists x. split; [by right | done].
  - intros [= ->]. exists a. split; [by left | done].
Qed.

Lemma process_pdf_text_pieces pages_text :
  DataCleaningRoutes.process_pdf_text pages_text
    = traverse DataCleaningRoutes.extract_route_data
        (drop 1 (split_from DataCleaningRoutes.PAGE_MARK pages_text 0 [])).
Proof. reflexivity. Qed.

(** X7. [process_pdf_text] returns one route per page mark of the text,
    also for a page that is blank or has no stop; a text without page mark
    gives the empty list, whatever it holds; the only exception let out is
    the ValueError of a sequence number or a fare text that [int] or
    [float] refuses. *)
Theorem process_pdf_text_one_route_per_mark (pages_text : pystr) :
  (count_str pages_text DataCleaningRoutes.PAGE_MARK = 0 ->
   DataCleaningRoutes.process_pdf_text pages_text = Ok []) /\
  match DataCleaningRoutes.process_pdf_text pages_text with
  | Ok routes =>
      length routes = count_str pages_text DataCleaningRoutes.PAGE_MARK
  | Raise e => e = ValueError
  end.
Proof.
  rewrite process_pdf_text_pieces.
  pose proof (split_from_length DataCleaningRoutes.PAGE_MARK pages_text 0 [])
    as Hlen.
  fold (count_str pages_text DataCleaningRoutes.PAGE_MARK) in Hlen.
  split.
  - intros Hz. rewrite Hz in Hlen.
    destruct (split_from _ _ _ _) as [|p [|q ps]]; done.
  - destruct (traverse _ _) as [routes|e] eqn:E.
    + apply traverse_length in E. rewrite E, length_drop, Hlen. lia.
    + apply traverse_raise in E as (page & _ & Hp).
      pose proof (dc_extract_route_data_cases page) as H.
      rewrite Hp in H. by destruct H.
Qed.

Lemma process_pdf_text_one_route_per_mark_witness :
  count_str MoreSamples.unmarked DataCleaningRoutes.PAGE_MARK = 0%nat /\
  DataCleaningRoutes.process_pdf_text MoreSamples.unmarked = Ok [].
Proof.
  assert (H : count_str MoreSamples.unmarked DataCleaningRoutes.PAGE_MARK
              = 0%nat) by reflexivity.
  split; [exact H|].
  exact (proj1 (process_pdf_text_one_route_per_mark MoreSamples.unmarked) H).
Defined.


(** ** Step_1 and Step_2: the rows of a table *)

(** A match of a row pattern, whatever its lookahead: group 1 is a run of
    digits, and group 2, when it took part, a decimal number. *)
Lemma row_re_groups look m start rest :
  groupless look = true ->
  matches (cat [ Group 1 (plus is_decimal); plus is_space;
                 Opt (cat [Group 2 number_re; star is_space; Chr is_sep]);
                 star is_space; Group 3 (plus_lazy dot); Look look ])
          (MState start rest []) m ->
  exists g1 g3,
    group m 1 = Some g1 /\ group m 3 = Some g3 /\
    g1 <> [] /\ forallb is_decimal g1 = true /\
    (group m 2 = None \/
     exists d1 o d2, group m 2 = Some (d1 ++ o ++ d2) /\
       forallb is_decimal d1 = true /\ d1 <> [] /\
       (o = [] \/ o = [0x2E%N]) /\ forallb is_decimal d2 = true).
Proof.
  intros Hlook. cbn [cat]. intros Hm.
  inv_seq Hm Hg1 Hm1. inv_seq Hm1 Hs1 Hm2. inv_seq Hm2 Hopt Hm3.
  inv_seq Hm3 Hs2 Hm4. inv_seq Hm4 Hg3 Hl.
  apply matches_look_groupless in Hl as ->; [|done].
  apply matches_group_inv in Hg1 as (a1 & g1 & Hd1 & E1 & _ & ->).
  apply matches_rep_inv in Hd1 as (w1 & E1' & _ & G0 & D1 & L1).
  apply matches_rep_inv in Hs1 as (_ & _ & _ & G1 & _).
  apply matches_rep_inv in Hs2 as (_ & _ & _ & G3 & _).
  apply matches_group_inv in Hg3 as (a3 & g3 & Hd3 & _ & _ & ->).
  apply matches_rep_inv in Hd3 as (_ & _ & _ & G5 & _).
  simpl in *.
  assert (g1 = w1) as -> by (rewrite E1' in E1; by apply app_inv_tail in E1).
  exists w1, g3. unfold group. simpl. rewrite G5, G3.
  inversion Hopt as [| | | | | | |a s s' Hyes|a s| | | |]; subst; clear Hopt.
  - inv_seq Hyes Hg2 Hy1. inv_seq Hy1 Hs3 Hsep.
    inversion Hsep; subst; clear Hsep.
    apply matches_rep_inv in Hs3 as (_ & _ & _ & G4 & _).
    apply matches_group_inv in Hg2 as (a2 & g2 & Hd2 & E2 & _ & ->).
    apply matches_number_inv in Hd2
      as (d1 & o & d2 & E2' & G2 & D21 & N21 & Ho & D22).
    simpl in *.
    assert (g2 = d1 ++ o ++ d2) as ->
      by (rewrite E2' in E2; by apply app_inv_tail in E2).
    rewrite G4. simpl. rewrite G2, G1, G0. simpl.
    repeat split; [destruct w1; [simpl in L1; lia | done] | done |].
    right. by exists d1, o, d2.
  - rewrite G1, G0. simpl.
    repeat split; [destruct w1; [simpl in L1; lia | done] | done |].
    by left.
Qed.

Import ExtractBusRoutesCsv TableSpec.

Lemma keeps_spec location :
  keeps location = true ->
  (2 <= length location)%nat /\ forallb noise_char location = false.
Proof.
  unfold keeps. intros [[Hne Hlen]%andb_prop Hnoise]%andb_prop.
  apply Nat.ltb_lt in Hlen. split; [lia|].
  apply negb_true_iff, bool_decide_eq_false in Hnoise.
  apply negb_true_iff, bool_decide_eq_false in Hne.
  destruct (forallb noise_char location) eqn:E; [|done].
  destruct Hnoise. by apply noise_re_spec.
Qed.

Lemma parse_table_with_rows look words text :
  groupless look = true ->
  Forall well_formed_row
    (parse_table_with
       (cat [ Group 1 (plus is_decimal); plus is_space;
              Opt (cat [Group 2 number_re; star is_space; Chr is_sep]);
              star is_space; Group 3 (plus_lazy dot); Look look ])
       words text).
Proof.
  intros Hlook. apply Forall_forall. intros d Hd.
  unfold parse_table_with in Hd.
  apply elem_of_flat_map in Hd as (line & _ & Hd).
  destruct (skipped words line); [by apply elem_of_nil in Hd|].
  apply list_elem_of_omap in Hd as (t & Ht & Hrow).
  apply list_elem_of_fmap in Ht as (m & -> & Hm).
  apply finditer_sound in Hm as (start & rest & Hm).
  apply (row_re_groups look) in Hm
    as (g1 & g3 & H1 & H3 & Hne & Hdig & H2); [|done].
  unfold groups3, row_of_match in Hrow. rewrite H1, H3 in Hrow.
  cbn [default from_option id] in Hrow.
  destruct (keeps (clean_location g3)) eqn:Hk; [|done].
  injection Hrow as <-.
  apply keeps_spec in Hk as [Hlen Hnoise].
  exists g1, (default [] (group m 2)), (clean_location g3).
  repeat split; [done | done | |apply strip_strip|done..].
  destruct H2 as [-> | (d1 & o & d2 & -> & D1 & N1 & Ho & D2)]; [by left|].
  right. by apply py_float_ok.
Qed.

Lemma table_rows_well_formed_aux (text : pystr) :
  Forall well_formed_row (parse_table_data text) /\
  Forall well_formed_row (parse_table_data_step1 text).
Proof.
  split; by apply parse_table_with_rows.
Qed.

(** X8. Every row that [parse_table_data] of Step_1 or of Step_2 returns
    has a stop number made of one digit or more, a distance that is empty
    or that [float] reads, and a location that is trimmed, has at least two
    characters and holds a character that is no digit, white space or
    separator. *)
Theorem table_rows_are_well_formed (text : pystr) :
  Forall well_formed_row (parse_table_data text) /\
  Forall well_formed_row (parse_table_data_step1 text).
Proof. exact (table_rows_well_formed_aux text). Qed.

(** ** Step_2: the page loop and the columns *)

Lemma row_has_columns stop route_number route_name page_number :
  well_formed_row stop ->
  has_columns (<["page_number" := VInt page_number]>
               (<["route_name" := VStr route_name]>
               (<["route_number" := VStr route_number]> stop))).
Proof.
  intros (stop_num & distance & location & -> & _). intros key.
  unfold row_dict, ExtractBusRoutesCsv.fieldnames.
  rewrite !lookup_insert_is_Some, lookup_empty, !elem_of_cons, elem_of_nil.
  split.
  - intros H. repeat (destruct H as [<- | [_ H]]; [tauto|]).
    by destruct H.
  - intros H.
    destruct (decide ("page_number" = key)); [tauto|right; split; [done|]].
    destruct (decide ("route_name" = key)); [tauto|right; split; [done|]].
    destruct (decide ("route_number" = key)); [tauto|right; split; [done|]].
    destruct (decide ("stop_number" = key)); [tauto|right; split; [done|]].
    destruct (decide ("distance_km" = key)); [tauto|right; split; [done|]].
    destruct (decide ("location" = key)); [tauto|].
    exfalso. repeat (destruct H as [-> | H]; [done|]). done.
Qed.

Lemma extract_pages_columns pages : forall page_num,
  Forall has_columns (extract_pages page_num pages).
Proof.
  induction pages as [|page rest IH]; intros page_num; simpl; [done|].
  destruct (strip page); [apply IH|].
  apply Forall_app. split; [|apply IH].
  apply Forall_forall. intros d (stop & -> & Hstop)%list_elem_of_fmap.
  apply row_has_columns.
  destruct (table_rows_well_formed_aux page) as [H _].
  rewrite Forall_forall in H. by apply H.
Qed.

(** X9. Every row that [extract_routes_from_txt] of Step_2 returns has the
    six keys that [save_to_csv] declares as the columns of the CSV file,
    and no other key: no column of the file is left to the default value
    and no row is refused by the writer for a key it does not know. *)
Theorem extracted_rows_have_the_columns (content : pystr) :
  Forall has_columns (extract_routes_from_txt content).
Proof. apply extract_pages_columns. Qed.

(** ** Step_2: the page numbers *)

Lemma extract_pages_elem pages : forall page_num d,
  d ∈ extract_pages page_num pages ->
  exists i page stop,
    pages !! i = Some page /\ stop ∈ parse_table_data page /\
    d = <["page_number" := VInt (Z.of_nat (page_num + i) + 1)]>
        (<["route_name" := VStr (extract_route_name page)]>
        (<["route_number" := VStr (extract_route_number page)]> stop)).
Proof.
  induction pages as [|page rest IH]; intros page_num d Hd; simpl in Hd.
  { by apply elem_of_nil in Hd. }
  assert (Hrest : d ∈ extract_pages (S page_num) rest ->
                  exists i page0 stop,
                    (page :: rest) !! i = Some page0 /\
                    stop ∈ parse_table_data page0 /\
                    d = <["page_number" := VInt (Z.of_nat (page_num + i) + 1)]>
                        (<["route_name" := VStr (extract_route_name page0)]>
                        (<["route_number" :=
                             VStr (extract_route_number page0)]> stop))).
  { intros (i & page0 & stop & Hi & Hstop & ->)%IH.
    exists (S i), page0, stop. repeat split; [done..|].
    by replace (page_num + S i)%nat with (S page_num + i)%nat by lia. }
  destruct (strip page); [by apply Hrest|].
  apply elem_of_app in Hd as [Hd | Hd]; [|by apply Hrest].
  apply list_elem_of_fmap in Hd as (stop & -> & Hstop).
  exists 0%nat, page, stop. by rewrite Nat.add_0_r.
Qed.

Lemma split_tokens_nonempty ts : forall cur, split_tokens cur ts <> [].
Proof.
  induction ts as [|[c|start m] ts IH]; intros cur; simpl; [done| |done].
  apply IH.
Qed.

(** The split of a text that starts with a match: the first piece is
    empty. *)
Lemma re_split_match_first r s m :
  re_match r s = Some m ->
  exists piece pieces, re_split r s = [] :: piece :: pieces.
Proof.
  unfold re_match, re_split, tokens. intros Hm.
  assert (exists ts, scan r 0 s 0 = TMatch 0 m :: ts) as [ts ->].
  { destruct s as [|c t]; simpl; rewrite Hm;
      destruct (Nat.eqb (mpos m) 0); eauto. }
  simpl. pose proof (split_tokens_nonempty ts []) as Hne.
  destruct (split_tokens [] ts) as [|piece pieces]; [done|]. eauto.
Qed.

(** X10. In a text that starts with a page mark, as the OCR script writes
    it, the piece before the first mark is empty, so the rows that
    [extract_routes_from_txt] finds after the i-th mark carry the page
    number i + 1, with the route number and name found after that mark: no
    row has page number 1. *)
Theorem marked_text_has_no_page_one (content : pystr) :
  is_Some (re_match page_re content) ->
  Forall (found_after_mark content) (extract_routes_from_txt content).
Proof.
  intros [m Hm]. apply Forall_forall. intros d Hd.
  unfold extract_routes_from_txt, pages_of in Hd. unfold found_after_mark.
  destruct (re_split_match_first _ _ _ Hm) as (piece & pieces & Hsplit).
  rewrite Hsplit in Hd |- *. cbn [length Nat.leb] in Hd.
  apply extract_pages_elem in Hd as (i & page & stop & Hi & Hstop & ->).
  destruct i as [|i].
  - injection Hi as <-. unfold parse_table_data, parse_table_with in Hstop.
    simpl in Hstop. by apply elem_of_nil in Hstop.
  - exists (S i), page, stop. repeat split; [lia | done..].
Qed.

Lemma marked_text_has_no_page_one_witness :
  is_Some (re_match page_re Samples.document) /\
  Forall (found_after_mark Samples.document)
         (extract_routes_from_txt Samples.document).
Proof.
  assert (H : is_Some (re_match page_re Samples.document))
    by (vm_compute; eauto).
  split; [exact H | exact (marked_text_has_no_page_one _ H)].
Defined.

(** ** Step_1 and Step_2: the table is read line by line *)

Lemma split_all_nonempty sep s : split_all sep s <> [].
Proof.
  induction s as [|c t IH]; simpl; [done|].
  destruct (c =? sep)%N; [done|]. by destruct (split_all sep t).
Qed.

Lemma split_all_app sep a b :
  split_all sep (a ++ sep :: b) = split_all sep a ++ split_all sep b.
Proof.
  induction a as [|c t IH]; simpl.
  - by rewrite N.eqb_refl.
  - destruct (c =? sep)%N; [by rewrite IH|]. rewrite IH.
    pose proof (split_all_nonempty sep t) as Hne.
    by destruct (split_all sep t).
Qed.

Lemma parse_table_with_app row_re words a b :
  parse_table_with row_re words (a ++ [NL] ++ b)
  = parse_table_with row_re words a ++ parse_table_with row_re words b.
Proof.
  unfold parse_table_with. simpl. by rewrite split_all_app, flat_map_app.
Qed.

(** X11. [parse_table_data] of Step_1 and of Step_2 reads a text line by
    line: the rows of two texts joined by a line break are the rows of the
    first followed by the rows of the second, so no row is made of text
    from two lines. *)
Theorem table_is_read_line_by_line (a b : pystr) :
  parse_table_data (a ++ [NL] ++ b)
    = parse_table_data a ++ parse_table_data b /\
  parse_table_data_step1 (a ++ [NL] ++ b)
    = parse_table_data_step1 a ++ parse_table_data_step1 b.
Proof.
  split; apply parse_table_with_app.
Qed.


(** ** into-csv/parse_bus_routes.py: from the lines to the CSV file *)

Import BusRouteParser RouteSpec.

Lemma process_line_stops st raw st' :
  process_line st raw = Ok st' ->
  Forall (fun r => Forall is_stop (stops r)) (heap st) ->
  Forall (fun r => Forall is_stop (stops r)) (heap st').
Proof.
  unfold process_line. intros H Hall.
  destruct (is_blank _); [by injection H as <-|].
  destruct (is_through _); [by injection H as <-|].
  destruct (is_header _).
  { destruct (split_once _ _) as [|? [|? ?]]; injection H as <-; simpl;
      apply Forall_app; (split; [done|]); by repeat constructor. }
  destruct (current_route st) as [l|]; [|by injection H as <-].
  destruct (re_match stop_re _) as [m|] eqn:Hm; [|by injection H as <-].
  apply stop_re_groups in Hm
    as (g1 & g2 & g3 & f & H1 & H2 & H3 & _ & _ & _ & Hf).
  rewrite H1, H2, H3 in H. simpl in H.
  destruct (py_int g1) as [n|] eqn:Hn; [|done]. simpl in H.
  apply py_int_value in Hn as (Hpos & _ & Hacc).
  rewrite Hf in H. simpl in H. injection H as <-. simpl.
  unfold append_stop. apply Forall_alter; [done|].
  intros r _ Hr. simpl. apply Forall_app. split; [done|].
  repeat constructor. by eexists _, _, _.
Qed.

Lemma parse_loop_stops lines : forall st st',
  parse_loop st lines = Ok st' ->
  Forall (fun r => Forall is_stop (stops r)) (heap st) ->
  Forall (fun r => Forall is_stop (stops r)) (heap st').
Proof.
  induction lines as [|raw rest IH]; intros st st' H Hall; simpl in H.
  - by injection H as <-.
  - destruct (process_line st raw) as [st1|] eqn:H1; [|done]. simpl in H.
    eapply IH; [exact H|]. by eapply process_line_stops.
Qed.

(** Every stop of every route that [parse_route_data] returns is a stop
    dict. *)
Lemma parse_route_data_stops lines :
  Forall (fun r => Forall is_stop (stops r)) (parse_route_data lines).
Proof.
  unfold parse_route_data, parse_refs.
  destruct (parse_loop initial lines) as [st|] eqn:Hst; [|constructor].
  simpl.
  pose proof (parse_loop_stops _ _ _ Hst (Forall_nil_2 _)) as Hall.
  rewrite Forall_forall in Hall |- *. intros r Hr.
  apply list_elem_of_omap in Hr as (l & _ & Hl).
  apply Hall. by eapply list_elem_of_lookup_2.
Qed.

Lemma float_at_stop_dict n name f :
  float_at "fare_from_start" (stop_dict n name f) = Some f.
Proof.
  unfold float_at, stop_dict.
  by rewrite lookup_insert_ne, lookup_insert_ne, lookup_insert.
Qed.

Lemma has_fare_stop_dict n name f : has_fare (stop_dict n name f) f.
Proof.
  unfold has_fare, stop_dict.
  by rewrite lookup_insert_ne, lookup_insert_ne, lookup_insert.
Qed.

Lemma fares_cons n name f ds :
  fares (stop_dict n name f :: ds) = f :: fares ds.
Proof.
  change (fares (stop_dict n name f :: ds))
    with (match float_at "fare_from_start" (stop_dict n name f) with
          | Some y => y :: fares ds
          | None => fares ds
          end).
  by rewrite float_at_stop_dict.
Qed.

Lemma is_stop_fares ds :
  Forall is_stop ds -> Forall2 has_fare ds (fares ds).
Proof.
  induction 1 as [|d ds (n & name & f & -> & _) _ IH]; [constructor|].
  rewrite fares_cons. constructor; [apply has_fare_stop_dict | exact IH].
Qed.

Lemma omap_lookup_seq {A : Type} (b : list A) : forall a,
  omap (fun l => (a ++ b) !! l) (seq (length a) (length b)) = b.
Proof.
  induction b as [|x b IH]; intros a; simpl; [done|].
  rewrite lookup_app_r, Nat.sub_diag by lia. simpl. f_equal.
  specialize (IH (a ++ [x])). rewrite length_app, Nat.add_1_r in IH.
  by rewrite <- app_assoc in IH.
Qed.

Lemma enhanced_stops_spec ds :
  Forall is_stop ds ->
  enhanced_stops ds = Ok (zip_with with_previous ds (deltas (fares ds))).
Proof.
  intros Hds%is_stop_fares. unfold enhanced_stops.
  rewrite (calculate_fare_differences_spec ds (seq 0 (length ds)) ds
             (fares ds)); [|clear Hds|done].
  - simpl. f_equal. rewrite length_seq.
    pose proof (omap_lookup_seq
                  (zip_with with_previous ds (deltas (fares ds))) ds) as H.
    rewrite length_zip_with in H. unfold deltas in H at 2.
    rewrite length_deltas_at in H.
    rewrite (Forall2_length _ _ _ Hds), Nat.min_id in H.
    by rewrite (Forall2_length _ _ _ Hds).
  - apply Forall2_same_length_lookup_2; [by rewrite length_seq|].
    intros i l d Hl Hd. apply lookup_seq in Hl as [-> _]. done.
Qed.

Lemma row_of_stop route n name f delta :
  int_accepts (str_of_int (Z.abs n)) = true ->
  (row <- row_of route (with_previous (stop_dict n name f) delta) ;;
   _ <- writerow row ;; Ok row)
  = Ok (expected_row route (stop_dict n name f) delta).
Proof.
  intros Hacc.
  assert (H : row_of route (with_previous (stop_dict n name f) delta)
              = Ok (expected_row route (stop_dict n name f) delta));
    [|rewrite H; cbn [bind]; unfold writerow, expected_row, stop_dict;
      cbn [row_stop_sequence row_stop_name];
      rewrite lookup_insert_eq;
      rewrite (lookup_insert_ne _ "stop_sequence" "stop_name") by done;
      rewrite lookup_insert_eq; cbn [default from_option id field_text bind];
      by rewrite Hacc].
  unfold row_of, expected_row, with_previous, getitem.
  rewrite float_at_stop_dict. unfold stop_dict.
  rewrite (lookup_insert_ne _ "fare_from_previous" "stop_sequence") by done.
  rewrite (lookup_insert_ne _ "fare_from_previous" "stop_name") by done.
  rewrite (lookup_insert_ne _ "fare_from_previous" "fare_from_start") by done.
  rewrite lookup_insert.
  rewrite (lookup_insert_ne _ "stop_sequence" "stop_name") by done.
  rewrite (lookup_insert_ne _ "stop_sequence" "fare_from_start") by done.
  rewrite (lookup_insert_ne _ "stop_name" "fare_from_start") by done.
  by rewrite !lookup_insert.
Qed.

Lemma write_stops_spec route ds : forall prevs,
  Forall is_stop ds ->
  write_stops route (zip_with with_previous ds prevs)
  = (zip_with (expected_row route) ds prevs, Ok tt).
Proof.
  induction ds as [|d ds IH]; intros prevs Hds; [done|].
  destruct prevs as [|delta prevs]; [done|].
  apply Forall_cons in Hds as [(n & name & f & -> & _ & Hacc) Hds].
  cbn [zip_with write_stops].
  by rewrite row_of_stop, IH.
Qed.

Lemma write_routes_spec routes :
  Forall (fun r => Forall is_stop (stops r)) routes ->
  write_routes routes = (flat_map expected_rows routes, Ok tt).
Proof.
  induction 1 as [|route routes Hr _ IH]; simpl; [done|].
  rewrite enhanced_stops_spec by done.
  by rewrite write_stops_spec, IH.
Qed.

Lemma length_expected_rows route :
  Forall is_stop (stops route) ->
  length (expected_rows route) = length (stops route).
Proof.
  intros H%is_stop_fares. unfold expected_rows.
  rewrite length_zip_with. unfold deltas. rewrite length_deltas_at.
  rewrite <- (Forall2_length _ _ _ H). lia.
Qed.

Lemma length_flat_map {A B : Type} (f : A -> list B) l :
  length (flat_map f l) = sum_nat (map (fun a => length (f a)) l).
Proof.
  induction l as [|a l IH]; simpl; [done|].
  by rewrite length_app, sum_nat_cons, IH.
Qed.

(** X12. [write_to_csv] never fails on the routes that [parse_route_data]
    returns: every stop is a dict with a sequence number, a name and a
    fare, and it writes, route after route, one row per stop, with the
    route's number, name and through-location, the stop's sequence number
    and name, and the fare and the fare difference in fixed notation with
    two decimals; the number of rows is the total number of stops; and it
    returns True. *)
Theorem parsed_routes_are_written (lines : list pystr) :
  let routes := parse_route_data lines in
  Forall (fun route => Forall is_stop (stops route)) routes /\
  write_to_csv routes = (flat_map expected_rows routes, true) /\
  length (flat_map expected_rows routes)
    = sum_nat (map (fun route => length (stops route)) routes).
Proof.
  intros routes. pose proof (parse_route_data_stops lines) as Hall.
  fold routes in Hall. split; [done|]. split.
  - unfold write_to_csv. by rewrite write_routes_spec.
  - rewrite length_flat_map. f_equal. apply map_ext_Forall.
    eapply Forall_impl; [exact Hall|]. apply length_expected_rows.
Qed.
